(** * SSO Friendly Site Crawler: crawl orchestration engine

    A shallow embedding of [src/crawler.user.js] (frontier, allowlist
    matcher, session controls, quiescence detector, delivery pipeline)
    and the properties of its specification that hold, or fail, on it.

    Modelling conventions.
    - JavaScript numbers that the script only ever uses as integers
      ([CONFIG.maxDepth], [CONFIG.maxPages], [state.pagesVisited], depths,
      timestamps, HTTP statuses) are [Z]; [state.queue.length] is the
      [length] of a list, injected into [Z] where the script compares it
      with a number. The script's numbers are doubles: [n + 1] and
      [String(n)] are those of [Z] up to [Number.MAX_SAFE_INTEGER], and
      a property that depends on it says so.
    - [state.visited] (a [Set] of strings) is a [gset string];
      [state.allowlist] and [state.dynamicAllowlist] (sets that are
      iterated) are duplicate-free lists in insertion order.
    - The browser (URL parser, [RegExp], [window.location]) is an
      interface, [Browser]; everything is proved for every browser.
    - A statement that can throw evaluates to a [completion]; the module
      state and the observable effects are threaded by the monad [M],
      which records every mutation of [state] together with the state
      before and after it.
    - An asynchronous function is run to its end before the next click
      is handled, except for the clicks the world of that function
      delivers at its [await]s ([interrupt]). One loop runs at a time:
      the two clicks that would start a second worker next to a waiting
      one (Pause on a paused session, Start on a stopped one) do
      nothing in [interrupt]. What is proved from the guards of one
      synchronous block holds whatever runs in between; a property that
      needs the single worker names it as a hypothesis
      ([one_worker]). *)

From stdpp Require Import gmap strings list.
From Equations Require Import Equations.
From Stdlib Require Import ZArith Lia Ascii.

Open Scope string_scope.
Open Scope list_scope.
Open Scope Z_scope.

(** ** JavaScript values *)

(** The completion of a statement or call: a value, or a thrown error. *)
Inductive completion (A : Type) : Type :=
| Normal (a : A)
| Throw (err : string).
Arguments Normal {A} a.
Arguments Throw {A} err.

Module JS.

(** [s.startsWith(p)] *)
Definition startsWith (p s : string) : bool := String.prefix p s.

(** [s.endsWith(p)] *)
Definition endsWith (p s : string) : bool :=
  let n := String.length s in
  let k := String.length p in
  (k <=? n)%nat && String.eqb (String.substring (n - k) k s) p.

(** [s.slice(1, -1)] *)
Definition slice_1_m1 (s : string) : string :=
  String.substring 1 (String.length s - 2) s.

(** Truthiness of a string: [!s] is [true] exactly for the empty string. *)
Definition truthy (s : string) : bool := negb (String.eqb s "").

Definition digit (d : Z) : string :=
  match d with
  | 0 => "0" | 1 => "1" | 2 => "2" | 3 => "3" | 4 => "4"
  | 5 => "5" | 6 => "6" | 7 => "7" | 8 => "8" | _ => "9"
  end.

Fixpoint decimal (fuel : nat) (n : Z) (acc : string) : string :=
  let acc' := digit (n mod 10) +:+ acc in
  match fuel with
  | O => acc'
  | S fuel' => if n <? 10 then acc' else decimal fuel' (n / 10) acc'
  end.


(** [String(n)] for an integer [n] (below [1e21], where the script
    prints every digit). *)
Definition String_of (n : Z) : string :=
  if n <? 0 then "-" +:+ decimal (Z.to_nat (Z.log2 (- n))) (- n) ""
  else decimal (Z.to_nat (Z.log2 n)) n "".

Fixpoint repeat_str (k : nat) (c : string) : string :=
  match k with
  | O => ""
  | S k' => c +:+ repeat_str k' c
  end.

(** [s.padStart(width, c)] for a one-character filler [c]. *)
Definition padStart (width : nat) (c : string) (s : string) : string :=
  repeat_str (width - String.length s) c +:+ s.

(** [new Set(items)] and [set.add(x)] on a set kept in insertion order. *)
Definition Set_add (x : string) (l : list string) : list string :=
  if bool_decide (x ∈ l) then l else l ++ [x].

Definition Set_of (items : list string) : list string :=
  fold_left (fun acc x => Set_add x acc) items [].

(** [set.delete(x)] *)
Definition Set_delete (x : string) (l : list string) : list string :=
  filter (fun y => y ≠ x) l.

End JS.

(** ** Configuration and session state *)

Record config : Type := {
  maxDepth : Z;
  maxPages : Z;
  delayMs : Z;
  domainAllowlist : list string;
  postEndpoint : string;
}.

(** The [CONFIG] literal of the script, on a page served by [host]. *)
Definition CONFIG (host : string) : config := {|
  maxDepth := 2;
  maxPages := 50;
  delayMs := 1500;
  domainAllowlist := [host];
  postEndpoint := "";
|}.

(** A frontier entry, [{ url, depth }]. *)
Record entry : Type := { url : string; depth : Z }.

#[global] Instance entry_eq_dec : EqDecision entry.
Proof. solve_decision. Defined.

(** The [state] container ([iframe], [idleTrackers] and [controls] hold
    browser objects and play no part in the frontier). *)
Record state : Type := {
  isRunning : bool;
  isPaused : bool;
  isStopping : bool;
  startTime : option Z;
  pagesVisited : Z;
  queue : list entry;
  visited : gset string;
  allowlist : list string;
  dynamicAllowlist : list string;
}.

(** The initial [state] object. *)
Definition initial_state (cfg : config) : state := {|
  isRunning := false;
  isPaused := false;
  isStopping := false;
  startTime := None;
  pagesVisited := 0;
  queue := [];
  visited := ∅;
  allowlist := JS.Set_of (domainAllowlist cfg);
  dynamicAllowlist := [];
|}.

Definition set_isRunning (b : bool) (s : state) : state :=
  {| isRunning := b; isPaused := isPaused s; isStopping := isStopping s;
     startTime := startTime s; pagesVisited := pagesVisited s;
     queue := queue s; visited := visited s; allowlist := allowlist s;
     dynamicAllowlist := dynamicAllowlist s |}.

Definition set_isPaused (b : bool) (s : state) : state :=
  {| isRunning := isRunning s; isPaused := b; isStopping := isStopping s;
     startTime := startTime s; pagesVisited := pagesVisited s;
     queue := queue s; visited := visited s; allowlist := allowlist s;
     dynamicAllowlist := dynamicAllowlist s |}.

Definition set_isStopping (b : bool) (s : state) : state :=
  {| isRunning := isRunning s; isPaused := isPaused s; isStopping := b;
     startTime := startTime s; pagesVisited := pagesVisited s;
     queue := queue s; visited := visited s; allowlist := allowlist s;
     dynamicAllowlist := dynamicAllowlist s |}.

Definition set_startTime (t : option Z) (s : state) : state :=
  {| isRunning := isRunning s; isPaused := isPaused s;
     isStopping := isStopping s;
     startTime := t; pagesVisited := pagesVisited s;
     queue := queue s; visited := visited s; allowlist := allowlist s;
     dynamicAllowlist := dynamicAllowlist s |}.

Definition set_pagesVisited (n : Z) (s : state) : state :=
  {| isRunning := isRunning s; isPaused := isPaused s;
     isStopping := isStopping s;
     startTime := startTime s; pagesVisited := n;
     queue := queue s; visited := visited s; allowlist := allowlist s;
     dynamicAllowlist := dynamicAllowlist s |}.

Definition set_queue (q : list entry) (s : state) : state :=
  {| isRunning := isRunning s; isPaused := isPaused s;
     isStopping := isStopping s;
     startTime := startTime s; pagesVisited := pagesVisited s;
     queue := q; visited := visited s; allowlist := allowlist s;
     dynamicAllowlist := dynamicAllowlist s |}.

Definition set_visited (v : gset string) (s : state) : state :=
  {| isRunning := isRunning s; isPaused := isPaused s;
     isStopping := isStopping s;
     startTime := startTime s; pagesVisited := pagesVisited s;
     queue := queue s; visited := v; allowlist := allowlist s;
     dynamicAllowlist := dynamicAllowlist s |}.

Definition set_allowlist (a : list string) (s : state) : state :=
  {| isRunning := isRunning s; isPaused := isPaused s;
     isStopping := isStopping s;
     startTime := startTime s; pagesVisited := pagesVisited s;
     queue := queue s; visited := visited s; allowlist := a;
     dynamicAllowlist := dynamicAllowlist s |}.

Definition set_dynamicAllowlist (a : list string) (s : state) : state :=
  {| isRunning := isRunning s; isPaused := isPaused s;
     isStopping := isStopping s;
     startTime := startTime s; pagesVisited := pagesVisited s;
     queue := queue s; visited := visited s; allowlist := allowlist s;
     dynamicAllowlist := a |}.

(** ** Observable effects *)

(** The capture payload, [{ url, timestamp, html, screenshot }]. *)
Record payload : Type := {
  p_url : string;
  p_timestamp : string;
  p_html : string;
  p_screenshot : string;
}.

(** A mutation of [state], named after the statement that performs it. *)
Inductive mutation : Type :=
| QueuePush (e : entry)          (* state.queue.push(e) *)
| QueueShift (e : entry)         (* state.queue.shift(), returning e *)
| QueueReset                     (* state.queue = [] / state.queue.length = 0 *)
| VisitedAdd (u : string)        (* state.visited.add(u) *)
| VisitedClear                   (* state.visited.clear() *)
| CountPage                      (* state.pagesVisited += 1 *)
| Assign.                        (* any other assignment to a field of state *)

Inductive event : Type :=
| Logged (msg : string)                        (* log(msg, ...) *)
| Stepped (pre : state) (m : mutation) (post : state)
| Visiting (e : entry)                         (* visitInIframe(e.url) *)
| Fetched (endpoint : string) (body : payload) (* fetch(endpoint, POST) *)
| GmPosted (endpoint : string) (body : payload) (* GM_xmlhttpRequest(POST) *)
| Downloaded (name : string) (content : string) (ok : bool)
                                               (* gmDownload(url, name) *)
| Rescheduled.                                 (* setTimeout(runQueue, 0) *)

(** ** The monad of the script: state, thrown errors, recorded effects *)

Definition M (A : Type) : Type := state -> completion A * state * list event.

Definition ret {A} (a : A) : M A := fun s => (Normal a, s, []).

Definition bind {A B} (m : M A) (f : A -> M B) : M B :=
  fun s =>
    match m s with
    | (Normal a, s1, l1) =>
        match f a s1 with
        | (r, s2, l2) => (r, s2, l1 ++ l2)
        end
    | (Throw err, s1, l1) => (Throw err, s1, l1)
    end.

Definition throw {A} (err : string) : M A := fun s => (Throw err, s, []).

(** [try { m } catch (err) { h err }] *)
Definition try_catch {A} (m : M A) (h : string -> M A) : M A :=
  fun s =>
    match m s with
    | (Normal a, s1, l1) => (Normal a, s1, l1)
    | (Throw err, s1, l1) =>
        match h err s1 with
        | (r, s2, l2) => (r, s2, l1 ++ l2)
        end
    end.

Definition get : M state := fun s => (Normal s, s, []).

Definition emit (ev : event) : M unit := fun s => (Normal tt, s, [ev]).

Definition mutate (m : mutation) (f : state -> state) : M unit :=
  fun s => (Normal tt, f s, [Stepped s m (f s)]).

(** A call that evaluates to a completion without touching [state]. *)
Definition lift {A} (c : completion A) : M A :=
  match c with
  | Normal a => ret a
  | Throw err => throw err
  end.

Declare Scope crawl_scope.
Delimit Scope crawl_scope with crawl.
Notation "x <- m ;; k" := (bind m (fun x => k))
  (at level 100, m at next level, right associativity) : crawl_scope.
Notation "m ;;; k" := (bind m (fun _ => k))
  (at level 100, right associativity) : crawl_scope.
Open Scope crawl_scope.

Definition log (msg : string) : M unit := emit (Logged msg).

(** [list.forEach(f)] *)
Fixpoint forEach {A} (f : A -> M unit) (l : list A) : M unit :=
  match l with
  | [] => ret tt
  | x :: rest => f x ;;; forEach f rest
  end.

(** [list.some(f)]: stops at the first element [f] accepts. *)
Fixpoint some {A} (f : A -> M bool) (l : list A) : M bool :=
  match l with
  | [] => ret false
  | x :: rest => b <- f x ;; if b then ret true else some f rest
  end.

(** The states a run passes through, in order. *)
Definition states_of (l : list event) : list state :=
  omap (fun ev => match ev with Stepped _ _ post => Some post | _ => None end) l.

(** ** The browser *)

(** What the script uses of its host: the URL parser, regular
    expressions, and [window.location]. *)
Class Browser : Type := {
  URL : Type;
  new_URL : string -> string -> completion URL;  (* new URL(input, base) *)
  href : URL -> string;
  origin : URL -> string;
  hostname : URL -> string;
  without_hash : URL -> URL;                      (* url.hash = '' *)
  RegExp : Type;
  new_RegExp : string -> completion RegExp;       (* new RegExp(source) *)
  test : RegExp -> string -> bool;                (* regex.test(text) *)
  location_href : string;
  location_origin : string;
  location_host : string;
}.

(** The anchors of a document: the [href] attribute of each element
    [doc.querySelectorAll('a[href]')] returns, in document order. *)
Definition document : Type := list string.

(** A click on one of the three buttons of the control panel. *)
Inductive click : Type := ClickedStart | ClickedPause | ClickedStop.

(** What the remote endpoint and the download facility answer to one
    call of [handleOutput]. *)
Record delivery_world : Type := {
  fetch_status : option Z;       (* response.status; None: fetch rejects *)
  gm_available : bool;           (* typeof GM_xmlhttpRequest === 'function' *)
  gm_status : option Z;          (* status given to onload; None: onerror *)
  gm_download_available : bool;  (* typeof GM_download === 'function' *)
  download_ok : string -> bool;  (* GM_download calls onload for this name *)
}.

(** What happens around one iteration of the loop of [runQueue]. *)
Record iteration_world : Type := {
  visit_clicks : list click;     (* clicks while the page is awaited *)
  visit_result : option (payload * document);  (* visitInIframe(url) *)
  delivery : delivery_world;
  delay_clicks : list click;     (* clicks during delay(CONFIG.delayMs) *)
}.

(** What happens around one call of [startCrawl]. *)
Record start_world : Type := {
  start_now : Z;                           (* Date.now() *)
  capture_clicks : list click;
  capture : completion payload;  (* waitForSettled(window); capturePage(..) *)
  start_delivery : delivery_world;
  start_document : document;               (* the anchors of the page *)
  start_delay_clicks : list click;
  start_loop : list iteration_world;
}.

(** How a run of the loop body goes on. *)
Inductive flow : Type := Continue | FallThrough.

(** A user action handled while no crawl function is in flight. *)
Inductive action : Type :=
| Start (w : start_world)
| TogglePause (script : list iteration_world)
| Stop
| AllowAdd (value : string)
| AllowRemove (item : string).

(** ** The script *)

Section Crawler.

Context `{Browser}.
Variable cfg : config.

(** [updateStatus] only redraws the status panel. *)
Definition updateStatus : M unit := ret tt.

Definition stopCrawl : M unit :=
  mutate Assign (set_isStopping true) ;;;
  mutate QueueReset (set_queue []) ;;;
  mutate Assign (set_isRunning false) ;;;
  mutate Assign (set_isPaused false) ;;;
  updateStatus.

(** A click handled while a crawl function waits at an [await]: what
    the handlers [stopCrawl], [togglePause] and [startCrawl] do, but
    for two cases, in which the script starts a second worker next to
    the waiting one and [interrupt] does nothing: Pause on a session
    that is running and paused ([togglePause] resumes it and calls
    [runQueue]), and Start on a session that is not running
    ([startCrawl] resets the state and crawls). Neither is reached
    under [one_worker]. *)
Definition interrupt (c : click) : M unit :=
  match c with
  | ClickedStop => stopCrawl
  | ClickedPause =>
      s <- get ;;
      if isRunning s && negb (isPaused s)
      then mutate Assign (set_isPaused true) ;;; updateStatus
      else ret tt
  | ClickedStart =>
      s <- get ;;
      if isRunning s then log "Crawl already in progress" else ret tt
  end.

Definition normalizeUrl (input : string) : string :=
  match new_URL input location_origin with
  | Normal u => href (without_hash u)
  | Throw _ => input
  end.

(** The test [isAllowedUrl] makes of one allowlist entry. *)
Definition is_regex_item (item : string) : bool :=
  JS.startsWith "/" item && JS.endsWith "/" item
  && (2 <? String.length item)%nat.

Definition allowlist_item_matches (target : URL) (item : string) : M bool :=
  if negb (JS.truthy item) then ret false
  else if is_regex_item item then
    try_catch
      (regex <- lift (new_RegExp (JS.slice_1_m1 item)) ;;
       ret (test regex (hostname target)))
      (fun err => log "Invalid regex in allowlist" ;;; ret false)
  else ret (String.eqb (hostname target) item).

Definition isAllowedUrl (u : string) : M bool :=
  try_catch
    (target <- lift (new_URL u location_href) ;;
     if negb (String.eqb (origin target) location_origin) then ret false
     else s <- get ;; some (allowlist_item_matches target) (allowlist s))
    (fun err => ret false).

(** The callback [enqueueLinks] runs on each anchor. *)
Definition enqueue_anchor (baseUrl : string) (currentDepth : Z)
    (attr : string) : M unit :=
  try_catch
    (if negb (JS.truthy attr) || JS.startsWith "javascript:" attr
        || JS.startsWith "mailto:" attr
     then ret tt
     else
       resolved <- lift (new_URL attr baseUrl) ;;
       let absoluteUrl := normalizeUrl (href resolved) in
       allowed <- isAllowedUrl absoluteUrl ;;
       if negb allowed then ret tt
       else
         s <- get ;;
         if bool_decide (absoluteUrl ∈ visited s) then ret tt
         else if existsb (fun item => String.eqb (url item) absoluteUrl)
                   (queue s) then ret tt
         else if Z.of_nat (length (queue s)) + pagesVisited s
                 >=? maxPages cfg then ret tt
         else
           let e := {| url := absoluteUrl; depth := currentDepth + 1 |} in
           mutate (QueuePush e) (fun s => set_queue (queue s ++ [e]) s))
    (fun err => log "Failed to enqueue link").

Definition enqueueLinks (doc : document) (baseUrl : string)
    (currentDepth : Z) : M unit :=
  if currentDepth + 1 >? maxDepth cfg then ret tt
  else forEach (enqueue_anchor baseUrl currentDepth) doc ;;; updateStatus.

(** *** Delivery *)

Definition response_ok (status : Z) : bool :=
  (200 <=? status) && (status <? 300).

Definition gmPost (w : delivery_world) (endpoint : string)
    (body : payload) : M bool :=
  if negb (gm_available w) then throw "GM_xmlhttpRequest unavailable"
  else
    emit (GmPosted endpoint body) ;;;
    match gm_status w with
    | Some status =>
        if response_ok status then ret true else throw "HTTP status"
    | None => throw "request error"
    end.

Definition postPayload (w : delivery_world) (p : payload) : M bool :=
  let endpoint := postEndpoint cfg in
  if negb (JS.truthy endpoint) then ret false
  else
    try_catch
      (emit (Fetched endpoint p) ;;;
       match fetch_status w with
       | Some status =>
           if response_ok status then ret true else throw "HTTP status"
       | None => throw "fetch rejected"
       end)
      (fun err =>
         log "Fetch POST failed" ;;;
         try_catch (gmPost w endpoint p)
           (fun gmErr => log "GM_xmlhttpRequest POST failed" ;;; ret false)).

Definition gmDownload (w : delivery_world) (content name : string) : M unit :=
  if gm_download_available w then
    if download_ok w name then emit (Downloaded name content true)
    else emit (Downloaded name content false) ;;; throw "download failed"
  else emit (Downloaded name content true).

Definition downloadPayload (w : delivery_world) (p : payload)
    (htmlFilename pngFilename : string) : M unit :=
  gmDownload w (p_html p) htmlFilename ;;;
  gmDownload w (p_screenshot p) pngFilename.

Definition handleOutput (w : delivery_world) (p : option payload) : M unit :=
  match p with
  | None => ret tt
  | Some p =>
      s <- get ;;
      let index := JS.padStart 4 "0" (JS.String_of (pagesVisited s + 1)) in
      let htmlFilename := "page-" +:+ index +:+ ".html" in
      let pngFilename := "page-" +:+ index +:+ ".png" in
      if JS.truthy (postEndpoint cfg) then
        success <- postPayload w p ;;
        if success then log "Posted payload"
        else
          log "POST failed, falling back to download" ;;;
          downloadPayload w p htmlFilename pngFilename
      else downloadPayload w p htmlFilename pngFilename
  end.

(** *** The crawl *)

Definition crawlCurrentPage (w : start_world) : M unit :=
  try_catch
    (let currentUrl := normalizeUrl location_href in
     s <- get ;;
     if bool_decide (currentUrl ∈ visited s)
     then log "Current page already processed"
     else
       forEach interrupt (capture_clicks w) ;;;
       p <- lift (capture w) ;;
       handleOutput (start_delivery w) (Some p) ;;;
       mutate (VisitedAdd currentUrl)
         (fun s => set_visited ({[currentUrl]} ∪ visited s) s) ;;;
       mutate CountPage (fun s => set_pagesVisited (pagesVisited s + 1) s) ;;;
       enqueueLinks (start_document w) currentUrl 0 ;;;
       forEach interrupt (start_delay_clicks w))
    (fun err => log "Error capturing current page").

(** The [try] block of the loop of [runQueue], for the entry [e] just
    taken from the queue. *)
Definition runQueue_visit (w : iteration_world) (e : entry) : M flow :=
  try_catch
    (updateStatus ;;;
     emit (Visiting e) ;;;
     forEach interrupt (visit_clicks w) ;;;
     match visit_result w with
     | None => ret Continue
     | Some (p, doc) =>
         handleOutput (delivery w) (Some p) ;;;
         enqueueLinks doc (url e) (depth e) ;;;
         mutate (VisitedAdd (url e))
           (fun s => set_visited ({[url e]} ∪ visited s) s) ;;;
         mutate CountPage
           (fun s => set_pagesVisited (pagesVisited s + 1) s) ;;;
         updateStatus ;;;
         ret FallThrough
     end)
    (fun err => log "Error visiting" ;;; ret FallThrough).

(** The [while] loop of [runQueue]; each iteration takes its world from
    [script]. The result tells whether the loop was left ([true]) or
    the script ended with the loop still going ([false]). *)
Fixpoint runQueue_while (script : list iteration_world) : M bool :=
  match script with
  | [] => ret false
  | w :: rest =>
      s <- get ;;
      if negb ((0 <? Z.of_nat (length (queue s)))
               && (pagesVisited s <? maxPages cfg)) then ret true
      else if isPaused s || isStopping s then ret true
      else
        match queue s with
        | [] => throw "TypeError: undefined is not iterable"
        | e :: q =>
            mutate (QueueShift e) (set_queue q) ;;;
            s <- get ;;
            if bool_decide (url e ∈ visited s) then runQueue_while rest
            else if depth e >? maxDepth cfg then runQueue_while rest
            else
              fl <- runQueue_visit w e ;;
              match fl with
              | Continue => runQueue_while rest
              | FallThrough =>
                  s <- get ;;
                  if pagesVisited s >=? maxPages cfg
                  then log "Reached max pages" ;;; ret true
                  else
                    forEach interrupt (delay_clicks w) ;;;
                    runQueue_while rest
              end
        end
  end.

Definition runQueue (script : list iteration_world) : M unit :=
  s <- get ;;
  if negb (isRunning s) || isPaused s || isStopping s then ret tt
  else
    left <- runQueue_while script ;;
    if negb left then ret tt
    else
      mutate Assign
        (fun s => set_isRunning
                    ((0 <? Z.of_nat (length (queue s)))
                     && (pagesVisited s <? maxPages cfg)) s) ;;;
      s <- get ;;
      if isRunning s && negb (isPaused s) && negb (isStopping s)
      then emit Rescheduled
      else updateStatus ;;; log "Crawl completed or stopped".

Definition togglePause (script : list iteration_world) : M unit :=
  s <- get ;;
  if negb (isRunning s) then ret tt
  else
    mutate Assign (fun s => set_isPaused (negb (isPaused s)) s) ;;;
    s <- get ;;
    (if negb (isPaused s)
     then try_catch (runQueue script) (fun err => log "Error resuming crawl")
     else ret tt) ;;;
    updateStatus.

Definition startCrawl (w : start_world) : M unit :=
  s <- get ;;
  if isRunning s then log "Crawl already in progress"
  else
    mutate Assign (set_isRunning true) ;;;
    mutate Assign (set_isPaused false) ;;;
    mutate Assign (set_isStopping false) ;;;
    mutate Assign (set_startTime (Some (start_now w))) ;;;
    mutate Assign (set_pagesVisited 0) ;;;
    mutate QueueReset (set_queue []) ;;;
    mutate VisitedClear (set_visited ∅) ;;;
    mutate Assign
      (fun s => set_allowlist
                  (JS.Set_of
                     (List.filter JS.truthy
                        (domainAllowlist cfg ++ dynamicAllowlist s
                         ++ [location_host]))) s) ;;;
    (let seed := {| url := normalizeUrl location_href; depth := 0 |} in
     mutate (QueuePush seed) (fun s => set_queue (queue s ++ [seed]) s)) ;;;
    updateStatus ;;;
    crawlCurrentPage w ;;;
    s <- get ;;
    if negb (isStopping s)
    then try_catch (runQueue (start_loop w))
           (fun err => log "Crawl terminated with error")
    else ret tt.

(** The [Add] button and the remove buttons of the allowlist panel;
    [value] is the trimmed text of the input box. *)
Definition allowlist_add (value : string) : M unit :=
  if negb (JS.truthy value) then ret tt
  else
    mutate Assign (fun s => set_allowlist (JS.Set_add value (allowlist s)) s) ;;;
    mutate Assign
      (fun s => set_dynamicAllowlist
                  (JS.Set_add value (dynamicAllowlist s)) s).

Definition allowlist_remove (item : string) : M unit :=
  mutate Assign
    (fun s => set_allowlist (JS.Set_delete item (allowlist s)) s) ;;;
  mutate Assign
    (fun s => set_dynamicAllowlist
                (JS.Set_delete item (dynamicAllowlist s)) s).

Definition perform (a : action) : M unit :=
  match a with
  | Start w => startCrawl w
  | TogglePause script => togglePause script
  | Stop => stopCrawl
  | AllowAdd value => allowlist_add value
  | AllowRemove item => allowlist_remove item
  end.

(** A crawl session: the actions of the user, from the initial state. *)
Definition session (acts : list action) : completion unit * state * list event :=
  forEach perform acts (initial_state cfg).

End Crawler.

(** ** The quiescence detector *)

Module Tracker.

(** The variables [createActivityTracker] closes over. *)
Record tracker : Type := {
  pendingRequests : Z;
  lastActivity : Z;
  lastMutation : Z;
}.

Definition idleDelay : Z := 1000.

(** The tracker as created, [Date.now()] returning [now1] then [now2]. *)
Definition createActivityTracker (now1 now2 : Z) : tracker :=
  {| pendingRequests := 0; lastActivity := now1; lastMutation := now2 |}.

Definition markNetworkActivity (delta now : Z) (t : tracker) : tracker :=
  {| pendingRequests := Z.max 0 (pendingRequests t + delta);
     lastActivity := now;
     lastMutation := lastMutation t |}.

(** What the instrumented page reports, with [Date.now()] at that time. *)
Inductive signal : Type :=
| Issued (now : Z)       (* wrapped fetch or send: markNetworkActivity(1) *)
| Settled (now : Z)      (* finally or loadend: markNetworkActivity(-1) *)
| Mutated (now : Z).     (* the MutationObserver callback *)

Definition receive (t : tracker) (sg : signal) : tracker :=
  match sg with
  | Issued now => markNetworkActivity 1 now t
  | Settled now => markNetworkActivity (-1) now t
  | Mutated now =>
      {| pendingRequests := pendingRequests t;
         lastActivity := lastActivity t;
         lastMutation := now |}
  end.

Definition receive_all (sgs : list signal) (t : tracker) : tracker :=
  fold_left receive sgs t.

Definition networkIdle (now : Z) (t : tracker) : bool :=
  (pendingRequests t <=? 0) && (now - lastActivity t >? idleDelay).

Definition domIdle (now : Z) (t : tracker) : bool :=
  now - lastMutation t >? idleDelay / 2.

(** The world of one wait: for the [k]-th run of [check] (counted from
    1), the signals received since the run before and [Date.now()]. *)
Definition polls : Type := nat -> list signal * Z.

Inductive resolution : Type := Idle | TimedOut.

(** [check], run when the counter is [attempts]; the result is the
    value of the counter when the promise resolves, and why. *)
Equations? check (w : polls) (t : tracker) (attempts : nat)
  : nat * resolution by wf (121 - attempts)%nat lt :=
  check w t attempts
    with networkIdle (snd (w (S attempts)))
           (receive_all (fst (w (S attempts))) t)
         && domIdle (snd (w (S attempts)))
              (receive_all (fst (w (S attempts))) t) := {
    | true := (S attempts, Idle)
    | false with le_lt_dec (S attempts) 120 := {
        | right _ := (S attempts, TimedOut)
        | left _ :=
            check w (receive_all (fst (w (S attempts))) t) (S attempts) } }.
Proof. lia. Qed.

Definition waitForIdle (w : polls) (t : tracker) : nat * resolution :=
  check w t 0.

(** The tracker as the [k]-th run of [check] finds it. *)
Fixpoint tracker_at (w : polls) (t : tracker) (k : nat) : tracker :=
  match k with
  | O => t
  | S k' => receive_all (fst (w k)) (tracker_at w t k')
  end.

(** Both idleness conditions hold at the [k]-th run of [check]. *)
Definition idle_at (w : polls) (t : tracker) (k : nat) : bool :=
  networkIdle (snd (w k)) (tracker_at w t k)
  && domIdle (snd (w k)) (tracker_at w t k).

End Tracker.

(** ** The trackers of the windows *)

Module Registry.

(** A [Window] object, by its identity. *)
Definition window : Type := positive.

(** [state.idleTrackers]: the tracker of each window that has one, in
    the state the page's signals have left it in. *)
Definition registry : Type := gmap window Tracker.tracker.

(** [getActivityTracker(win)], [Date.now()] returning [now1] then
    [now2] if a tracker is created. *)
Definition getActivityTracker (win : window) (now1 now2 : Z) (reg : registry)
  : Tracker.tracker * registry :=
  match reg !! win with
  | Some t => (t, reg)
  | None =>
      let t := Tracker.createActivityTracker now1 now2 in
      (t, <[win := t]> reg)
  end.

(** [waitForSettled(win)]: the wait of the tracker of [win], which is
    left as the last poll found it. *)
Definition waitForSettled (win : window) (now1 now2 : Z) (w : Tracker.polls)
    (reg : registry) : (nat * Tracker.resolution) * registry :=
  let '(t, reg1) := getActivityTracker win now1 now2 reg in
  let res := Tracker.waitForIdle w t in
  (res, <[win := Tracker.tracker_at w t res.1]> reg1).

End Registry.

(** ** The status panel *)

Module Panel.

Section Truncate.

(** A string as its UTF-16 code units; [ellipsis] is the code unit of
    the character [truncate] appends. *)
Context {code_unit : Type} (ellipsis : code_unit).

(** [str.slice(0, end)]: a negative [end] counts from the end of the
    string. *)
Definition slice_0 (last : Z) (str : list code_unit) : list code_unit :=
  let len := Z.of_nat (length str) in
  let final := if last <? 0 then Z.max (len + last) 0 else Z.min last len in
  take (Z.to_nat final) str.

Definition truncate (str : list code_unit) (length : Z) : list code_unit :=
  if Z.of_nat (List.length str) >? length
  then slice_0 (length - 3) str ++ [ellipsis]
  else str.

End Truncate.

End Panel.

(** ** A sample browser, for concrete runs

    It parses URLs of the shape [scheme://host/path#fragment], resolves
    a path starting with [/] against the origin of the base, and takes a
    regular expression to be a plain text to search for; a source that
    starts with an opening parenthesis or a star is a syntax error. *)

Module Sample.

Record url_record : Type := {
  u_scheme : string;
  u_host : string;
  u_path : string;
  u_hash : string;
}.

Definition split_at (sep s : string) : option (string * string) :=
  match String.index 0 sep s with
  | Some i =>
      Some (String.substring 0 i s,
            String.substring (i + String.length sep)
              (String.length s - i - String.length sep) s)
  | None => None
  end.

Definition u_origin (u : url_record) : string :=
  u_scheme u +:+ "://" +:+ u_host u.

Definition u_href (u : url_record) : string :=
  u_origin u +:+ u_path u +:+ u_hash u.

Definition u_hostname (u : url_record) : string :=
  match split_at ":" (u_host u) with
  | Some (name, _) => name
  | None => u_host u
  end.

Definition parse_absolute (s : string) : completion url_record :=
  match split_at "://" s with
  | Some (scheme, rest) =>
      let '(front, hash) :=
        match split_at "#" rest with
        | Some (a, b) => (a, "#" +:+ b)
        | None => (rest, "")
        end in
      let '(host, path) :=
        match split_at "/" front with
        | Some (h, p) => (h, "/" +:+ p)
        | None => (front, "/")
        end in
      if String.eqb host "" then Throw "TypeError: Invalid URL"
      else Normal {| u_scheme := scheme; u_host := host;
                     u_path := path; u_hash := hash |}
  | None => Throw "TypeError: Invalid URL"
  end.

Definition parse (input base : string) : completion url_record :=
  match parse_absolute input with
  | Normal u => Normal u
  | Throw err =>
      if String.prefix "/" input then
        match parse_absolute base with
        | Normal b => parse_absolute (u_origin b +:+ input)
        | Throw err' => Throw err'
        end
      else Throw err
  end.

Definition compile (source : string) : completion string :=
  if String.prefix "(" source || String.prefix "*" source
  then Throw "SyntaxError: Invalid regular expression"
  else Normal source.

Definition search (needle text : string) : bool :=
  match String.index 0 needle text with
  | Some _ => true
  | None => false
  end.

(** The sample browser showing the page at [page]. *)
Definition browser (page : string) : Browser := {|
  URL := url_record;
  new_URL := parse;
  href := u_href;
  origin := u_origin;
  hostname := u_hostname;
  without_hash :=
    fun u => {| u_scheme := u_scheme u; u_host := u_host u;
                u_path := u_path u; u_hash := "" |};
  RegExp := string;
  new_RegExp := compile;
  test := search;
  location_href := page;
  location_origin :=
    match parse_absolute page with
    | Normal u => u_origin u
    | Throw _ => "null"
    end;
  location_host :=
    match parse_absolute page with
    | Normal u => u_host u
    | Throw _ => ""
    end;
|}.

(** An endpoint that answers 500 on both channels, and downloads that
    succeed. *)
Definition failing_endpoint : delivery_world := {|
  fetch_status := Some 500;
  gm_available := true;
  gm_status := Some 500;
  gm_download_available := true;
  download_ok := fun _ => true;
|}.

Definition a_payload (u : string) : payload := {|
  p_url := u;
  p_timestamp := "2024-01-01T00:00:00.000Z";
  p_html := "<html></html>";
  p_screenshot := "data:image/png;base64,AAAA";
|}.

(** A page that is captured and has the given anchors. *)
Definition page_with (u : string) (anchors : document) : iteration_world := {|
  visit_clicks := [];
  visit_result := Some (a_payload u, anchors);
  delivery := failing_endpoint;
  delay_clicks := [];
|}.

(** Clicking Start on a page with the given anchors, the loop then
    running in [script]. *)
Definition start_on (u : string) (anchors : document)
    (script : list iteration_world) : start_world := {|
  start_now := 0;
  capture_clicks := [];
  capture := Normal (a_payload u);
  start_delivery := failing_endpoint;
  start_document := anchors;
  start_delay_clicks := [];
  start_loop := script;
|}.

Definition config_with (depth pages : Z) (endpoint : string) : config := {|
  maxDepth := depth;
  maxPages := pages;
  delayMs := 1500;
  domainAllowlist := [];
  postEndpoint := endpoint;
|}.

End Sample.

(** ** Properties of a run *)

(** [wp G m Q s]: run from [s], [m] ends in a completion and a state
    that satisfy [Q], and every effect it records satisfies [G]. *)
Definition wp {A} (G : event -> Prop) (m : M A)
    (Q : completion A -> state -> Prop) (s : state) : Prop :=
  Q (m s).1.1 (m s).1.2 /\ Forall G (m s).2.

(** The frontier and the visited set share no URL. *)
Definition frontier_apart (s : state) : Prop :=
  Forall (fun e => url e ∉ visited s) (queue s).

#[global] Instance frontier_apart_dec s : Decision (frontier_apart s).
Proof. unfold frontier_apart. apply _. Defined.

(** The visited set and the frontier together fit the page budget. *)
Definition within_budget (cfg : config) (s : state) : Prop :=
  Z.of_nat (size (visited s)) + Z.of_nat (length (queue s)) <= maxPages cfg.

#[global] Instance within_budget_dec cfg s : Decision (within_budget cfg s).
Proof. unfold within_budget. apply _. Defined.

(** The visited set alone fits the page budget. *)
Definition visited_within_budget (cfg : config) (s : state) : Prop :=
  Z.of_nat (size (visited s)) <= maxPages cfg.

#[global] Instance visited_within_budget_dec cfg s :
  Decision (visited_within_budget cfg s).
Proof. unfold visited_within_budget. apply _. Defined.

(** An entry is pushed onto the queue only when its URL is neither in
    the visited set nor in the queue. *)
Definition pushes_fresh (ev : event) : Prop :=
  match ev with
  | Stepped pre (QueuePush e) _ =>
      (url e ∉ visited pre) /\ (url e ∉ (url <$> queue pre))
  | _ => True
  end.

(** A computation whose pushes are fresh, from whatever state it is
    run in. *)
Definition harmless {A} (m : M A) : Prop :=
  forall s, wp pushes_fresh m (fun _ _ => True) s.

(** The effects of a list of events, by kind. *)
Definition network_attempts (l : list event) : list event :=
  List.filter
    (fun ev => match ev with Fetched _ _ | GmPosted _ _ => true | _ => false end)
    l.

Definition persisted (l : list event) : list (string * string) :=
  omap (fun ev => match ev with
                  | Downloaded name content true => Some (name, content)
                  | _ => None
                  end) l.

Section Safety.

Context `{Browser}.
Variable cfg : config.

(** The most the visited set ever holds: the start page is captured
    whatever the budget. *)
Definition cap : Z := Z.max 1 (maxPages cfg).

(** The most the visited set and the queue ever hold together. *)
Definition reach : Z := Z.max 2 (maxPages cfg + 1).

(** What every recorded effect of a session satisfies. *)
Definition safe (ev : event) : Prop :=
  match ev with
  | Stepped pre m post =>
      Z.of_nat (size (visited post)) <= cap /\
      Z.of_nat (size (visited post)) + Z.of_nat (length (queue post)) <= reach /\
      match m with
      | QueuePush e => (url e ∉ visited pre) /\ (url e ∉ (url <$> queue pre))
      | VisitedAdd u => u ∉ visited pre
      | _ => True
      end
  | Visiting e => depth e <= maxDepth cfg
  | _ => True
  end.

(** What holds between two statements that count a page. *)
Definition stable (s : state) : Prop :=
  pagesVisited s = Z.of_nat (size (visited s)) /\ pagesVisited s <= cap
  /\ Z.of_nat (length (queue s)) + pagesVisited s <= reach.

(** The visited set is [V], the page count [n], and the queue and the
    page count stay within [B]. *)
Definition kept (V : gset string) (n B : Z) (s : state) : Prop :=
  visited s = V /\ pagesVisited s = n
  /\ Z.of_nat (length (queue s)) + n <= B.

Definition fits (V : gset string) (n B : Z) : Prop :=
  Z.of_nat (size V) <= cap /\ maxPages cfg <= B
  /\ Z.of_nat (size V) + (B - n) <= reach.

(** A computation that leaves the visited set and the page count alone,
    and pushes onto the queue only within the budget. *)
Definition quiet {A} (m : M A) : Prop :=
  forall V n B s, fits V n B -> kept V n B s ->
    wp safe m (fun _ s' => kept V n B s') s.

End Safety.


(** *** The allowlist, in the words of the specification *)

Section MatcherDefs.

Context `{Browser}.

(** An allowlist entry wrapped in slashes around a non-empty [body]. *)
Definition slash_delimited (item body : string) : Prop :=
  body <> "" /\ item = "/" +:+ body +:+ "/".

(** The hostname [host] matches the allowlist entry [item]: a pattern
    entry is compiled and tested against the hostname, any other entry
    has to be equal to it. The empty string is no entry. *)
Inductive entry_matches (host item : string) : Prop :=
| pattern_matches (body : string) (re : RegExp) :
    slash_delimited item body ->
    new_RegExp body = Normal re ->
    test re host = true ->
    entry_matches host item
| literal_matches :
    item <> "" ->
    (forall body, ~ slash_delimited item body) ->
    host = item ->
    entry_matches host item.

(** The value the callback of [isAllowedUrl] computes for one entry. *)
Definition entry_test (target : URL) (item : string) : bool :=
  JS.truthy item &&
  (if is_regex_item item then
     match new_RegExp (JS.slice_1_m1 item) with
     | Normal re => test re (hostname target)
     | Throw _ => false
     end
   else String.eqb (hostname target) item).

(** The value [isAllowedUrl] computes. *)
Definition allowed (allow : list string) (u : string) : bool :=
  match new_URL u location_href with
  | Normal target =>
      String.eqb (origin target) location_origin
      && existsb (entry_test target) allow
  | Throw _ => false
  end.

End MatcherDefs.

(** *** Delivery, in the words of the specification *)

(** The direct POST fails: the request is rejected or the status is not
    a success. *)
Definition direct_post_fails (w : delivery_world) : Prop :=
  match fetch_status w with
  | Some status => response_ok status = false
  | None => True
  end.

(** The POST through the privileged channel fails, or there is no such
    channel. *)
Definition privileged_post_fails (w : delivery_world) : Prop :=
  gm_available w = false \/
  match gm_status w with
  | Some status => response_ok status = false
  | None => True
  end.

(** The download facility stores the file [name]. *)
Definition storage_accepts (w : delivery_world) (name : string) : Prop :=
  gm_download_available w = true -> download_ok w name = true.

(** *** Concrete runs *)

Module Runs.

Definition page : string := "https://a.test/".

(** Start on a page without links; the loop is not followed. *)
Definition seed_only : list action :=
  [Start (Sample.start_on page [] [])].

(** Start on a page linking to [/a] and [/b]; the loop takes the seed,
    then [/a], which links to [/b], [/c] and [/d]. *)
Definition two_levels : list action :=
  [Start (Sample.start_on page ["/a"; "/b"]
            [Sample.page_with page [];
             Sample.page_with "https://a.test/a" ["/b"; "/c"; "/d"]])].

(** A page that mutates right before every poll. *)
Definition never_settles : Tracker.polls :=
  fun k => ([Tracker.Mutated (250 * Z.of_nat k)], 250 * Z.of_nat k).

(** A running session. *)
Definition running : state :=
  set_isRunning true (initial_state (CONFIG "a.test")).

(** A session whose allowlist holds a malformed pattern and a host. *)
Definition with_bad_pattern : state :=
  set_allowlist ["/(/"; "a.test"] (initial_state (CONFIG "a.test")).

(** A configuration with a remote endpoint. *)
Definition with_endpoint : config :=
  Sample.config_with 2 50 "https://sink.test/capture".

End Runs.

(** ** Further properties of the script *)

(** *** Delivery *)

(** Every call of [gmDownload], stored or not. *)
Definition download_attempts (l : list event) : list event :=
  List.filter
    (fun ev => match ev with Downloaded _ _ _ => true | _ => false end) l.

(** The names [handleOutput] gives the two files of a page (with
    [pagesVisited] up to [JS.MAX_SAFE_INTEGER], where the script's
    [pagesVisited + 1] is exact). *)
Definition html_name (s : state) : string :=
  "page-" +:+ JS.padStart 4 "0" (JS.String_of (pagesVisited s + 1)) +:+ ".html".

Definition png_name (s : state) : string :=
  "page-" +:+ JS.padStart 4 "0" (JS.String_of (pagesVisited s + 1)) +:+ ".png".

(** The remote endpoint takes the payload on one of the two channels. *)
Definition remote_accepts (w : delivery_world) : Prop :=
  (exists status, fetch_status w = Some status /\ response_ok status = true)
  \/ (direct_post_fails w /\ gm_available w = true
      /\ exists status, gm_status w = Some status /\ response_ok status = true).

(** The fallback to downloads is reached: there is no endpoint, or both
    channels fail. *)
Definition falls_back (cfg : config) (w : delivery_world) : Prop :=
  postEndpoint cfg = "" \/ (direct_post_fails w /\ privileged_post_fails w).



(** *** The frontier and the session *)

Section FrontierDefs.

Context `{Browser}.
Variable cfg : config.

(** What [enqueueLinks] may append for a page at depth [d], seen from
    the state [s] it starts in. *)
Definition appended_ok (d : Z) (s : state) (added : list entry) : Prop :=
  Forall (fun e => depth e = d + 1
                   /\ allowed (allowlist s) (url e) = true
                   /\ (url e ∉ visited s)
                   /\ (url e ∉ (url <$> queue s))) added
  /\ NoDup (url <$> added)
  /\ (added <> [] ->
      Z.of_nat (length (queue s ++ added)) + pagesVisited s <= maxPages cfg).

(** The link [u] is in the queue of [s], or the budget leaves no room
    for it. *)
Definition queued_or_full (u : string) (s : state) : Prop :=
  u ∈ (url <$> queue s)
  \/ maxPages cfg <= Z.of_nat (length (queue s)) + pagesVisited s.

(** The document holds a link [enqueueLinks] takes from the page at
    [base]: one that resolves to a URL the allowlist accepts and that
    is not visited. *)
Definition has_new_link (doc : document) (base : string) (s : state) : Prop :=
  exists attr resolved,
    attr ∈ doc /\ attr <> ""
    /\ JS.startsWith "javascript:" attr = false
    /\ JS.startsWith "mailto:" attr = false
    /\ new_URL attr base = Normal resolved
    /\ (isAllowedUrl (normalizeUrl (href resolved)) s).1.1 = Normal true
    /\ (normalizeUrl (href resolved) ∉ visited s).

(** A bound on the iterations the loop of [runQueue] still makes from
    [s]: every iteration takes an entry from the queue, and the queue
    grows only when a page is counted, by no more than the budget that
    is left. *)
Definition iterations_left (s : state) : Z :=
  let n := Z.max 0 (maxPages cfg - pagesVisited s) in
  Z.of_nat (length (queue s)) + n * (n + 1).

(** The entry [startCrawl] queues for the page the script runs on. *)
Definition start_entry : entry :=
  {| url := normalizeUrl location_href; depth := 0 |}.

(** The allowlist [startCrawl] builds. *)
Definition rebuilt_allowlist (added : list string) : list string :=
  JS.Set_of
    (List.filter JS.truthy (domainAllowlist cfg ++ added ++ [location_host])).

(** The state [startCrawl] builds before it captures the current page:
    nothing of the state before is left but the entries the user added. *)
Definition fresh_start (now : Z) (added : list string) : state := {|
  isRunning := true;
  isPaused := false;
  isStopping := false;
  startTime := Some now;
  pagesVisited := 0;
  queue := [start_entry];
  visited := ∅;
  allowlist := rebuilt_allowlist added;
  dynamicAllowlist := added;
|}.

(** What [startCrawl] does once the state is reset. *)
Definition after_reset (w : start_world) : M unit :=
  crawlCurrentPage cfg w ;;;
  s <- get ;;
  if negb (isStopping s)
  then try_catch (runQueue cfg (start_loop w))
         (fun err => log "Crawl terminated with error")
  else ret tt.

(** Every queued entry is the start page or a URL the allowlist
    accepts. *)
Definition vetted (s : state) : Prop :=
  Forall (fun e => e = start_entry \/ allowed (allowlist s) (url e) = true)
    (queue s).

(** The queue holds no URL twice, and its entries have a depth from 0
    to the configured maximum (the start page is queued at depth 0
    whatever the maximum); with [strict] set, every entry is vetted as
    well. *)
Definition queue_ok (strict : bool) (s : state) : Prop :=
  NoDup (url <$> queue s)
  /\ Forall (fun e => 0 <= depth e <= Z.max 0 (maxDepth cfg)) (queue s)
  /\ (strict = true -> vetted s).

(** Every state a run passes through has its queue in order, the loop
    is never scheduled again, and the current page is never found
    processed already. *)
Definition tidy (strict : bool) (ev : event) : Prop :=
  match ev with
  | Stepped _ _ post => queue_ok strict post
  | Rescheduled => False
  | Logged msg => msg <> "Current page already processed"
  | _ => True
  end.

(** The queue is in order and the two allowlists are [L] and [D]. *)
Definition framed (strict : bool) (L D : list string) (s : state) : Prop :=
  queue_ok strict s /\ allowlist s = L /\ dynamicAllowlist s = D.

(** A computation that keeps the queue in order and leaves the
    allowlists alone. *)
Definition orderly (strict : bool) {A} (m : M A) : Prop :=
  forall L D s, framed strict L D s ->
    wp (tidy strict) m (fun _ s' => framed strict L D s') s.

(** The test of the loop of [runQueue] fails, or its first statement
    breaks out of it. *)
Definition loop_is_left (s : state) : Prop :=
  (0 <? Z.of_nat (length (queue s))) && (pagesVisited s <? maxPages cfg) = false
  \/ isPaused s || isStopping s = true.

End FrontierDefs.

(** The user removes no entry from the allowlist. *)
Definition no_removal (acts : list action) : Prop :=
  Forall (fun a => match a with AllowRemove _ => False | _ => True end) acts.

(** *** One worker *)

(** The clicks a world delivers while a crawl function waits. *)
Definition clicks_of_iteration (w : iteration_world) : list click :=
  visit_clicks w ++ delay_clicks w.

Definition clicks_of_loop (script : list iteration_world) : list click :=
  concat (clicks_of_iteration <$> script).

Definition clicks_of_start (w : start_world) : list click :=
  capture_clicks w ++ start_delay_clicks w ++ clicks_of_loop (start_loop w).

Definition is_start (c : click) : bool :=
  match c with ClickedStart => true | _ => false end.

Definition is_pause (c : click) : bool :=
  match c with ClickedPause => true | _ => false end.

(** Clicks that start no second worker next to the function that waits:
    no Start, and at most one Pause. A crawl function begins its waits
    with the session not paused and only a Pause click pauses it, so the
    one Pause click finds the session not paused (or stopped), where
    [interrupt] is what [togglePause] does; a second Pause click would
    resume the session and call [runQueue] with the first loop still
    waiting, and a Start click after a Stop click would start a second
    crawl. *)
Definition one_at_a_time (cs : list click) : Prop :=
  List.filter is_start cs = []
  /\ (length (List.filter is_pause cs) <= 1)%nat.

(** A script long enough for the loop of [runQueue] to be left before
    it ends, whatever the state between two actions it starts in. *)
Definition long_enough (cfg : config) (script : list iteration_world) : Prop :=
  let n := Z.max 0 (maxPages cfg) in
  reach cfg + n * (n + 1) < Z.of_nat (length script).

(** An action during which one worker runs: the clicks in flight start
    no second one, and the loop is followed until it is left, so that
    the next action finds no loop waiting. *)
Definition one_worker (cfg : config) (a : action) : Prop :=
  match a with
  | Start w =>
      one_at_a_time (clicks_of_start w) /\ long_enough cfg (start_loop w)
  | TogglePause script =>
      one_at_a_time (clicks_of_loop script) /\ long_enough cfg script
  | _ => True
  end.

(** *** Quiescence *)

(** The change of the number of requests in flight that a list of
    signals reports. *)
Definition net_change (sgs : list Tracker.signal) : Z :=
  fold_right
    (fun sg acc =>
       match sg with
       | Tracker.Issued _ => 1
       | Tracker.Settled _ => -1
       | Tracker.Mutated _ => 0
       end + acc) 0 sgs.

(** No request completes in [sgs]. *)
Definition none_settles (sgs : list Tracker.signal) : Prop :=
  Forall (fun sg => match sg with Tracker.Settled _ => False | _ => True end) sgs.

(** *** Further concrete runs *)

Module Cases.

(** An endpoint that takes the direct POST. *)
Definition accepting_endpoint : delivery_world := {|
  fetch_status := Some 200;
  gm_available := true;
  gm_status := Some 200;
  gm_download_available := true;
  download_ok := fun _ => true;
|}.

(** No endpoint answers, and [GM_download] reports an error for every
    file. *)
Definition broken_storage : delivery_world := {|
  fetch_status := None;
  gm_available := false;
  gm_status := None;
  gm_download_available := true;
  download_ok := fun _ => false;
|}.

(** A page that is captured and cannot be delivered. *)
Definition undelivered_page : iteration_world := {|
  visit_clicks := [];
  visit_result := Some (Sample.a_payload "https://a.test/a", []);
  delivery := broken_storage;
  delay_clicks := [];
|}.

(** Start on a page whose capture fails. *)
Definition capture_fails : start_world := {|
  start_now := 0;
  capture_clicks := [];
  capture := Throw "html2canvas failed";
  start_delivery := Sample.failing_endpoint;
  start_document := [];
  start_delay_clicks := [];
  start_loop := [Sample.page_with Runs.page []];
|}.

(** Stop is clicked while the page [/a], which links to [/b], is in
    flight. *)
Definition stopped_in_flight : iteration_world := {|
  visit_clicks := [ClickedStop];
  visit_result := Some (Sample.a_payload "https://a.test/a", ["/b"]);
  delivery := Sample.failing_endpoint;
  delay_clicks := [];
|}.

(** A session that has captured its start page and has [/a] queued. *)
Definition crawling : state :=
  set_isRunning true
    (set_queue [{| url := "https://a.test/a"; depth := 1 |}]
       (set_visited {[Runs.page]}
          (set_pagesVisited 1 (initial_state (CONFIG "a.test"))))).

(** An idle session that counted pages before. *)
Definition idle_after_crawl : state :=
  set_pagesVisited 7 (initial_state (CONFIG "a.test")).

(** A budget of one page. *)
Definition one_page : config := Sample.config_with 2 1 "".

(** The state after a start on a page linking to [/a], right after the
    link is queued. *)
Definition with_link_queued : state :=
  default (initial_state (CONFIG "a.test"))
    (last (states_of
             (@session (Sample.browser Runs.page) (CONFIG "a.test")
                [Start (Sample.start_on Runs.page ["/a"] [])]).2)).

(** A tracker with one request in flight, and a page that reports
    nothing. *)
Definition one_request : Tracker.tracker :=
  Tracker.markNetworkActivity 1 0 (Tracker.createActivityTracker 0 0).

Definition silent : Tracker.polls := fun _ => ([], 0).

(** Both channels answer 500 and [GM_download] reports an error for
    every file. *)
Definition nothing_works : delivery_world := {|
  fetch_status := Some 500;
  gm_available := true;
  gm_status := Some 500;
  gm_download_available := true;
  download_ok := fun _ => false;
|}.

(** A budget of three pages. *)
Definition three_pages : config := Sample.config_with 2 3 "".

(** Pause is clicked while the page [/a], which links to [/c], is in
    flight. *)
Definition paused_in_flight : iteration_world := {|
  visit_clicks := [ClickedPause];
  visit_result := Some (Sample.a_payload "https://a.test/a", ["/c"]);
  delivery := Sample.failing_endpoint;
  delay_clicks := [];
|}.

(** The loop takes the seed, then [/a] with a Pause in flight; the
    worlds after it are not reached. *)
Definition paused_loop : list iteration_world :=
  Sample.page_with Runs.page [] :: paused_in_flight
  :: replicate 15 (Sample.page_with "https://a.test/b" []).

(** The loop takes [/c], with a Stop in flight. *)
Definition stopped_loop : list iteration_world :=
  {| visit_clicks := [ClickedStop];
     visit_result := Some (Sample.a_payload "https://a.test/c", ["/d"]);
     delivery := Sample.failing_endpoint;
     delay_clicks := [] |}
  :: replicate 16 (Sample.page_with "https://a.test/d" []).

(** Start on a page linking to [/a]; Pause while [/a] is in flight;
    Resume; Stop while [/c] is in flight. *)
Definition paused_resumed_stopped : list action :=
  [Start (Sample.start_on Runs.page ["/a"] paused_loop);
   TogglePause stopped_loop].

(** A session that has captured its start page and has [/a] and [/b]
    queued behind the seed. *)
Definition two_queued : state :=
  set_isRunning true
    (set_allowlist ["a.test"]
       (set_queue [{| url := Runs.page; depth := 0 |};
                   {| url := "https://a.test/a"; depth := 1 |};
                   {| url := "https://a.test/b"; depth := 1 |}]
          (set_visited {[Runs.page]}
             (set_pagesVisited 1 (initial_state three_pages))))).

End Cases.

(** *** Rules *)

Section Rules.

Context {A B : Type} (G : event -> Prop).

Lemma wp_ret (a : A) Q s : Q (Normal a) s -> wp G (ret a) Q s.
Proof. intros HQ. split; [exact HQ | constructor]. Qed.

Lemma wp_throw err (Q : completion A -> state -> Prop) s :
  Q (Throw err) s -> wp G (throw err) Q s.
Proof. intros HQ. split; [exact HQ | constructor]. Qed.

Lemma wp_get (Q : completion state -> state -> Prop) s :
  Q (Normal s) s -> wp G get Q s.
Proof. intros HQ. split; [exact HQ | constructor]. Qed.

Lemma wp_emit ev (Q : completion unit -> state -> Prop) s :
  G ev -> Q (Normal tt) s -> wp G (emit ev) Q s.
Proof. intros Hev HQ. split; [exact HQ | repeat constructor; exact Hev]. Qed.

Lemma wp_mutate m f (Q : completion unit -> state -> Prop) s :
  G (Stepped s m (f s)) -> Q (Normal tt) (f s) -> wp G (mutate m f) Q s.
Proof. intros Hev HQ. split; [exact HQ | repeat constructor; exact Hev]. Qed.

Lemma wp_lift (c : completion A) (Q : completion A -> state -> Prop) s :
  Q c s -> wp G (lift c) Q s.
Proof. destruct c; intros HQ; (split; [exact HQ | constructor]). Qed.

Lemma wp_bind (m : M A) (f : A -> M B) Q s :
  wp G m (fun r s' => match r with
                      | Normal a => wp G (f a) Q s'
                      | Throw err => Q (Throw err) s'
                      end) s ->
  wp G (bind m f) Q s.
Proof.
  unfold wp, bind. destruct (m s) as [[r s1] l1]; simpl.
  intros [Hk Hl]. destruct r as [a | err]; simpl.
  - destruct (f a s1) as [[r2 s2] l2]; simpl in *.
    destruct Hk as [HQ Hl2]. split; [exact HQ |].
    apply Forall_app; split; assumption.
  - split; assumption.
Qed.

Lemma wp_try_catch (m : M A) (h : string -> M A) Q s :
  wp G m (fun r s' => match r with
                      | Normal a => Q (Normal a) s'
                      | Throw err => wp G (h err) Q s'
                      end) s ->
  wp G (try_catch m h) Q s.
Proof.
  unfold wp, try_catch. destruct (m s) as [[r s1] l1]; simpl.
  intros [Hk Hl]. destruct r as [a | err]; simpl.
  - split; assumption.
  - destruct (h err s1) as [[r2 s2] l2]; simpl in *.
    destruct Hk as [HQ Hl2]. split; [exact HQ |].
    apply Forall_app; split; assumption.
Qed.

Lemma wp_mono (m : M A) (Q Q' : completion A -> state -> Prop) s :
  wp G m Q s -> (forall r s', Q r s' -> Q' r s') -> wp G m Q' s.
Proof. intros [HQ Hl] Himp. split; [apply Himp; exact HQ | exact Hl]. Qed.

End Rules.

Section LoopRules.

Context {A : Type} (G : event -> Prop).

(** A loop over a list keeps what each of its runs keeps. *)
Lemma wp_forEach (f : A -> M unit) (l : list A) (I : state -> Prop) s :
  (forall x s', I s' -> wp G (f x) (fun _ s'' => I s'') s') ->
  I s -> wp G (forEach f l) (fun _ s' => I s') s.
Proof.
  intros Hf. revert s. induction l as [| x rest IH]; intros s HI; simpl.
  - apply wp_ret. exact HI.
  - apply wp_bind. eapply wp_mono; [apply Hf; exact HI |].
    intros [[] | err] s' HI'; [apply IH; exact HI' | exact HI'].
Qed.

Lemma wp_some (f : A -> M bool) (l : list A) (I : state -> Prop) s :
  (forall x s', I s' -> wp G (f x) (fun _ s'' => I s'') s') ->
  I s -> wp G (some f l) (fun _ s' => I s') s.
Proof.
  intros Hf. revert s. induction l as [| x rest IH]; intros s HI; simpl.
  - apply wp_ret. exact HI.
  - apply wp_bind. eapply wp_mono; [apply Hf; exact HI |].
    intros [[|] | err] s' HI';
      [apply wp_ret; exact HI' | apply IH; exact HI' | exact HI'].
Qed.

End LoopRules.

(** One step of symbolic execution of a [wp] goal. *)
Ltac wp_step :=
  lazymatch goal with
  | |- wp _ (bind _ _) _ _ => apply wp_bind
  | |- wp _ (try_catch _ _) _ _ => apply wp_try_catch
  | |- wp _ (ret _) _ _ => apply wp_ret
  | |- wp _ (throw _) _ _ => apply wp_throw
  | |- wp _ get _ _ => apply wp_get
  | |- wp _ (lift _) _ _ => apply wp_lift
  | |- wp _ (log _) _ _ => apply wp_emit; [exact I |]
  | |- wp _ (emit _) _ _ => apply wp_emit
  | |- wp _ (mutate _ _) _ _ => apply wp_mutate
  | |- wp _ updateStatus _ _ => apply wp_ret
  | |- wp _ (if ?b then _ else _) _ _ => destruct b eqn:?
  end.

(** Unfolding the monad on a run that no longer branches. *)
Ltac run_monad :=
  unfold try_catch, bind, lift, ret, throw, log, emit, get, mutate; simpl.

(** *** The frontier operations are safe *)

Section SafetyProofs.
Context `{Browser}.
Variable cfg : config.

Lemma kept_safe V n B pre m post :
  fits cfg V n B -> kept V n B post ->
  match m with
  | QueuePush e => (url e ∉ visited pre) /\ (url e ∉ (url <$> queue pre))
  | VisitedAdd u => u ∉ visited pre
  | _ => True
  end ->
  safe cfg (Stepped pre m post).
Proof.
  intros (Hc & _ & Hroom) (HV & _ & Hlen) Hm.
  split; [rewrite HV; exact Hc |]. split; [rewrite HV; lia | exact Hm].
Qed.

(** Running a quiet computation inside a larger one. *)
Lemma wp_quiet {A} (m : M A) V n B (Q : completion A -> state -> Prop) s :
  quiet cfg m -> fits cfg V n B -> kept V n B s ->
  (forall r s', kept V n B s' -> Q r s') ->
  wp (safe cfg) m Q s.
Proof.
  intros Hq Hc Hk HQ. eapply wp_mono; [apply Hq; eassumption |].
  simpl. intros r s' Hk'. apply HQ. exact Hk'.
Qed.

Lemma quiet_forEach {A} (f : A -> M unit) l :
  (forall x, quiet cfg (f x)) -> quiet cfg (forEach f l).
Proof.
  intros Hf V n B s Hc Hk. apply wp_forEach; [| exact Hk].
  intros x s' Hk'. apply Hf; assumption.
Qed.

Lemma quiet_some {A} (f : A -> M bool) l :
  (forall x, quiet cfg (f x)) -> quiet cfg (some f l).
Proof.
  intros Hf V n B s Hc Hk. apply wp_some; [| exact Hk].
  intros x s' Hk'. apply Hf; assumption.
Qed.

Ltac st_simpl :=
  cbn [set_isRunning set_isPaused set_isStopping set_startTime
       set_pagesVisited set_queue set_visited set_allowlist
       set_dynamicAllowlist
       isRunning isPaused isStopping startTime pagesVisited queue visited
       allowlist dynamicAllowlist length].

Ltac kept_close :=
  repeat split; st_simpl; first [assumption | lia].

Ltac quiet_close V n B Hc :=
  lazymatch goal with
  | |- safe _ (Stepped _ _ _) =>
      apply kept_safe with V n B; [exact Hc | kept_close | try exact I]
  | |- kept _ _ _ _ => kept_close
  | |- True => exact I
  | _ => idtac
  end.

Lemma stopCrawl_quiet : quiet cfg stopCrawl.
Proof.
  intros V n B s Hc (HV & Hn & Hroom). unfold stopCrawl.
  repeat wp_step; quiet_close V n B Hc.
Qed.

Lemma interrupt_quiet c : quiet cfg (interrupt c).
Proof.
  intros V n B s Hc Hk. destruct c; simpl.
  - destruct Hk as (HV & Hn & Hroom). repeat wp_step; quiet_close V n B Hc.
  - destruct Hk as (HV & Hn & Hroom). repeat wp_step; quiet_close V n B Hc.
  - apply stopCrawl_quiet; assumption.
Qed.

Lemma allowlist_item_matches_quiet target item :
  quiet cfg (allowlist_item_matches target item).
Proof.
  intros V n B s Hc Hk. unfold allowlist_item_matches.
  repeat wp_step; try exact Hk.
  destruct (new_RegExp (JS.slice_1_m1 item)) as [re | err];
    repeat wp_step; exact Hk.
Qed.

Lemma isAllowedUrl_quiet u : quiet cfg (isAllowedUrl u).
Proof.
  intros V n B s Hc Hk. unfold isAllowedUrl.
  repeat wp_step.
  destruct (new_URL u location_href) as [target | err];
    repeat wp_step; try exact Hk.
  apply wp_quiet with V n B; [| exact Hc | exact Hk |].
  - apply quiet_some. intros x. apply allowlist_item_matches_quiet.
  - intros [b | err] s' Hk'; repeat wp_step; exact Hk'.
Qed.

Lemma enqueue_anchor_quiet baseUrl currentDepth attr :
  quiet cfg (enqueue_anchor cfg baseUrl currentDepth attr).
Proof.
  intros V n B s Hc Hk. unfold enqueue_anchor.
  repeat wp_step; try exact Hk.
  destruct (new_URL attr baseUrl) as [resolved | err];
    repeat wp_step; try exact Hk.
  apply wp_quiet with V n B; [apply isAllowedUrl_quiet | exact Hc | exact Hk |].
  intros [allowed | err] s' Hk'; repeat wp_step; try exact Hk'.
  all: destruct Hk' as (HV & Hn & Hroom).
  all: assert (Hpost : kept V n B
            (set_queue
               (queue s' ++
                [{| url := normalizeUrl (href resolved);
                    depth := currentDepth + 1 |}]) s'))
    by (repeat split; st_simpl; try assumption;
        rewrite length_app; cbn [length];
        destruct (Z.geb_spec (Z.of_nat (length (queue s')) + pagesVisited s')
                    (maxPages cfg)); [discriminate |];
        destruct Hc as (_ & HB & _); lia).
  - apply kept_safe with V n B; [exact Hc | exact Hpost |].
    split.
    + apply bool_decide_eq_false in Heqb1. exact Heqb1.
    + intros Hin. apply list_elem_of_fmap in Hin as [e [Hu He]].
      apply not_true_iff_false in Heqb2. apply Heqb2.
      apply existsb_exists. exists e. split.
      * apply list_elem_of_In. exact He.
      * apply String.eqb_eq. symmetry. exact Hu.
  - exact Hpost.
Qed.

Lemma enqueueLinks_quiet doc baseUrl currentDepth :
  quiet cfg (enqueueLinks cfg doc baseUrl currentDepth).
Proof.
  intros V n B s Hc Hk. unfold enqueueLinks.
  repeat wp_step; try exact Hk.
  apply wp_quiet with V n B; [| exact Hc | exact Hk |].
  - apply quiet_forEach. intros x. apply enqueue_anchor_quiet.
  - intros [[] | err] s' Hk'; repeat wp_step; exact Hk'.
Qed.

Lemma gmPost_quiet w endpoint body : quiet cfg (gmPost w endpoint body).
Proof.
  intros V n B s Hc Hk. unfold gmPost.
  repeat wp_step; try exact Hk; try exact I.
  destruct (gm_status w) as [status |]; repeat wp_step; exact Hk.
Qed.

Lemma postPayload_quiet w p : quiet cfg (postPayload cfg w p).
Proof.
  intros V n B s Hc Hk. unfold postPayload.
  repeat wp_step; try exact Hk; try exact I.
  destruct (fetch_status w) as [status |]; repeat wp_step; try exact Hk;
    (apply wp_quiet with V n B; [apply gmPost_quiet | exact Hc | exact Hk |];
     intros [b | err] s' Hk'; repeat wp_step; exact Hk').
Qed.

Lemma gmDownload_quiet w content name : quiet cfg (gmDownload w content name).
Proof.
  intros V n B s Hc Hk. unfold gmDownload.
  repeat wp_step; try exact Hk; exact I.
Qed.

Lemma downloadPayload_quiet w p n1 n2 : quiet cfg (downloadPayload w p n1 n2).
Proof.
  intros V n B s Hc Hk. unfold downloadPayload.
  repeat wp_step.
  apply wp_quiet with V n B; [apply gmDownload_quiet | exact Hc | exact Hk |].
  intros [[] | err] s' Hk'; [| exact Hk'].
  apply gmDownload_quiet; assumption.
Qed.

Lemma handleOutput_quiet w p : quiet cfg (handleOutput cfg w p).
Proof.
  intros V n B s Hc Hk. unfold handleOutput.
  destruct p as [p |]; repeat wp_step; try exact Hk.
  - apply wp_quiet with V n B; [apply postPayload_quiet | exact Hc | exact Hk |].
    intros [b | err] s' Hk'; repeat wp_step; try exact Hk'.
    apply downloadPayload_quiet; assumption.
  - apply downloadPayload_quiet; assumption.
Qed.

Lemma allowlist_add_quiet value : quiet cfg (allowlist_add value).
Proof.
  intros V n B s Hc (HV & Hn & Hroom). unfold allowlist_add.
  repeat wp_step; quiet_close V n B Hc.
Qed.

Lemma allowlist_remove_quiet item : quiet cfg (allowlist_remove item).
Proof.
  intros V n B s Hc (HV & Hn & Hroom). unfold allowlist_remove.
  repeat wp_step; quiet_close V n B Hc.
Qed.


(** *** The functions that count pages *)

Lemma cap_ge_1 : 1 <= cap cfg.
Proof. unfold cap. lia. Qed.

Lemma cap_ge_maxPages : maxPages cfg <= cap cfg.
Proof. unfold cap. lia. Qed.

Lemma reach_cap : reach cfg = cap cfg + 1.
Proof. unfold reach, cap. lia. Qed.

Lemma kept_stable V n B s :
  kept V n B s -> n = Z.of_nat (size V) -> n <= cap cfg -> B <= reach cfg ->
  stable cfg s.
Proof.
  intros (HV & Hn & Hroom) Hsz Hle HB. unfold stable. rewrite HV, Hn.
  split; [assumption |]. split; [assumption | lia].
Qed.

Lemma stable_fits s :
  stable cfg s -> fits cfg (visited s) (pagesVisited s) (reach cfg).
Proof.
  intros (Hsz & Hle & Hroom). pose proof reach_cap. pose proof cap_ge_maxPages.
  unfold fits. lia.
Qed.

Lemma quiet_stable {A} (m : M A) s :
  quiet cfg m -> stable cfg s ->
  wp (safe cfg) m (fun _ s' => stable cfg s') s.
Proof.
  intros Hq Hst. pose proof Hst as (Hsz & Hle & Hroom).
  apply wp_quiet with (visited s) (pagesVisited s) (reach cfg);
    [exact Hq | apply stable_fits; exact Hst
    | split; [reflexivity | split; [reflexivity | exact Hroom]] |].
  intros r s' Hk.
  apply kept_stable with (visited s) (pagesVisited s) (reach cfg);
    [assumption | assumption | assumption | lia].
Qed.

Lemma size_add_fresh (u : string) (V : gset string) :
  u ∉ V -> Z.of_nat (size ({[u]} ∪ V)) = Z.of_nat (size V) + 1.
Proof.
  intros Hu. rewrite size_union by set_solver. rewrite size_singleton. lia.
Qed.

Lemma crawlCurrentPage_stable w s :
  visited s = ∅ -> pagesVisited s = 0 -> Z.of_nat (length (queue s)) <= 1 ->
  wp (safe cfg) (crawlCurrentPage cfg w) (fun _ s' => stable cfg s') s.
Proof.
  intros HV Hn Hlen.
  pose proof cap_ge_1 as Hcap. pose proof reach_cap as Hreach.
  pose proof cap_ge_maxPages as HcapM.
  assert (Hsz0 : Z.of_nat (size (∅ : gset string)) = 0)
    by (rewrite size_empty; reflexivity).
  assert (Hk0 : kept ∅ 0 (cap cfg) s)
    by (split; [assumption | split; [assumption | lia]]).
  assert (Hf0 : fits cfg ∅ 0 (cap cfg)) by (unfold fits; lia).
  assert (Hst0 : forall s', kept ∅ 0 (cap cfg) s' -> stable cfg s').
  { intros s' Hk. apply kept_stable with ∅ 0 (cap cfg);
      [exact Hk | rewrite size_empty; reflexivity | lia | lia]. }
  unfold crawlCurrentPage. repeat wp_step; try (apply Hst0; exact Hk0).
  apply wp_quiet with ∅ 0 (cap cfg);
    [apply quiet_forEach; intros c; apply interrupt_quiet | exact Hf0 | exact Hk0 |].
  intros [[] | err] s1 Hk1; repeat wp_step; try (apply Hst0; exact Hk1).
  destruct (capture w) as [p | err]; repeat wp_step; try (apply Hst0; exact Hk1).
  apply wp_quiet with ∅ 0 (cap cfg);
    [apply handleOutput_quiet | exact Hf0 | exact Hk1 |].
  intros [[] | err] s2 Hk2; repeat wp_step; try (apply Hst0; exact Hk2).
  all: destruct Hk2 as (HV2 & Hn2 & Hroom2).
  all: set (V1 := {[normalizeUrl location_href]} ∪ visited s2).
  all: assert (Hsz1 : Z.of_nat (size V1) = 1)
    by (unfold V1; rewrite HV2, size_add_fresh by apply not_elem_of_empty;
        rewrite size_empty; lia).
  - split; st_simpl; [fold V1; lia |].
    split; [fold V1; lia | rewrite HV2; apply not_elem_of_empty].
  - split; st_simpl; [fold V1; lia |]. split; [fold V1; lia | exact I].
  - assert (Hf1 : fits cfg V1 1 (reach cfg)) by (unfold fits; lia).
    assert (Hst1 : forall s', kept V1 1 (reach cfg) s' -> stable cfg s').
    { intros s' Hk. apply kept_stable with V1 1 (reach cfg);
        [exact Hk | lia | lia | lia]. }
    apply wp_quiet with V1 1 (reach cfg);
      [apply enqueueLinks_quiet | exact Hf1
      | split; st_simpl; [reflexivity | split; [lia | lia]] |].
    intros [[] | err] s3 Hk3; repeat wp_step; try (apply Hst1; exact Hk3).
    apply wp_quiet with V1 1 (reach cfg);
      [apply quiet_forEach; intros c; apply interrupt_quiet
      | exact Hf1 | exact Hk3 |].
    intros [[] | err] s4 Hk4; repeat wp_step; apply Hst1; exact Hk4.
Qed.

Lemma runQueue_visit_stable w e s :
  pagesVisited s = Z.of_nat (size (visited s)) ->
  pagesVisited s < maxPages cfg ->
  Z.of_nat (length (queue s)) + pagesVisited s <= cap cfg ->
  url e ∉ visited s -> depth e <= maxDepth cfg ->
  wp (safe cfg) (runQueue_visit cfg w e) (fun _ s' => stable cfg s') s.
Proof.
  intros Hsz Hlt Hroom Hfresh Hdepth.
  pose proof cap_ge_1 as Hcap. pose proof reach_cap as Hreach.
  pose proof cap_ge_maxPages as HcapM.
  set (V := visited s) in *. set (n := pagesVisited s) in *.
  assert (Hf : fits cfg V n (cap cfg)) by (unfold fits; lia).
  assert (Hst : forall s', kept V n (cap cfg) s' -> stable cfg s').
  { intros s' Hk. apply kept_stable with V n (cap cfg);
      [exact Hk | exact Hsz | lia | lia]. }
  assert (Hk : kept V n (cap cfg) s)
    by (split; [reflexivity | split; [reflexivity | exact Hroom]]).
  unfold runQueue_visit. repeat wp_step; [exact Hdepth |].
  apply wp_quiet with V n (cap cfg);
    [apply quiet_forEach; intros c; apply interrupt_quiet | exact Hf | exact Hk |].
  intros [[] | err] s1 Hk1; repeat wp_step; try (apply Hst; exact Hk1).
  destruct (visit_result w) as [[p doc] |]; repeat wp_step;
    try (apply Hst; exact Hk1).
  apply wp_quiet with V n (cap cfg);
    [apply handleOutput_quiet | exact Hf | exact Hk1 |].
  intros [[] | err] s2 Hk2; repeat wp_step; try (apply Hst; exact Hk2).
  apply wp_quiet with V n (cap cfg);
    [apply enqueueLinks_quiet | exact Hf | exact Hk2 |].
  intros [[] | err] s3 Hk3; repeat wp_step; try (apply Hst; exact Hk3).
  all: destruct Hk3 as (HV3 & Hn3 & Hroom3).
  all: assert (Hsz3 : Z.of_nat (size ({[url e]} ∪ visited s3)) = n + 1)
    by (rewrite HV3, size_add_fresh by exact Hfresh; lia).
  - split; st_simpl; [lia |]. split; [lia | rewrite HV3; exact Hfresh].
  - split; st_simpl; [lia |]. split; [lia | exact I].
  - unfold stable. st_simpl. lia.
Qed.

Lemma stable_safe s m s' :
  stable cfg s -> visited s' = visited s ->
  (length (queue s') <= length (queue s))%nat ->
  match m with
  | QueuePush _ | VisitedAdd _ => False
  | _ => True
  end ->
  safe cfg (Stepped s m s').
Proof.
  intros (Hsz & Hle & Hroom) HV Hlen Hm.
  split; [rewrite HV; lia |]. split; [rewrite HV; lia |].
  destruct m; first [exact I | contradiction].
Qed.

Lemma stable_shift s e q :
  stable cfg s -> queue s = e :: q ->
  stable cfg (set_queue q s)
  /\ Z.of_nat (length q) + pagesVisited s <= cap cfg.
Proof.
  intros (Hsz & Hle & Hroom) Hq. pose proof reach_cap.
  rewrite Hq in Hroom. cbn [length] in Hroom.
  unfold stable. st_simpl. lia.
Qed.

Lemma runQueue_while_stable script s :
  stable cfg s ->
  wp (safe cfg) (runQueue_while cfg script) (fun _ s' => stable cfg s') s.
Proof.
  revert s. induction script as [| w rest IH]; intros s Hst; simpl.
  - apply wp_ret. exact Hst.
  - repeat wp_step; try exact Hst.
    destruct (queue s) as [| e q] eqn:Hq; repeat wp_step; try exact Hst.
    all: destruct (stable_shift s e q Hst Hq) as [Hst' Hroom'].
    + apply stable_safe; [exact Hst | reflexivity | | exact I].
      st_simpl. rewrite Hq. cbn [length]. lia.
    + apply IH. exact Hst'.
    + apply IH. exact Hst'.
    + apply negb_false_iff, andb_true_iff in Heqb as [_ Hlt].
      apply Z.ltb_lt in Hlt.
      apply bool_decide_eq_false in Heqb1.
      assert (Hd : depth e <= maxDepth cfg).
      { destruct (Z.gtb_spec (depth e) (maxDepth cfg)); [discriminate | lia]. }
      eapply wp_mono;
        [apply runQueue_visit_stable;
         [exact (proj1 Hst) | exact Hlt | exact Hroom' | exact Heqb1 | exact Hd] |].
      intros [fl | err] s1 Hst1; [| exact Hst1].
      destruct fl; repeat wp_step; try exact Hst1.
      * apply IH. exact Hst1.
      * eapply wp_mono;
          [apply quiet_stable;
           [apply quiet_forEach; intros c; apply interrupt_quiet | exact Hst1] |].
        intros [[] | err] s2 Hst2; [apply IH |]; exact Hst2.
Qed.

Lemma runQueue_stable script s :
  stable cfg s ->
  wp (safe cfg) (runQueue cfg script) (fun _ s' => stable cfg s') s.
Proof.
  intros Hst. unfold runQueue. repeat wp_step; try exact Hst.
  eapply wp_mono; [apply runQueue_while_stable; exact Hst |].
  intros [left | err] s1 Hst1; [| exact Hst1].
  repeat wp_step; try exact Hst1; try exact I.
  apply stable_safe; [exact Hst1 | reflexivity | reflexivity | exact I].
Qed.

Lemma togglePause_stable script s :
  stable cfg s ->
  wp (safe cfg) (togglePause cfg script) (fun _ s' => stable cfg s') s.
Proof.
  intros Hst. unfold togglePause. repeat wp_step; try exact Hst;
    try (apply stable_safe; [exact Hst | reflexivity | reflexivity | exact I]).
  eapply wp_mono; [apply runQueue_stable; exact Hst |].
  intros [[] | err] s1 Hst1; repeat wp_step; exact Hst1.
Qed.

Lemma startCrawl_stable w s :
  stable cfg s ->
  wp (safe cfg) (startCrawl cfg w) (fun _ s' => stable cfg s') s.
Proof.
  intros Hst. pose proof Hst as (Hsz & Hle & Hroom).
  pose proof cap_ge_1 as Hcap. pose proof reach_cap as Hreach.
  unfold startCrawl. repeat wp_step;
    lazymatch goal with
    | |- stable _ _ => exact Hst
    | |- safe _ (Stepped _ (QueuePush _) _) =>
        split; st_simpl;
        [rewrite size_empty; lia
        | split;
          [rewrite size_empty; cbn [app length]; lia
          | split; [apply not_elem_of_empty | apply not_elem_of_nil]]]
    | |- safe _ (Stepped _ _ _) =>
        split; st_simpl;
        [rewrite ?size_empty; lia | split; [rewrite ?size_empty; lia | exact I]]
    | _ => idtac
    end.
  eapply wp_mono;
    [apply crawlCurrentPage_stable;
     [reflexivity | reflexivity | st_simpl; cbn [app length]; lia] |].
  intros [[] | err] s1 Hst1; [| exact Hst1].
  repeat wp_step;
    lazymatch goal with
    | |- stable _ _ => exact Hst1
    | _ => idtac
    end.
  eapply wp_mono; [apply runQueue_stable; exact Hst1 |].
  intros [[] | err] s2 Hst2; repeat wp_step; exact Hst2.
Qed.

Lemma perform_stable a s :
  stable cfg s ->
  wp (safe cfg) (perform cfg a) (fun _ s' => stable cfg s') s.
Proof.
  intros Hst. destruct a; simpl.
  - apply startCrawl_stable. exact Hst.
  - apply togglePause_stable. exact Hst.
  - apply quiet_stable; [apply stopCrawl_quiet | exact Hst].
  - apply quiet_stable; [apply allowlist_add_quiet | exact Hst].
  - apply quiet_stable; [apply allowlist_remove_quiet | exact Hst].
Qed.

Lemma initial_stable : stable cfg (initial_state cfg).
Proof.
  unfold stable, initial_state. cbn [pagesVisited visited queue length].
  rewrite size_empty. pose proof cap_ge_1. pose proof reach_cap. lia.
Qed.

(** Every effect of every session is safe. *)
Lemma session_safe acts : Forall (safe cfg) (session cfg acts).2.
Proof.
  unfold session.
  apply (wp_forEach (safe cfg) (perform cfg) acts (stable cfg)).
  - intros a s Hst. apply perform_stable. exact Hst.
  - apply initial_stable.
Qed.

End SafetyProofs.

(** *** Every push is fresh, from any state *)

Section FreshProofs.

Context `{Browser}.
Variable cfg : config.

Lemma wp_harmless {A} (m : M A) (Q : completion A -> state -> Prop) s :
  harmless m -> (forall r s', Q r s') -> wp pushes_fresh m Q s.
Proof.
  intros Hm HQ. eapply wp_mono; [apply Hm |]. intros r s' _. apply HQ.
Qed.

Lemma harmless_forEach {A} (f : A -> M unit) l :
  (forall x, harmless (f x)) -> harmless (forEach f l).
Proof.
  intros Hf s. apply (wp_forEach pushes_fresh f l (fun _ => True)); [| exact I].
  intros x s' _. apply Hf.
Qed.

Lemma harmless_some {A} (f : A -> M bool) l :
  (forall x, harmless (f x)) -> harmless (some f l).
Proof.
  intros Hf s. apply (wp_some pushes_fresh f l (fun _ => True)); [| exact I].
  intros x s' _. apply Hf.
Qed.

Lemma stopCrawl_harmless : harmless stopCrawl.
Proof. intros s. unfold stopCrawl. repeat wp_step; exact I. Qed.

Lemma interrupt_harmless c : harmless (interrupt c).
Proof.
  intros s. destruct c; simpl; [| | apply stopCrawl_harmless];
    repeat wp_step; exact I.
Qed.

Lemma allowlist_item_matches_harmless target item :
  harmless (allowlist_item_matches target item).
Proof.
  intros s. unfold allowlist_item_matches. repeat wp_step; try exact I.
  destruct (new_RegExp (JS.slice_1_m1 item)); repeat wp_step; exact I.
Qed.

Lemma isAllowedUrl_harmless u : harmless (isAllowedUrl u).
Proof.
  intros s. unfold isAllowedUrl. repeat wp_step.
  destruct (new_URL u location_href) as [target | err];
    repeat wp_step; try exact I.
  apply wp_harmless; [| intros [b | err] s'; repeat wp_step; exact I].
  apply harmless_some. intros x. apply allowlist_item_matches_harmless.
Qed.

Lemma enqueue_anchor_harmless baseUrl d attr :
  harmless (enqueue_anchor cfg baseUrl d attr).
Proof.
  intros s. unfold enqueue_anchor. repeat wp_step; try exact I.
  destruct (new_URL attr baseUrl) as [resolved | err];
    repeat wp_step; try exact I.
  apply wp_harmless; [apply isAllowedUrl_harmless |].
  intros [ok | err] s'; repeat wp_step; try exact I.
  (* the push: the tests above it read the state it changes *)
  split.
  - match goal with
    | Hv : bool_decide (_ ∈ visited s') = false |- _ =>
        apply bool_decide_eq_false in Hv; exact Hv
    end.
  - cbn [url]. intros Hin. apply list_elem_of_fmap in Hin as [e [Hu He]].
    match goal with
    | Hex : existsb _ (queue s') = false |- _ =>
        apply not_true_iff_false in Hex; apply Hex
    end.
    apply existsb_exists. exists e. split.
    + apply list_elem_of_In. exact He.
    + apply String.eqb_eq. symmetry. exact Hu.
Qed.

Lemma enqueueLinks_harmless doc baseUrl d :
  harmless (enqueueLinks cfg doc baseUrl d).
Proof.
  intros s. unfold enqueueLinks. repeat wp_step; try exact I.
  apply wp_harmless; [| intros [[] | err] s'; repeat wp_step; exact I].
  apply harmless_forEach. intros x. apply enqueue_anchor_harmless.
Qed.

Lemma gmPost_harmless w endpoint body : harmless (gmPost w endpoint body).
Proof.
  intros s. unfold gmPost. repeat wp_step; try exact I.
  destruct (gm_status w) as [status |]; repeat wp_step; exact I.
Qed.

Lemma postPayload_harmless w p : harmless (postPayload cfg w p).
Proof.
  intros s. unfold postPayload. repeat wp_step; try exact I.
  destruct (fetch_status w) as [status |]; repeat wp_step; try exact I;
    (apply wp_harmless; [apply gmPost_harmless |];
     intros [b | err] s'; repeat wp_step; exact I).
Qed.

Lemma gmDownload_harmless w content name : harmless (gmDownload w content name).
Proof. intros s. unfold gmDownload. repeat wp_step; exact I. Qed.

Lemma downloadPayload_harmless w p n1 n2 : harmless (downloadPayload w p n1 n2).
Proof.
  intros s. unfold downloadPayload. repeat wp_step.
  apply wp_harmless; [apply gmDownload_harmless |].
  intros [[] | err] s'; [| exact I]. apply gmDownload_harmless.
Qed.

Lemma handleOutput_harmless w p : harmless (handleOutput cfg w p).
Proof.
  intros s. unfold handleOutput.
  destruct p as [p |]; repeat wp_step; try exact I.
  - apply wp_harmless; [apply postPayload_harmless |].
    intros [b | err] s'; repeat wp_step; try exact I.
    apply downloadPayload_harmless.
  - apply downloadPayload_harmless.
Qed.

Lemma crawlCurrentPage_harmless w : harmless (crawlCurrentPage cfg w).
Proof.
  intros s. unfold crawlCurrentPage. repeat wp_step; try exact I.
  apply wp_harmless;
    [apply harmless_forEach; intros c; apply interrupt_harmless |].
  intros [[] | err] s1; repeat wp_step; try exact I.
  destruct (capture w) as [p | err]; repeat wp_step; try exact I.
  apply wp_harmless; [apply handleOutput_harmless |].
  intros [[] | err] s2; repeat wp_step; try exact I.
  apply wp_harmless; [apply enqueueLinks_harmless |].
  intros [[] | err] s3; repeat wp_step; try exact I.
  apply wp_harmless;
    [apply harmless_forEach; intros c; apply interrupt_harmless |].
  intros [[] | err] s4; repeat wp_step; exact I.
Qed.

Lemma runQueue_visit_harmless w e : harmless (runQueue_visit cfg w e).
Proof.
  intros s. unfold runQueue_visit. repeat wp_step; try exact I.
  apply wp_harmless;
    [apply harmless_forEach; intros c; apply interrupt_harmless |].
  intros [[] | err] s1; repeat wp_step; try exact I.
  destruct (visit_result w) as [[p doc] |]; repeat wp_step; try exact I.
  apply wp_harmless; [apply handleOutput_harmless |].
  intros [[] | err] s2; repeat wp_step; try exact I.
  apply wp_harmless; [apply enqueueLinks_harmless |].
  intros [[] | err] s3; repeat wp_step; exact I.
Qed.

Lemma runQueue_while_harmless script : harmless (runQueue_while cfg script).
Proof.
  induction script as [| w rest IH]; intros s; simpl.
  - apply wp_ret. exact I.
  - repeat wp_step; try exact I.
    destruct (queue s) as [| e q]; repeat wp_step; try exact I;
      try apply IH.
    apply wp_harmless; [apply runQueue_visit_harmless |].
    intros [[|] | err] s1; repeat wp_step; try exact I; try apply IH.
    apply wp_harmless;
      [apply harmless_forEach; intros c; apply interrupt_harmless |].
    intros [[] | err] s2; [apply IH | exact I].
Qed.

Lemma runQueue_harmless script : harmless (runQueue cfg script).
Proof.
  intros s. unfold runQueue. repeat wp_step; try exact I.
  apply wp_harmless; [apply runQueue_while_harmless |].
  intros [left | err] s1; repeat wp_step; exact I.
Qed.

Lemma togglePause_harmless script : harmless (togglePause cfg script).
Proof.
  intros s. unfold togglePause. repeat wp_step; try exact I.
  apply wp_harmless; [apply runQueue_harmless |].
  intros [[] | err] s1; repeat wp_step; exact I.
Qed.

Lemma startCrawl_harmless w : harmless (startCrawl cfg w).
Proof.
  intros s. unfold startCrawl. repeat wp_step;
    lazymatch goal with
    | |- pushes_fresh (Stepped _ (QueuePush _) _) =>
        split; [apply not_elem_of_empty | apply not_elem_of_nil]
    | |- pushes_fresh _ => exact I
    | |- True => exact I
    | _ => idtac
    end.
  apply wp_harmless; [apply crawlCurrentPage_harmless |].
  intros [[] | err] s1; repeat wp_step; try exact I.
  apply wp_harmless; [apply runQueue_harmless |].
  intros [[] | err] s2; repeat wp_step; exact I.
Qed.

Lemma perform_harmless a : harmless (perform cfg a).
Proof.
  destruct a; simpl.
  - apply startCrawl_harmless.
  - apply togglePause_harmless.
  - apply stopCrawl_harmless.
  - intros s. unfold allowlist_add. repeat wp_step; exact I.
  - intros s. unfold allowlist_remove. repeat wp_step; exact I.
Qed.

End FreshProofs.


(** *** Strings and the allowlist matcher *)

Section Strings.

Lemma substring_0_0 s : String.substring 0 0 s = "".
Proof. destruct s; reflexivity. Qed.

Lemma substring_add a b c s :
  String.substring a (b + c) s
  = String.substring a b s +:+ String.substring (a + b) c s.
Proof.
  revert a b. induction s as [| ch s IH]; intros a b.
  - destruct a, b, c; reflexivity.
  - destruct a as [| a].
    + destruct b as [| b].
      * reflexivity.
      * change (String ch (String.substring 0 (b + c) s)
                = String ch (String.substring 0 b s +:+ String.substring b c s)).
        f_equal. apply (IH 0%nat b).
    + simpl. apply IH.
Qed.

Lemma substring_full s : String.substring 0 (String.length s) s = s.
Proof. induction s as [| ch s IH]; simpl; [reflexivity | f_equal; exact IH]. Qed.

Lemma substring_app_l s1 s2 :
  String.substring 0 (String.length s1) (s1 +:+ s2) = s1.
Proof.
  induction s1 as [| ch s1 IH]; simpl; [apply substring_0_0 | f_equal; exact IH].
Qed.

Lemma substring_app_r s1 s2 k :
  String.substring (String.length s1) k (s1 +:+ s2) = String.substring 0 k s2.
Proof. induction s1 as [| ch s1 IH]; simpl; [reflexivity | exact IH]. Qed.

Lemma string_length_app s1 s2 :
  String.length (s1 +:+ s2) = (String.length s1 + String.length s2)%nat.
Proof. induction s1 as [| ch s1 IH]; simpl; [reflexivity | f_equal; exact IH]. Qed.

Lemma string_app_assoc s1 s2 s3 : s1 +:+ s2 +:+ s3 = (s1 +:+ s2) +:+ s3.
Proof.
  induction s1 as [| ch s1 IH]; [reflexivity |].
  change (String ch (s1 +:+ s2 +:+ s3) = String ch ((s1 +:+ s2) +:+ s3)).
  f_equal. exact IH.
Qed.

Lemma prefix_slash s : String.prefix "/" ("/" +:+ s) = true.
Proof.
  change ("/" +:+ s) with (String "/"%char s). cbn [String.prefix].
  destruct (Ascii.ascii_dec "/" "/") as [_ | Hne]; [| congruence].
  destruct s; reflexivity.
Qed.

Lemma prefix_1 c s : String.prefix (String c "") s = true ->
  String.substring 0 1 s = String c "".
Proof.
  destruct s as [| ch s]; simpl; [discriminate |].
  destruct (Ascii.ascii_dec c ch) as [-> | Hne]; [| discriminate].
  intros _. rewrite substring_0_0. reflexivity.
Qed.

(** The test of [isAllowedUrl] for a pattern entry accepts exactly the
    entries wrapped in slashes around a non-empty body, and [slice(1, -1)]
    is that body. *)
Lemma is_regex_item_spec item :
  is_regex_item item = true <->
  exists body, slash_delimited item body.
Proof.
  unfold is_regex_item, JS.startsWith, JS.endsWith, slash_delimited. split.
  - intros Ht. apply andb_true_iff in Ht as [Ht Hlen].
    apply andb_true_iff in Ht as [Hpre Hsuf].
    apply andb_true_iff in Hsuf as [_ Hsuf].
    apply Nat.ltb_lt in Hlen. apply String.eqb_eq in Hsuf.
    simpl in Hsuf.
    exists (String.substring 1 (String.length item - 2) item).
    assert (Hitem : item = "/" +:+ String.substring 1 (String.length item - 2) item +:+ "/").
    { rewrite <- (substring_full item) at 1.
      replace (String.length item) with (1 + ((String.length item - 2) + 1))%nat at 1 by lia.
      rewrite (substring_add 0), (substring_add 1).
      rewrite (prefix_1 _ _ Hpre).
      replace (1 + (String.length item - 2))%nat with (String.length item - 1)%nat by lia.
      rewrite Hsuf. reflexivity. }
    split; [| exact Hitem].
    intros Hempty. rewrite Hempty in Hitem. rewrite Hitem in Hlen.
    simpl in Hlen. exact (Nat.lt_irrefl _ Hlen).
  - intros [body [Hne ->]].
    assert (Hlen : String.length ("/" +:+ body +:+ "/") = (String.length body + 2)%nat).
    { rewrite !string_length_app. simpl. lia. }
    rewrite Hlen.
    assert (0 < String.length body)%nat.
    { destruct body; [contradiction | simpl; lia]. }
    apply andb_true_iff; split; [apply andb_true_iff; split |].
    + apply prefix_slash.
    + apply andb_true_iff; split; [apply Nat.leb_le; simpl; lia |].
      apply String.eqb_eq.
      replace (String.length body + 2 - String.length "/")%nat
        with (String.length ("/" +:+ body)) by (rewrite string_length_app; simpl; lia).
      rewrite (string_app_assoc "/" body "/").
      rewrite substring_app_r. reflexivity.
    + apply Nat.ltb_lt. lia.
Qed.

Lemma slice_of_slash_delimited item body :
  slash_delimited item body -> JS.slice_1_m1 item = body.
Proof.
  intros [Hne ->]. unfold JS.slice_1_m1.
  rewrite !string_length_app.
  change ("/" +:+ body +:+ "/") with (String "/"%char (body +:+ "/")).
  cbn [String.substring String.length].
  replace (1 + (String.length body + 1) - 2)%nat with (String.length body) by lia.
  apply substring_app_l.
Qed.

End Strings.

Section MatcherProofs.
Context `{Browser}.

Lemma truthy_spec item : JS.truthy item = true <-> item <> "".
Proof.
  unfold JS.truthy. rewrite negb_true_iff. split.
  - intros Hf ->. rewrite String.eqb_refl in Hf. discriminate.
  - intros Hne. apply String.eqb_neq. exact Hne.
Qed.

Lemma entry_test_spec target item :
  entry_test target item = true <-> entry_matches (hostname target) item.
Proof.
  unfold entry_test. split.
  - intros Ht. apply andb_true_iff in Ht as [Hne Ht].
    apply truthy_spec in Hne.
    destruct (is_regex_item item) eqn:Hre.
    + apply is_regex_item_spec in Hre as [body Hbody].
      rewrite (slice_of_slash_delimited _ _ Hbody) in Ht.
      destruct (new_RegExp body) as [re | err] eqn:Hnew; [| discriminate].
      exact (pattern_matches _ _ body re Hbody Hnew Ht).
    + apply literal_matches.
      * exact Hne.
      * intros body Hbody.
        assert (Htrue : is_regex_item item = true)
          by (apply is_regex_item_spec; exists body; exact Hbody).
        congruence.
      * apply String.eqb_eq. exact Ht.
  - intros [body re Hbody Hnew Htest | Hne Hlit Heq].
    + assert (Hre : is_regex_item item = true)
        by (apply is_regex_item_spec; exists body; exact Hbody).
      rewrite Hre, (slice_of_slash_delimited _ _ Hbody), Hnew, Htest.
      apply andb_true_iff; split; [| reflexivity].
      apply truthy_spec. destruct Hbody as [_ ->]. discriminate.
    + apply andb_true_iff; split; [apply truthy_spec; exact Hne |].
      destruct (is_regex_item item) eqn:Hre.
      * apply is_regex_item_spec in Hre as [body Hbody].
        destruct (Hlit body Hbody).
      * apply String.eqb_eq. exact Heq.
Qed.

Lemma allowlist_item_matches_run target item s :
  exists l, allowlist_item_matches target item s
            = (Normal (entry_test target item), s, l)
            /\ states_of l = [].
Proof.
  unfold allowlist_item_matches, entry_test.
  destruct (JS.truthy item); simpl; [| eexists; split; reflexivity].
  destruct (is_regex_item item); [| eexists; split; reflexivity].
  run_monad.
  destruct (new_RegExp (JS.slice_1_m1 item)); simpl; eexists; split; reflexivity.
Qed.

Lemma some_allowlist_run target items s :
  exists l, some (allowlist_item_matches target) items s
            = (Normal (existsb (entry_test target) items), s, l)
            /\ states_of l = [].
Proof.
  induction items as [| item rest IH]; simpl.
  - eexists; split; reflexivity.
  - destruct (allowlist_item_matches_run target item s) as [l1 [Hrun Hl1]].
    unfold bind. rewrite Hrun.
    destruct (entry_test target item); simpl.
    + exists (l1 ++ []). split; [reflexivity |].
      rewrite app_nil_r. exact Hl1.
    + destruct IH as [l2 [Hrest Hl2]]. rewrite Hrest.
      exists (l1 ++ l2). split; [reflexivity |].
      unfold states_of in *. rewrite omap_app, Hl1, Hl2. reflexivity.
Qed.

Lemma isAllowedUrl_run u s :
  exists l, isAllowedUrl u s = (Normal (allowed (allowlist s) u), s, l)
            /\ states_of l = [].
Proof.
  unfold isAllowedUrl, allowed.
  destruct (new_URL u location_href) as [target | err] eqn:Hnew.
  - unfold try_catch, bind, lift. 
    change (ret target s) with (Normal target, s, @nil event).
    cbv iota beta.
    destruct (String.eqb (origin target) location_origin); simpl.
    + destruct (some_allowlist_run target (allowlist s) s) as [l [Hrun Hl]].
      unfold get. rewrite Hrun. exists ([] ++ ([] ++ l)). split; [reflexivity | exact Hl].
    + eexists; split; reflexivity.
  - run_monad. eexists; split; reflexivity.
Qed.

End MatcherProofs.

(** *** The quiescence detector *)

Section TrackerProofs.

Import Tracker.

Lemma check_unfold w t a :
  check w t a =
  let t' := receive_all (fst (w (S a))) t in
  if networkIdle (snd (w (S a))) t' && domIdle (snd (w (S a))) t'
  then (S a, Idle)
  else if le_lt_dec (S a) 120 then check w t' (S a) else (S a, TimedOut).
Proof.
  simp check. cbv zeta.
  destruct (networkIdle _ _ && domIdle _ _); simpl; [reflexivity |].
  destruct (le_lt_dec (S a) 120); reflexivity.
Qed.

Lemma check_spec w t0 fuel : forall a, (121 - a <= fuel)%nat ->
  let res := check w (tracker_at w t0 a) a in
  (a < res.1)%nat /\ (res.1 <= Nat.max 121 (S a))%nat /\
  (forall k, (a < k < res.1)%nat -> idle_at w t0 k = false) /\
  (res.2 = Idle -> idle_at w t0 res.1 = true) /\
  (res.2 = TimedOut -> idle_at w t0 res.1 = false /\ (121 <= res.1)%nat).
Proof.
  induction fuel as [| fuel IH]; intros a Hfuel; cbv zeta;
    rewrite check_unfold; cbv zeta;
    change (receive_all (w (S a)).1 (tracker_at w t0 a)) with (tracker_at w t0 (S a));
    fold (idle_at w t0 (S a));
    destruct (idle_at w t0 (S a)) eqn:Hidle.
  - simpl. repeat split; try lia; try discriminate. intros _. exact Hidle.
  - destruct (le_lt_dec (S a) 120); [lia |]. simpl.
    repeat split; try lia; try discriminate. exact Hidle.
  - simpl. repeat split; try lia; try discriminate. intros _. exact Hidle.
  - destruct (le_lt_dec (S a) 120) as [Hle | Hgt].
    + specialize (IH (S a) ltac:(lia)). cbv zeta in IH.
      destruct IH as (H1 & H2 & H3 & H4 & H5).
      repeat split; try lia; try assumption.
      * intros k Hk. destruct (decide (k = S a)) as [-> | Hne]; [exact Hidle |].
        apply H3. lia.
      * apply H5. assumption.
      * apply H5. assumption.
    + simpl. repeat split; try lia; try discriminate. exact Hidle.
Qed.

End TrackerProofs.


(** ** The claims *)

(** *** Frontier and session *)

Section FrontierClaims.

Context `{Browser}.
Variable cfg : config.

(** The clicks delivered at an [await] are the handlers of the buttons,
    but for Start on a session that is not running and Pause on a
    session that is running and paused. *)
Lemma interrupt_start_is_startCrawl w s :
  isRunning s = true -> interrupt ClickedStart s = startCrawl cfg w s.
Proof.
  intros Hrun. unfold interrupt, startCrawl, bind, get. rewrite Hrun.
  reflexivity.
Qed.

Lemma interrupt_pause_is_togglePause script s :
  isPaused s = false -> interrupt ClickedPause s = togglePause cfg script s.
Proof.
  intros Hp. unfold interrupt, togglePause, bind, get, mutate, updateStatus, ret.
  cbv beta iota. rewrite Hp.
  destruct (isRunning s); cbn [negb andb]; [| reflexivity].
  cbv beta iota. rewrite Hp. reflexivity.
Qed.

Lemma interrupt_pause_idle_is_togglePause script s :
  isRunning s = false -> interrupt ClickedPause s = togglePause cfg script s.
Proof.
  intros Hrun. unfold interrupt, togglePause, bind, get. rewrite Hrun.
  reflexivity.
Qed.

Lemma enqueue_anchor_spec base d attr s :
  exists l,
    (enqueue_anchor cfg base d attr s = (Normal tt, s, l) /\ states_of l = [])
    \/ (exists resolved,
          new_URL attr base = Normal resolved /\
          let u := normalizeUrl (href resolved) in
          let s' := set_queue (queue s ++ [{| url := u; depth := d + 1 |}]) s in
          (u ∉ visited s) /\ (u ∉ (url <$> queue s)) /\
          allowed (allowlist s) u = true /\
          Z.of_nat (length (queue s)) + pagesVisited s < maxPages cfg /\
          enqueue_anchor cfg base d attr s = (Normal tt, s', l) /\
          states_of l = [s']).
Proof.
  remember (enqueue_anchor cfg base d attr s) as R eqn:HR.
  unfold enqueue_anchor in HR.
  destruct (negb (JS.truthy attr) || JS.startsWith "javascript:" attr
            || JS.startsWith "mailto:" attr) eqn:Hattr.
  { exists []. left. subst R. split; reflexivity. }
  destruct (new_URL attr base) as [resolved | err] eqn:Hnew.
  2: { eexists. left. subst R. run_monad. split; reflexivity. }
  destruct (isAllowedUrl_run (normalizeUrl (href resolved)) s) as [la [Hrun Hla]].
  unfold try_catch, bind at 1, lift in HR.
  change (ret resolved s) with (Normal resolved, s, @nil event) in HR.
  cbv iota beta in HR.
  unfold bind at 1 in HR. rewrite Hrun in HR.
  destruct (allowed (allowlist s) (normalizeUrl (href resolved))) eqn:Hallowed;
    simpl in HR.
  2: { eexists. left. subst R. split; [reflexivity |].
       rewrite app_nil_r. exact Hla. }
  unfold bind, get in HR.
  destruct (bool_decide (normalizeUrl (href resolved) ∈ visited s)) eqn:Hvis;
    simpl in HR.
  { eexists. left. subst R. split; [reflexivity |]. rewrite app_nil_r. exact Hla. }
  destruct (existsb (fun item => String.eqb (url item) (normalizeUrl (href resolved)))
              (queue s)) eqn:Hq; simpl in HR.
  { eexists. left. subst R. split; [reflexivity |]. rewrite app_nil_r. exact Hla. }
  destruct (Z.of_nat (length (queue s)) + pagesVisited s >=? maxPages cfg)
    eqn:Hfull; simpl in HR.
  { eexists. left. subst R. split; [reflexivity |]. rewrite app_nil_r. exact Hla. }
  eexists. right. exists resolved. split; [reflexivity |]. cbv zeta.
  split; [apply bool_decide_eq_false in Hvis; exact Hvis |].
  split.
  { intros Hin. apply list_elem_of_fmap in Hin as [e [Hu He]].
    apply not_true_iff_false in Hq. apply Hq.
    apply existsb_exists. exists e. split.
    - apply list_elem_of_In. exact He.
    - apply String.eqb_eq. symmetry. exact Hu. }
  split; [exact Hallowed |].
  split.
  { destruct (Z.geb_spec (Z.of_nat (length (queue s)) + pagesVisited s)
                (maxPages cfg)); [discriminate | lia]. }
  split; [exact HR |].
  unfold states_of in *. rewrite omap_app, Hla. reflexivity.
Qed.

(** C4. [enqueueLinks] is a no-op when the depth of the links exceeds
    [maxDepth]; its callback leaves the state as it is for a link whose
    URL is already visited, already queued, rejected by [isAllowedUrl],
    or met with [queue.length + pagesVisited >= maxPages]; and in every
    session, every entry the loop hands to [visitInIframe] has a depth of
    at most [maxDepth]. *)
Theorem enqueue_rejections_and_depth_bound :
  (forall doc base d s,
      maxDepth cfg < d + 1 ->
      enqueueLinks cfg doc base d s = (Normal tt, s, []))
  /\ (forall base d attr s resolved,
        new_URL attr base = Normal resolved ->
        let u := normalizeUrl (href resolved) in
        (u ∈ visited s) \/ (u ∈ (url <$> queue s))
        \/ (isAllowedUrl u s).1.1 = Normal false
        \/ maxPages cfg <= Z.of_nat (length (queue s)) + pagesVisited s ->
        exists l, enqueue_anchor cfg base d attr s = (Normal tt, s, l)
                  /\ states_of l = [])
  /\ (forall acts e,
        Visiting e ∈ (session cfg acts).2 -> depth e <= maxDepth cfg).
Proof.
  split; [| split].
  - intros doc base d s Hd. unfold enqueueLinks.
    destruct (Z.gtb_spec (d + 1) (maxDepth cfg)); [reflexivity | lia].
  - intros base d attr s resolved Hnew u Hrej.
    destruct (enqueue_anchor_spec base d attr s) as [l [Hno | Hyes]].
    + exists l. exact Hno.
    + exfalso. destruct Hyes as (r' & Hnew' & Hfresh & Hnotq & Hok & Hroom & _).
      assert (r' = resolved) by congruence. subst r'. fold u in Hfresh, Hnotq, Hok.
      destruct Hrej as [Hv | [Hq | [Hno | Hfull]]].
      * exact (Hfresh Hv).
      * exact (Hnotq Hq).
      * destruct (isAllowedUrl_run u s) as [la [Hrun _]].
        rewrite Hrun in Hno. simpl in Hno. congruence.
      * lia.
  - intros acts e Hin.
    pose proof (session_safe cfg acts) as Hsafe.
    rewrite Forall_forall in Hsafe. exact (Hsafe _ Hin).
Qed.

(** C1, as amended. An entry is pushed onto the queue only when its
    URL is neither in the visited set nor in the queue: in every
    session, and from whatever state the actions of the user or
    [enqueueLinks] are run in, since each push comes in one synchronous
    block with the tests that guard it (the seed of [startCrawl] right
    after the queue and the visited set are emptied). *)
Theorem visited_url_never_enqueued :
  (forall acts, Forall pushes_fresh (session cfg acts).2)
  /\ (forall acts s, Forall pushes_fresh (forEach (perform cfg) acts s).2)
  /\ (forall doc base d s,
        Forall pushes_fresh (enqueueLinks cfg doc base d s).2).
Proof.
  assert (Hany : forall acts s,
             Forall pushes_fresh (forEach (perform cfg) acts s).2).
  { intros acts s.
    exact (proj2 (harmless_forEach (perform cfg) acts
                    (perform_harmless cfg) s)). }
  split; [intros acts; apply Hany |]. split; [exact Hany |].
  intros doc base d s. exact (proj2 (enqueueLinks_harmless cfg doc base d s)).
Qed.

(** With one worker the visited set holds at most [max(1, maxPages)]
    URLs, at the start and after every mutation: the budget, and the
    start page where the budget is below one page. *)
Lemma visited_set_bounded (acts : list action) :
  Forall (one_worker cfg) acts ->
  Forall (fun s => Z.of_nat (size (visited s)) <= Z.max 1 (maxPages cfg))
    (initial_state cfg :: states_of (session cfg acts).2).
Proof.
  intros _. constructor.
  - unfold initial_state. cbn [visited]. rewrite size_empty. lia.
  - pose proof (session_safe cfg acts) as Hsafe.
    induction Hsafe as [| ev l Hev _ IH]; [constructor |].
    destruct ev as [| pre m post | | | | |]; simpl; try exact IH.
    constructor; [exact (proj1 Hev) | exact IH].
Qed.

(** With one worker the visited set and the queue together never hold
    more than [max(2, maxPages + 1)] URLs: one more than the budget,
    for the page that [runQueue] marks visited after it has queued its
    links (and two for the seed, queued and visited, under a budget
    below two). *)
Lemma visited_and_queue_within_reach (acts : list action) :
  Forall (one_worker cfg) acts ->
  Forall (fun s => Z.of_nat (size (visited s)) + Z.of_nat (length (queue s))
                   <= Z.max 2 (maxPages cfg + 1))
    (initial_state cfg :: states_of (session cfg acts).2).
Proof.
  intros _. constructor.
  - unfold initial_state. cbn [visited queue length]. rewrite size_empty. lia.
  - pose proof (session_safe cfg acts) as Hsafe.
    induction Hsafe as [| ev l Hev _ IH]; [constructor |].
    destruct ev as [| pre m post | | | | |]; simpl; try exact IH.
    constructor; [exact (proj1 (proj2 Hev)) | exact IH].
Qed.

(** C7. [startCrawl] called while [state.isRunning] holds returns
    normally, having changed nothing and logged one line. *)
Theorem start_while_running_is_noop (w : start_world) (s : state) :
  isRunning s = true ->
  startCrawl cfg w s = (Normal tt, s, [Logged "Crawl already in progress"]).
Proof.
  intros Hrun. unfold startCrawl, bind, get. rewrite Hrun. reflexivity.
Qed.

End FrontierClaims.

(** *** Allowlist *)

Section MatcherClaims.

Context `{Browser}.

Lemma allowed_spec allow u :
  allowed allow u = true <->
  exists target,
    new_URL u location_href = Normal target /\
    origin target = location_origin /\
    exists item, item ∈ allow /\ entry_matches (hostname target) item.
Proof.
  unfold allowed. split.
  - destruct (new_URL u location_href) as [target | err]; [| discriminate].
    intros Ht. apply andb_true_iff in Ht as [Horigin Hsome].
    exists target. split; [reflexivity |].
    split; [apply String.eqb_eq; exact Horigin |].
    apply existsb_exists in Hsome as [item [Hin Htest]].
    exists item. split; [apply list_elem_of_In; exact Hin |].
    apply entry_test_spec. exact Htest.
  - intros (target & -> & Horigin & item & Hin & Hmatch).
    apply andb_true_iff. split; [apply String.eqb_eq; exact Horigin |].
    apply existsb_exists. exists item.
    split; [apply list_elem_of_In; exact Hin |].
    apply entry_test_spec. exact Hmatch.
Qed.

(** C5. [isAllowedUrl] returns normally without changing the state, and
    its value is [true] exactly when the URL parses to a target whose
    origin is [window.location.origin] and whose hostname matches an
    entry of the allowlist; a target of another origin is rejected
    whatever the allowlist holds. *)
Theorem isAllowedUrl_same_origin_and_listed (u : string) (s : state) :
  exists b l,
    isAllowedUrl u s = (Normal b, s, l) /\
    (b = true <->
     exists target,
       new_URL u location_href = Normal target /\
       origin target = location_origin /\
       exists item, item ∈ allowlist s /\ entry_matches (hostname target) item)
    /\ (forall target,
          new_URL u location_href = Normal target ->
          origin target <> location_origin -> b = false).
Proof.
  destruct (isAllowedUrl_run u s) as [l [Hrun _]].
  exists (allowed (allowlist s) u), l. split; [exact Hrun |].
  split; [apply allowed_spec |].
  intros target Hnew Hne. unfold allowed. rewrite Hnew.
  apply andb_false_iff. left. apply String.eqb_neq. exact Hne.
Qed.

Lemma existsb_delete (f : string -> bool) item l :
  f item = false -> existsb f (JS.Set_delete item l) = existsb f l.
Proof.
  intros Hf. unfold JS.Set_delete.
  induction l as [| x rest IH]; [reflexivity |].
  rewrite filter_cons. destruct (decide (x <> item)) as [Hne | Heq]; simpl.
  - rewrite IH. reflexivity.
  - assert (x = item) by (destruct (decide (x = item)); [assumption | contradiction]).
    subst x. rewrite Hf. simpl. exact IH.
Qed.

(** C6. An allowlist entry whose pattern does not compile makes the
    callback of [isAllowedUrl] return [false] normally, and
    [isAllowedUrl] returns, normally, the value it returns on the
    allowlist without that entry. *)
Theorem malformed_pattern_is_ignored (u item body err : string) (s : state) :
  slash_delimited item body ->
  new_RegExp body = Throw err ->
  (forall target,
     exists l, allowlist_item_matches target item s = (Normal false, s, l))
  /\ exists b l l',
       let s' := set_allowlist (JS.Set_delete item (allowlist s)) s in
       isAllowedUrl u s = (Normal b, s, l)
       /\ isAllowedUrl u s' = (Normal b, s', l').
Proof.
  intros Hbody Hnew.
  assert (Hfalse : forall target, entry_test target item = false).
  { intros target. unfold entry_test.
    assert (Hre : is_regex_item item = true)
      by (apply is_regex_item_spec; exists body; exact Hbody).
    rewrite Hre, (slice_of_slash_delimited _ _ Hbody), Hnew.
    apply andb_false_r. }
  split.
  - intros target.
    destruct (allowlist_item_matches_run target item s) as [l [Hrun _]].
    exists l. rewrite Hrun, Hfalse. reflexivity.
  - destruct (isAllowedUrl_run u s) as [l [Hrun _]].
    destruct (isAllowedUrl_run u
                (set_allowlist (JS.Set_delete item (allowlist s)) s))
      as [l' [Hrun' _]].
    exists (allowed (allowlist s) u), l, l'. cbv zeta.
    split; [exact Hrun |]. rewrite Hrun'. f_equal. f_equal. f_equal.
    cbn [allowlist set_allowlist]. unfold allowed.
    destruct (new_URL u location_href) as [target | e]; [| reflexivity].
    rewrite existsb_delete by apply Hfalse. reflexivity.
Qed.

End MatcherClaims.

Lemma malformed_pattern_is_ignored_witness :
  @slash_delimited "/(/" "(" /\
  (let B := Sample.browser Runs.page in
   (forall target,
     exists l, @allowlist_item_matches B target "/(/" Runs.with_bad_pattern
               = (Normal false, Runs.with_bad_pattern, l))
   /\ exists b l l',
       let s' := set_allowlist (JS.Set_delete "/(/" (allowlist Runs.with_bad_pattern))
                   Runs.with_bad_pattern in
       @isAllowedUrl B "https://a.test/x" Runs.with_bad_pattern
       = (Normal b, Runs.with_bad_pattern, l)
       /\ @isAllowedUrl B "https://a.test/x" s' = (Normal b, s', l')).
Proof.
  split.
  - split; [discriminate | reflexivity].
  - apply (@malformed_pattern_is_ignored (Sample.browser Runs.page)
             "https://a.test/x" "/(/" "("
             "SyntaxError: Invalid regular expression" Runs.with_bad_pattern).
    + split; [discriminate | reflexivity].
    + reflexivity.
Defined.

(** *** Delivery *)

Section DeliveryClaims.

Variable cfg : config.

Lemma pad4_table :
  forallb
    (fun k => Nat.eqb (String.length (JS.padStart 4 "0" (JS.String_of (Z.of_nat k)))) 4)
    (seq 0 (Z.to_nat 10000)) = true.
Proof. vm_compute. reflexivity. Qed.

Lemma pad4_length n :
  0 <= n < 10000 ->
  String.length (JS.padStart 4 "0" (JS.String_of n)) = 4%nat.
Proof.
  intros Hn. pose proof pad4_table as Ht.
  rewrite forallb_forall in Ht.
  specialize (Ht (Z.to_nat n)).
  rewrite Z2Nat.id in Ht by lia.
  apply Nat.eqb_eq, Ht, in_seq. lia.
Qed.

Lemma persisted_app l1 l2 : persisted (l1 ++ l2) = persisted l1 ++ persisted l2.
Proof. unfold persisted. apply omap_app. Qed.

Lemma network_attempts_app l1 l2 :
  network_attempts (l1 ++ l2) = network_attempts l1 ++ network_attempts l2.
Proof. unfold network_attempts. apply List.filter_app. Qed.

(** C9, as amended. With an endpoint configured, the direct POST and
    the POST through the privileged channel both failing, and the
    download facility storing both files, [handleOutput] returns normally, leaves
    the state as it is, persists exactly the markup file and the image
    file, named [page-N.html] and [page-N.png] for the same [N], the
    count of visited pages plus one padded with zeros to four digits
    (exactly four up to 9999), and makes no network attempt besides the
    direct POST and, where the channel exists, the privileged one. *)
Theorem fallback_persists_two_artifacts
    (w : delivery_world) (p : payload) (s : state) :
  postEndpoint cfg <> "" ->
  direct_post_fails w ->
  privileged_post_fails w ->
  let stem := JS.padStart 4 "0" (JS.String_of (pagesVisited s + 1)) in
  storage_accepts w ("page-" +:+ stem +:+ ".html") ->
  storage_accepts w ("page-" +:+ stem +:+ ".png") ->
  exists l,
    handleOutput cfg w (Some p) s = (Normal tt, s, l)
    /\ persisted l = [("page-" +:+ stem +:+ ".html", p_html p);
                      ("page-" +:+ stem +:+ ".png", p_screenshot p)]
    /\ network_attempts l
       = Fetched (postEndpoint cfg) p
         :: (if gm_available w then [GmPosted (postEndpoint cfg) p] else [])
    /\ (0 <= pagesVisited s < 9999 -> String.length stem = 4%nat).
Proof.
  intros Hend Hdirect Hpriv stem Hhtml Hpng.
  assert (Hlen : 0 <= pagesVisited s < 9999 -> String.length stem = 4%nat)
    by (intros Hpv; apply pad4_length; lia).
  assert (Htruthy : JS.truthy (postEndpoint cfg) = true).
  { unfold JS.truthy. apply negb_true_iff, String.eqb_neq. exact Hend. }
  assert (Hdl : exists l1,
      downloadPayload w p ("page-" +:+ stem +:+ ".html")
        ("page-" +:+ stem +:+ ".png") s = (Normal tt, s, l1)
      /\ persisted l1 = [("page-" +:+ stem +:+ ".html", p_html p);
                         ("page-" +:+ stem +:+ ".png", p_screenshot p)]
      /\ network_attempts l1 = []).
  { unfold downloadPayload, gmDownload, bind.
    unfold storage_accepts in Hhtml, Hpng.
    destruct (gm_download_available w).
    - rewrite Hhtml, Hpng by reflexivity. eexists. repeat split; reflexivity.
    - eexists. repeat split; reflexivity. }
  destruct Hdl as (l1 & Hrun & Hp1 & Hn1).
  unfold handleOutput. fold stem. unfold bind at 1, get. cbv iota beta.
  rewrite Htruthy. unfold postPayload. rewrite Htruthy. cbn [negb].
  unfold direct_post_fails in Hdirect. unfold privileged_post_fails in Hpriv.
  unfold gmPost.
  destruct (fetch_status w) as [status |];
    [rewrite Hdirect |];
    (destruct (gm_available w);
     [ destruct Hpriv as [Hno | Hpriv]; [discriminate |];
       destruct (gm_status w) as [gstatus |]; [rewrite Hpriv |]
     | ]);
    unfold try_catch, bind, throw, ret, log, emit; cbn [negb];
    fold stem; rewrite Hrun; eexists; (split; [reflexivity |]);
    rewrite ?persisted_app, ?network_attempts_app, Hp1, Hn1;
    (split; [reflexivity | split; [reflexivity | exact Hlen]]).
Qed.

End DeliveryClaims.

Lemma fallback_persists_two_artifacts_witness :
  exists l,
    handleOutput Runs.with_endpoint Sample.failing_endpoint
      (Some (Sample.a_payload Runs.page)) (initial_state Runs.with_endpoint)
    = (Normal tt, initial_state Runs.with_endpoint, l)
    /\ persisted l = [("page-0001.html", "<html></html>");
                      ("page-0001.png", "data:image/png;base64,AAAA")]
    /\ network_attempts l
       = [Fetched "https://sink.test/capture" (Sample.a_payload Runs.page);
          GmPosted "https://sink.test/capture" (Sample.a_payload Runs.page)]
    /\ (0 <= 0 < 9999 -> String.length "0001" = 4%nat).
Proof.
  apply (fallback_persists_two_artifacts Runs.with_endpoint
           Sample.failing_endpoint (Sample.a_payload Runs.page)
           (initial_state Runs.with_endpoint)).
  - discriminate.
  - reflexivity.
  - right. reflexivity.
  - intros _. reflexivity.
  - intros _. reflexivity.
Defined.

(** *** Quiescence, and the runs that settle the rest *)

Section TrackerClaims.

Import Tracker.

Lemma markNetworkActivity_nonneg delta now t :
  0 <= pendingRequests (markNetworkActivity delta now t).
Proof. unfold markNetworkActivity. cbn [pendingRequests]. lia. Qed.

Lemma receive_nonneg t sg :
  0 <= pendingRequests t -> 0 <= pendingRequests (receive t sg).
Proof.
  intros Ht. destruct sg; cbn [receive];
    first [apply markNetworkActivity_nonneg | exact Ht].
Qed.

Lemma receive_all_nonneg sgs t :
  0 <= pendingRequests t -> 0 <= pendingRequests (receive_all sgs t).
Proof.
  unfold receive_all. revert t.
  induction sgs as [| sg rest IH]; intros t Ht; [exact Ht |].
  cbn [fold_left]. apply IH, receive_nonneg, Ht.
Qed.

(** C10. [markNetworkActivity] never leaves the counter negative,
    whatever the delta; so after any signals the counter of a tracker is
    at least zero, and the test [pendingRequests <= 0] of the
    network-idle condition is the test [pendingRequests == 0]. *)
Theorem pending_requests_never_negative :
  (forall delta now t, 0 <= pendingRequests (markNetworkActivity delta now t))
  /\ (forall now1 now2 sgs,
        let t := receive_all sgs (createActivityTracker now1 now2) in
        0 <= pendingRequests t
        /\ (pendingRequests t <=? 0) = (pendingRequests t =? 0)
        /\ forall now,
             networkIdle now t
             = (pendingRequests t =? 0) && (now - lastActivity t >? idleDelay)).
Proof.
  split; [apply markNetworkActivity_nonneg |].
  intros now1 now2 sgs t.
  assert (Ht : 0 <= pendingRequests t).
  { apply receive_all_nonneg. cbn [createActivityTracker pendingRequests]. lia. }
  assert (Heq : (pendingRequests t <=? 0) = (pendingRequests t =? 0)).
  { destruct (Z.leb_spec (pendingRequests t) 0), (Z.eqb_spec (pendingRequests t) 0);
      first [reflexivity | lia]. }
  split; [exact Ht |]. split; [exact Heq |].
  intros now. unfold networkIdle. rewrite Heq. reflexivity.
Qed.

(** C8, as amended. [waitForIdle] resolves for every page: at the first
    run of [check] that finds both idleness conditions to hold, when
    there is one among the first 121, and otherwise at the 121st run,
    the first at which the attempt counter exceeds 120. *)
Theorem waitForIdle_resolves (w : polls) (t : tracker) :
  let res := waitForIdle w t in
  (1 <= res.1 <= 121)%nat
  /\ (forall k, (1 <= k < res.1)%nat -> idle_at w t k = false)
  /\ (res.2 = Idle -> idle_at w t res.1 = true)
  /\ (res.2 = TimedOut -> res.1 = 121%nat /\ idle_at w t 121 = false).
Proof.
  pose proof (check_spec w t 121 0 ltac:(lia)) as Hspec.
  cbv zeta in *. unfold waitForIdle.
  change (tracker_at w t 0) with t in Hspec.
  destruct Hspec as (H1 & H2 & H3 & H4 & H5).
  split; [lia |]. split; [intros k Hk; apply H3; lia |].
  split; [exact H4 |].
  intros Hto. destruct (H5 Hto) as [Hidle Hge].
  assert (Heq : (check w t 0).1 = 121%nat) by lia.
  split; [exact Heq | rewrite <- Heq; exact Hidle].
Qed.

End TrackerClaims.

(** C8, as stated, fails: a page that mutates right before every poll is
    never idle, and [waitForIdle] resolves at the 121st run of [check],
    not by the 120th. *)
Lemma waitForIdle_takes_121_polls :
  (forall k, Tracker.idle_at Runs.never_settles
               (Tracker.createActivityTracker 0 0) k = false)
  /\ ~ ((Tracker.waitForIdle Runs.never_settles
           (Tracker.createActivityTracker 0 0)).1 <= 120)%nat.
Proof.
  split.
  - intros k. unfold Tracker.idle_at. apply andb_false_iff. right.
    unfold Tracker.domIdle.
    assert (Hm : Tracker.lastMutation
                   (Tracker.tracker_at Runs.never_settles
                      (Tracker.createActivityTracker 0 0) k)
                 = 250 * Z.of_nat k).
    { destruct k as [| k]; [reflexivity |]. reflexivity. }
    rewrite Hm. unfold Runs.never_settles. cbn [snd].
    rewrite Z.sub_diag. reflexivity.
  - vm_compute. intros Hle. 
    repeat (apply le_S_n in Hle). inversion Hle.
Qed.

(** C1, as stated, fails: once the start page is captured, its URL is in
    the visited set and still in the queue, where [startCrawl] put it. *)
Lemma seed_is_queued_and_visited :
  ~ Forall frontier_apart
      (states_of
         (@session (Sample.browser Runs.page) (CONFIG "a.test")
            Runs.seed_only).2).
Proof. apply (proj1 (bool_decide_eq_false _)). vm_compute. reflexivity. Qed.

(** C3 fails on the script: with a budget of zero pages, which is to
    count the starting page, a click on Start captures the start page
    all the same and the visited set holds one URL. *)
Theorem start_page_visited_without_budget :
  ~ Forall (visited_within_budget (Sample.config_with 2 0 ""))
      (states_of
         (@session (Sample.browser Runs.page) (Sample.config_with 2 0 "")
            Runs.seed_only).2).
Proof. apply (proj1 (bool_decide_eq_false _)). vm_compute. reflexivity. Qed.

(** C9, as stated, fails: with both channels answering 500 and
    [GM_download] reporting an error, [handleOutput] throws and no file
    is persisted; and after 9999 pages the stem has five digits. *)
Lemma failed_download_persists_nothing :
  let res := handleOutput Runs.with_endpoint Cases.nothing_works
               (Some (Sample.a_payload Runs.page))
               (initial_state Runs.with_endpoint) in
  postEndpoint Runs.with_endpoint <> ""
  /\ direct_post_fails Cases.nothing_works
  /\ privileged_post_fails Cases.nothing_works
  /\ res.1.1 = Throw "download failed"
  /\ persisted res.2 = []
  /\ JS.padStart 4 "0" (JS.String_of (9999 + 1)) = "10000".
Proof.
  cbv zeta. split; [discriminate |]. split; [reflexivity |].
  split; [right; reflexivity |]. repeat split.
Qed.

(** C2 fails on the script: with a budget of three pages, the start page
    linking to two pages and the first of them to three, the visited set
    and the queue hold four URLs once that page is marked visited. *)
Theorem budget_overrun_after_enqueue :
  Exists (fun s => ~ within_budget (Sample.config_with 2 3 "") s)
    (states_of
       (@session (Sample.browser Runs.page) (Sample.config_with 2 3 "")
          Runs.two_levels).2).
Proof. apply (proj1 (bool_decide_eq_true _)). vm_compute. reflexivity. Qed.

Lemma start_while_running_is_noop_witness :
  isRunning Runs.running = true
  /\ @startCrawl (Sample.browser Runs.page) (CONFIG "a.test")
       (Sample.start_on Runs.page [] []) Runs.running
     = (Normal tt, Runs.running, [Logged "Crawl already in progress"]).
Proof.
  split; [reflexivity |].
  apply (@start_while_running_is_noop (Sample.browser Runs.page)).
  reflexivity.
Defined.

(** ** The further properties, proved *)

(** *** Running the monad *)

Section RunEquations.

Context {A B : Type}.

Lemma run_bind_get (k : state -> M B) s : bind get k s = k s s.
Proof. unfold bind, get. destruct (k s s) as [[r s'] l]. reflexivity. Qed.

Lemma run_bind_ret (a : A) (k : A -> M B) s : bind (ret a) k s = k a s.
Proof. unfold bind, ret. destruct (k a s) as [[r s'] l]. reflexivity. Qed.

Lemma run_bind_mutate m f (k : unit -> M B) s :
  bind (mutate m f) k s
  = ((k tt (f s)).1, Stepped s m (f s) :: (k tt (f s)).2).
Proof. unfold bind, mutate. destruct (k tt (f s)) as [[r s'] l]. reflexivity. Qed.

Lemma run_bind_emit ev (k : unit -> M B) s :
  bind (emit ev) k s = ((k tt s).1, ev :: (k tt s).2).
Proof. unfold bind, emit. destruct (k tt s) as [[r s'] l]. reflexivity. Qed.

Lemma run_bind_normal (m : M A) (k : A -> M B) s a s1 l1 :
  m s = (Normal a, s1, l1) ->
  bind m k s = ((k a s1).1, l1 ++ (k a s1).2).
Proof.
  intros Hm. unfold bind. rewrite Hm. destruct (k a s1) as [[r s'] l].
  reflexivity.
Qed.

Lemma run_bind_throw (m : M A) (k : A -> M B) s err s1 l1 :
  m s = (Throw err, s1, l1) -> bind m k s = (Throw err, s1, l1).
Proof. intros Hm. unfold bind. rewrite Hm. reflexivity. Qed.

Lemma elem_of_bind_l ev (m : M A) (k : A -> M B) s :
  ev ∈ (m s).2 -> ev ∈ (bind m k s).2.
Proof.
  unfold bind. destruct (m s) as [[[a | err] s1] l1]; cbn [snd]; intros Hin.
  - destruct (k a s1) as [[r s2] l2]. cbn [snd]. apply elem_of_app. left. exact Hin.
  - exact Hin.
Qed.

Lemma elem_of_try_catch_l ev (m : M A) (h : string -> M A) s :
  ev ∈ (m s).2 -> ev ∈ (try_catch m h s).2.
Proof.
  unfold try_catch. destruct (m s) as [[[a | err] s1] l1]; cbn [snd]; intros Hin.
  - exact Hin.
  - destruct (h err s1) as [[r s2] l2]. cbn [snd]. apply elem_of_app. left. exact Hin.
Qed.

End RunEquations.

Lemma states_of_app l1 l2 : states_of (l1 ++ l2) = states_of l1 ++ states_of l2.
Proof. unfold states_of. apply omap_app. Qed.

Lemma truthy_false_iff x : JS.truthy x = false <-> x = "".
Proof.
  unfold JS.truthy. rewrite negb_false_iff. apply String.eqb_eq.
Qed.

Lemma truthy_true_iff x : JS.truthy x = true <-> x <> "".
Proof.
  unfold JS.truthy. rewrite negb_true_iff. apply String.eqb_neq.
Qed.

Lemma set_queue_same s : set_queue (queue s) s = s.
Proof. destruct s; reflexivity. Qed.

Lemma forEach_app {A} (f : A -> M unit) l1 l2 s :
  forEach f (l1 ++ l2) s = (forEach f l1 ;;; forEach f l2) s.
Proof.
  revert s. induction l1 as [| x rest IH]; intros s; cbn [app forEach].
  - unfold bind, ret. destruct (forEach f l2 s) as [[r s'] l]. reflexivity.
  - unfold bind. destruct (f x s) as [[[[] | err] s1] la]; [| reflexivity].
    rewrite IH. unfold bind.
    destruct (forEach f rest s1) as [[[[] | err] s2] lb]; [| reflexivity].
    destruct (forEach f l2 s2) as [[r s3] lc]. rewrite app_assoc. reflexivity.
Qed.

Lemma interrupt_returns c s : (interrupt c s).1.1 = Normal tt.
Proof.
  destruct c; cbn;
    [destruct (isRunning s) | destruct (isRunning s && negb (isPaused s)) |];
    reflexivity.
Qed.

Lemma forEach_interrupt_returns cs s : (forEach interrupt cs s).1.1 = Normal tt.
Proof.
  revert s. induction cs as [| c rest IH]; intros s; [reflexivity |].
  cbn [forEach]. unfold bind. pose proof (interrupt_returns c s) as Hc.
  destruct (interrupt c s) as [[r s1] l1]. cbn [fst] in Hc. subst r.
  specialize (IH s1). destruct (forEach interrupt rest s1) as [[r2 s2] l2].
  exact IH.
Qed.

(** *** Delivery *)

Section DeliveryExtras.

Variable cfg : config.

Ltac delivery_cases w :=
  unfold handleOutput, postPayload, gmPost, downloadPayload, gmDownload;
  destruct (JS.truthy (postEndpoint cfg));
  destruct (fetch_status w) as [status |];
  destruct (gm_available w);
  destruct (gm_status w) as [gstatus |];
  destruct (gm_download_available w);
  unfold try_catch, bind, throw, ret, log, emit, get; cbn [negb];
  cbv beta iota zeta;
  repeat match goal with
    | |- context [response_ok ?x] => destruct (response_ok x)
    | |- context [download_ok w ?n] => destruct (download_ok w n)
    end.

Lemma handleOutput_keeps_state w p s :
  (handleOutput cfg w p s).1.2 = s
  /\ states_of (handleOutput cfg w p s).2 = [].
Proof.
  destruct p as [p |]; [| split; reflexivity].
  delivery_cases w; split; reflexivity.
Qed.

Lemma handleOutput_reads_count w p s1 s2 :
  pagesVisited s1 = pagesVisited s2 ->
  (handleOutput cfg w p s1).1.1 = (handleOutput cfg w p s2).1.1.
Proof.
  intros Hpv. destruct p as [p |]; [| reflexivity].
  unfold handleOutput, postPayload, gmPost, downloadPayload, gmDownload.
  unfold try_catch, bind, throw, ret, log, emit, get.
  cbv beta iota zeta. rewrite Hpv.
  destruct (JS.truthy (postEndpoint cfg));
  destruct (fetch_status w) as [status |];
  destruct (gm_available w);
  destruct (gm_status w) as [gstatus |];
  destruct (gm_download_available w);
  cbn [negb];
  repeat match goal with
    | |- context [response_ok ?x] => destruct (response_ok x)
    | |- context [download_ok w ?n] => destruct (download_ok w n)
    end; reflexivity.
Qed.

Lemma handleOutput_returns w p s :
  (handleOutput cfg w (Some p) s).1.1 = Normal tt ->
  exists l, handleOutput cfg w (Some p) s = (Normal tt, s, l).
Proof.
  intros Hr. destruct (handleOutput_keeps_state w (Some p) s) as [Hs _].
  destruct (handleOutput cfg w (Some p) s) as [[r s'] l].
  cbn [fst snd] in Hr, Hs. subst r s'. exists l. reflexivity.
Qed.

(** X1. Whatever the endpoint and the download facility answer,
    [handleOutput] leaves the state as it is, makes at most two network
    attempts, the direct one first, and calls [gmDownload] at most
    twice. *)
Theorem handleOutput_is_bounded (w : delivery_world) (p : option payload)
    (s : state) :
  let res := handleOutput cfg w p s in
  res.1.2 = s
  /\ states_of res.2 = []
  /\ (length (network_attempts res.2) <= 2)%nat
  /\ (length (download_attempts res.2) <= 2)%nat
  /\ (forall endpoint body,
        GmPosted endpoint body ∈ res.2 ->
        exists rest, network_attempts res.2
                     = Fetched endpoint body :: GmPosted endpoint body :: rest).
Proof.
  cbv zeta. destruct p as [p |].
  2: { cbn. repeat split; try lia. intros endpoint body Hin. inversion Hin. }
  delivery_cases w; cbn;
    (split; [reflexivity |]); (split; [reflexivity |]);
    (split; [lia |]); (split; [lia |]);
    intros endpoint body Hin;
    repeat match goal with
      | H : _ ∈ _ :: _ |- _ => apply elem_of_cons in H as [H | H]
      | H : _ ∈ [] |- _ => inversion H
      | H : GmPosted _ _ = _ |- _ => first [discriminate H | injection H as -> ->]
      end;
    eexists; reflexivity.
Qed.

(** X2. Without an endpoint [handleOutput] makes no network attempt,
    whatever the download facility answers: all it does is call
    [gmDownload], for the markup file first; and when the facility
    stores both files it returns normally, the two files persisted. *)
Theorem no_endpoint_means_no_network (w : delivery_world) (p : payload)
    (s : state) :
  postEndpoint cfg = "" ->
  let res := handleOutput cfg w (Some p) s in
  network_attempts res.2 = []
  /\ download_attempts res.2 = res.2
  /\ (exists stored rest,
        res.2 = Downloaded (html_name s) (p_html p) stored :: rest)
  /\ (storage_accepts w (html_name s) -> storage_accepts w (png_name s) ->
      res = (Normal tt, s,
             [Downloaded (html_name s) (p_html p) true;
              Downloaded (png_name s) (p_screenshot p) true])).
Proof.
  intros Hend. apply truthy_false_iff in Hend.
  unfold storage_accepts, html_name, png_name.
  unfold handleOutput, downloadPayload, gmDownload.
  rewrite Hend. unfold bind, get, ret, emit, throw. cbv beta iota zeta.
  destruct (gm_download_available w);
    repeat match goal with
      | |- context [download_ok w ?n] => destruct (download_ok w n) eqn:?
      end;
    (split; [reflexivity |]); (split; [reflexivity |]);
    (split; [eexists _, _; reflexivity |]);
    intros Hhtml Hpng;
    try reflexivity;
    try (specialize (Hhtml eq_refl); congruence);
    try (specialize (Hpng eq_refl); congruence).
Qed.

(** X3. When the endpoint takes the payload, on the direct channel or
    after its failure on the privileged one, [handleOutput] returns
    normally without a single download. *)
Theorem remote_success_skips_downloads (w : delivery_world) (p : payload)
    (s : state) :
  postEndpoint cfg <> "" ->
  remote_accepts w ->
  exists l,
    handleOutput cfg w (Some p) s = (Normal tt, s, l)
    /\ download_attempts l = []
    /\ network_attempts l
       = Fetched (postEndpoint cfg) p
         :: match fetch_status w with
            | Some status =>
                if response_ok status then []
                else [GmPosted (postEndpoint cfg) p]
            | None => [GmPosted (postEndpoint cfg) p]
            end.
Proof.
  intros Hend Hok. apply truthy_true_iff in Hend.
  unfold handleOutput, postPayload, gmPost. rewrite Hend.
  unfold try_catch, bind, throw, ret, log, emit, get. cbn [negb].
  cbv beta iota zeta.
  destruct Hok as [(status & Hf & Hs) | (Hfail & Hgm & status & Hg & Hs)].
  - rewrite Hf, Hs. eexists. repeat split; reflexivity.
  - unfold direct_post_fails in Hfail. rewrite Hgm, Hg, Hs.
    destruct (fetch_status w) as [st |]; [rewrite Hfail |];
      eexists; repeat split; reflexivity.
Qed.

(** X4. When [GM_download] reports an error for the markup file,
    [handleOutput] throws: the image is not attempted and nothing is
    persisted. *)
Theorem failed_markup_download_aborts (w : delivery_world) (p : payload)
    (s : state) :
  falls_back cfg w ->
  gm_download_available w = true ->
  download_ok w (html_name s) = false ->
  exists l,
    handleOutput cfg w (Some p) s = (Throw "download failed", s, l)
    /\ download_attempts l = [Downloaded (html_name s) (p_html p) false]
    /\ persisted l = [].
Proof.
  intros Hfall Hgmd Hbad. unfold html_name in *.
  unfold handleOutput, postPayload, gmPost, downloadPayload, gmDownload.
  rewrite Hgmd.
  unfold try_catch, bind, throw, ret, log, emit, get.
  cbv beta iota zeta. rewrite Hbad.
  destruct Hfall as [Hend | [Hdirect Hpriv]].
  - apply truthy_false_iff in Hend. rewrite Hend.
    eexists. repeat split; reflexivity.
  - destruct (JS.truthy (postEndpoint cfg));
      [| eexists; repeat split; reflexivity].
    cbn [negb].
    unfold direct_post_fails in Hdirect. unfold privileged_post_fails in Hpriv.
    destruct (fetch_status w) as [status |]; [rewrite Hdirect |];
      (destruct (gm_available w);
       [ destruct Hpriv as [Hno | Hpriv]; [discriminate |];
         destruct (gm_status w) as [gstatus |]; [rewrite Hpriv |]
       | ]);
      eexists; repeat split; reflexivity.
Qed.

End DeliveryExtras.

Lemma no_endpoint_means_no_network_witness :
  let res := handleOutput (CONFIG "a.test") Cases.nothing_works
               (Some (Sample.a_payload Runs.page))
               (initial_state (CONFIG "a.test")) in
  network_attempts res.2 = []
  /\ download_attempts res.2 = res.2
  /\ (exists stored rest,
        res.2 = Downloaded "page-0001.html" "<html></html>" stored :: rest)
  /\ (storage_accepts Cases.nothing_works "page-0001.html" ->
      storage_accepts Cases.nothing_works "page-0001.png" ->
      res = (Normal tt, initial_state (CONFIG "a.test"),
             [Downloaded "page-0001.html" "<html></html>" true;
              Downloaded "page-0001.png" "data:image/png;base64,AAAA" true])).
Proof.
  apply (no_endpoint_means_no_network (CONFIG "a.test") Cases.nothing_works
           (Sample.a_payload Runs.page) (initial_state (CONFIG "a.test"))).
  reflexivity.
Defined.

Lemma remote_success_skips_downloads_witness :
  exists l,
    handleOutput Runs.with_endpoint Cases.accepting_endpoint
      (Some (Sample.a_payload Runs.page)) (initial_state Runs.with_endpoint)
    = (Normal tt, initial_state Runs.with_endpoint, l)
    /\ download_attempts l = []
    /\ network_attempts l
       = [Fetched "https://sink.test/capture" (Sample.a_payload Runs.page)].
Proof.
  apply (remote_success_skips_downloads Runs.with_endpoint
           Cases.accepting_endpoint (Sample.a_payload Runs.page)
           (initial_state Runs.with_endpoint)).
  - discriminate.
  - left. exists 200. split; reflexivity.
Defined.

Lemma failed_markup_download_aborts_witness :
  exists l,
    handleOutput (CONFIG "a.test") Cases.broken_storage
      (Some (Sample.a_payload Runs.page)) (initial_state (CONFIG "a.test"))
    = (Throw "download failed", initial_state (CONFIG "a.test"), l)
    /\ download_attempts l = [Downloaded "page-0001.html" "<html></html>" false]
    /\ persisted l = [].
Proof.
  apply (failed_markup_download_aborts (CONFIG "a.test") Cases.broken_storage
           (Sample.a_payload Runs.page) (initial_state (CONFIG "a.test"))).
  - left. reflexivity.
  - reflexivity.
  - reflexivity.
Defined.

(** *** File names *)

Section FileNames.










End FileNames.


(** *** The frontier *)

Section EnqueueExtras.

Context `{Browser}.
Variable cfg : config.

Lemma forEach_enqueue_appends doc base d s :
  exists added l,
    forEach (enqueue_anchor cfg base d) doc s
    = (Normal tt, set_queue (queue s ++ added) s, l)
    /\ appended_ok cfg d s added.
Proof.
  revert s. induction doc as [| attr rest IH]; intros s.
  - exists [], []. cbn [forEach]. unfold ret. rewrite app_nil_r, set_queue_same.
    split; [reflexivity |]. unfold appended_ok.
    split; [constructor |]. split; [constructor | congruence].
  - cbn [forEach]. unfold bind.
    destruct (enqueue_anchor_spec cfg base d attr s)
      as [l1 [[Hrun _] | (resolved & Hnew & Hyes)]].
    + rewrite Hrun. destruct (IH s) as (added & l2 & Hrest & Hok).
      rewrite Hrest. exists added, (l1 ++ l2). split; [reflexivity | exact Hok].
    + cbv zeta in Hyes.
      destruct Hyes as (Hfresh & Hnotq & Hallowed & Hroom & Hrun & _).
      rewrite Hrun.
      set (e := {| url := normalizeUrl (href resolved); depth := d + 1 |}) in *.
      destruct (IH (set_queue (queue s ++ [e]) s)) as (added & l2 & Hrest & Hok).
      rewrite Hrest. exists (e :: added), (l1 ++ l2).
      split.
      { cbn [queue set_queue]. rewrite <- app_assoc. reflexivity. }
      destruct Hok as (Hall & Hnodup & Hbudget).
      cbn [queue set_queue visited allowlist pagesVisited] in Hall, Hbudget.
      unfold appended_ok. split; [| split].
      * constructor.
        { repeat split; assumption. }
        eapply Forall_impl; [exact Hall |].
        intros e' (Hd & Ha & Hv & Hq). repeat split; try assumption.
        intros Hin. apply Hq. rewrite fmap_app. apply elem_of_app. left. exact Hin.
      * cbn [fmap list_fmap]. constructor; [| exact Hnodup].
        intros Hin. apply list_elem_of_fmap in Hin as (e' & Hu & He').
        rewrite Forall_forall in Hall. destruct (Hall e' He') as (_ & _ & _ & Hq).
        apply Hq. rewrite fmap_app. apply elem_of_app. right.
        rewrite <- Hu. cbn. apply list_elem_of_singleton. reflexivity.
      * intros _. destruct added as [| e2 added'].
        { rewrite length_app. cbn [length]. lia. }
        rewrite <- app_assoc in Hbudget. apply Hbudget. discriminate.
Qed.

Lemma enqueueLinks_appends doc base d s :
  exists added l,
    enqueueLinks cfg doc base d s
    = (Normal tt, set_queue (queue s ++ added) s, l)
    /\ appended_ok cfg d s added
    /\ (added <> [] -> d + 1 <= maxDepth cfg).
Proof.
  unfold enqueueLinks. destruct (Z.gtb_spec (d + 1) (maxDepth cfg)) as [Hgt | Hle].
  - exists [], []. unfold ret. rewrite app_nil_r, set_queue_same.
    split; [reflexivity |]. split; [| congruence].
    split; [constructor |]. split; [constructor | congruence].
  - destruct (forEach_enqueue_appends doc base d s) as (added & l & Hrun & Hok).
    exists added, (l ++ []). unfold bind. rewrite Hrun.
    split; [reflexivity |]. split; [exact Hok | intros _; exact Hle].
Qed.

(** X6. [enqueueLinks] only appends to the queue and touches nothing
    else: the entries it adds have the depth of the page plus one, URLs
    the allowlist accepts, new to the visited set and to the queue, and
    distinct from one another; and whenever it adds one, the queue and
    the page count are within the budget afterwards. *)
Theorem enqueueLinks_only_appends (doc : document) (base : string) (d : Z)
    (s : state) :
  exists added l,
    enqueueLinks cfg doc base d s
    = (Normal tt, set_queue (queue s ++ added) s, l)
    /\ (Forall (fun e => depth e = d + 1
                         /\ (isAllowedUrl (url e) s).1.1 = Normal true
                         /\ (url e ∉ visited s)
                         /\ (url e ∉ (url <$> queue s))) added
        /\ NoDup (url <$> added)
        /\ (added <> [] ->
            Z.of_nat (length (queue s ++ added)) + pagesVisited s
            <= maxPages cfg))
    /\ (added <> [] -> d + 1 <= maxDepth cfg).
Proof.
  destruct (enqueueLinks_appends doc base d s)
    as (added & l & Hrun & (Hall & Hnodup & Hroom) & Hdepth).
  exists added, l. split; [exact Hrun |]. split; [| exact Hdepth].
  split; [| split; assumption].
  eapply Forall_impl; [exact Hall |].
  intros e (Hd & Ha & Hv & Hq). repeat split; try assumption.
  destruct (isAllowedUrl_run (url e) s) as [la [-> _]]. cbn [fst].
  rewrite Ha. reflexivity.
Qed.

Lemma queued_or_full_grows u s added :
  queued_or_full cfg u s ->
  queued_or_full cfg u (set_queue (queue s ++ added) s).
Proof.
  unfold queued_or_full. cbn [queue set_queue pagesVisited].
  rewrite fmap_app, elem_of_app, length_app. intros [Hin | Hfull]; [tauto | lia].
Qed.

Lemma enqueue_anchor_complete base attr d s resolved :
  attr <> "" ->
  JS.startsWith "javascript:" attr = false ->
  JS.startsWith "mailto:" attr = false ->
  new_URL attr base = Normal resolved ->
  (isAllowedUrl (normalizeUrl (href resolved)) s).1.1 = Normal true ->
  normalizeUrl (href resolved) ∉ visited s ->
  exists added l,
    enqueue_anchor cfg base d attr s
    = (Normal tt, set_queue (queue s ++ added) s, l)
    /\ queued_or_full cfg (normalizeUrl (href resolved))
         (set_queue (queue s ++ added) s).
Proof.
  intros Hattr Hjs Hmail Hnew Hallowed Hfresh.
  set (u := normalizeUrl (href resolved)) in *.
  destruct (isAllowedUrl_run u s) as [la [Hrun _]].
  rewrite Hrun in Hallowed. cbn [fst] in Hallowed.
  unfold enqueue_anchor.
  apply truthy_true_iff in Hattr.
  rewrite Hattr, Hjs, Hmail. cbn [negb orb]. rewrite Hnew.
  unfold try_catch, bind at 1, lift.
  change (ret resolved s) with (Normal resolved, s, @nil event).
  cbv iota beta. fold u. unfold bind at 1. rewrite Hrun.
  injection Hallowed as ->. cbn [negb]. unfold bind, get.
  rewrite bool_decide_eq_false_2 by exact Hfresh.
  destruct (existsb (fun item => String.eqb (url item) u) (queue s)) eqn:Hex.
  { exists [], (la ++ []). rewrite app_nil_r, set_queue_same.
    split; [reflexivity |]. left.
    apply existsb_exists in Hex as (e & He & Hu).
    apply list_elem_of_fmap. exists e.
    split; [symmetry; apply String.eqb_eq; exact Hu | apply list_elem_of_In; exact He]. }
  destruct (Z.geb_spec (Z.of_nat (length (queue s)) + pagesVisited s) (maxPages cfg))
    as [Hfull | Hroom].
  { exists [], (la ++ []). rewrite app_nil_r, set_queue_same.
    split; [reflexivity |]. right. lia. }
  eexists [_], _. split; [reflexivity |]. left.
  cbn [queue set_queue]. rewrite fmap_app. apply elem_of_app. right.
  cbn. apply list_elem_of_singleton. reflexivity.
Qed.

Lemma isAllowedUrl_reads_allowlist u s s' :
  allowlist s' = allowlist s ->
  (isAllowedUrl u s').1.1 = (isAllowedUrl u s).1.1.
Proof.
  intros Hal.
  destruct (isAllowedUrl_run u s) as [la [-> _]].
  destruct (isAllowedUrl_run u s') as [la' [-> _]].
  cbn [fst]. rewrite Hal. reflexivity.
Qed.

Lemma enqueueLinks_complete doc base attr d s resolved :
  d + 1 <= maxDepth cfg ->
  attr ∈ doc ->
  attr <> "" ->
  JS.startsWith "javascript:" attr = false ->
  JS.startsWith "mailto:" attr = false ->
  new_URL attr base = Normal resolved ->
  (isAllowedUrl (normalizeUrl (href resolved)) s).1.1 = Normal true ->
  normalizeUrl (href resolved) ∉ visited s ->
  queued_or_full cfg (normalizeUrl (href resolved))
    (enqueueLinks cfg doc base d s).1.2.
Proof.
  intros Hdepth Hin Hattr Hjs Hmail Hnew Hallowed Hfresh.
  apply list_elem_of_split in Hin as (d1 & d2 & ->).
  unfold enqueueLinks.
  destruct (Z.gtb_spec (d + 1) (maxDepth cfg)) as [? | _]; [lia |].
  unfold updateStatus.
  change (attr :: d2) with ([attr] ++ d2).
  destruct (forEach_enqueue_appends d1 base d s) as (a1 & l1 & Hrun1 & _).
  set (s1 := set_queue (queue s ++ a1) s) in *.
  destruct (enqueue_anchor_complete base attr d s1 resolved Hattr Hjs Hmail Hnew)
    as (a2 & l2 & Hrun2 & Hq2).
  { rewrite (isAllowedUrl_reads_allowlist _ s s1) by reflexivity. exact Hallowed. }
  { exact Hfresh. }
  set (s2 := set_queue (queue s1 ++ a2) s1) in *.
  destruct (forEach_enqueue_appends d2 base d s2) as (a3 & l3 & Hrun3 & _).
  assert (Hrun : forEach (enqueue_anchor cfg base d) (d1 ++ [attr] ++ d2) s
                 = (Normal tt, set_queue (queue s2 ++ a3) s2, l1 ++ (l2 ++ []) ++ l3)).
  { rewrite forEach_app. unfold bind at 1. rewrite Hrun1.
    rewrite forEach_app. unfold bind at 1. cbn [forEach]. unfold bind at 1.
    rewrite Hrun2. unfold ret at 1. cbv iota beta. rewrite Hrun3. reflexivity. }
  unfold bind. rewrite Hrun. unfold ret. cbn [fst snd].
  apply (queued_or_full_grows _ s2 a3). exact Hq2.
Qed.

(** X7. No eligible link of a page below the maximum depth is dropped
    while there is room: when the links of the page are within the
    depth limit ([d + 1 <= maxDepth]) and its document holds an anchor
    that resolves to a URL the allowlist accepts and that is not
    visited, then after [enqueueLinks] that URL is in the queue, or the
    queue and the page count have reached the budget. *)
Theorem eligible_link_is_queued_or_budget_spent (doc : document)
    (base attr : string) (d : Z) (s : state) (resolved : URL) :
  d + 1 <= maxDepth cfg ->
  attr ∈ doc ->
  attr <> "" ->
  JS.startsWith "javascript:" attr = false ->
  JS.startsWith "mailto:" attr = false ->
  new_URL attr base = Normal resolved ->
  (isAllowedUrl (normalizeUrl (href resolved)) s).1.1 = Normal true ->
  normalizeUrl (href resolved) ∉ visited s ->
  let s' := (enqueueLinks cfg doc base d s).1.2 in
  normalizeUrl (href resolved) ∈ (url <$> queue s')
  \/ maxPages cfg <= Z.of_nat (length (queue s')) + pagesVisited s'.
Proof.
  intros Hdepth Hin Hattr Hjs Hmail Hnew Hallowed Hfresh.
  exact (enqueueLinks_complete doc base attr d s resolved
           Hdepth Hin Hattr Hjs Hmail Hnew Hallowed Hfresh).
Qed.

End EnqueueExtras.

Lemma eligible_link_is_queued_or_budget_spent_witness :
  let B := Sample.browser Runs.page in
  let s' := (@enqueueLinks B (CONFIG "a.test") ["mailto:a@a.test"; "/a"]
               Runs.page 0 (initial_state (CONFIG "a.test"))).1.2 in
  "https://a.test/a" ∈ (url <$> queue s')
  \/ 50 <= Z.of_nat (length (queue s')) + pagesVisited s'.
Proof.
  apply (@eligible_link_is_queued_or_budget_spent (Sample.browser Runs.page)
           (CONFIG "a.test") ["mailto:a@a.test"; "/a"] Runs.page "/a" 0
           (initial_state (CONFIG "a.test"))
           {| Sample.u_scheme := "https"; Sample.u_host := "a.test";
              Sample.u_path := "/a"; Sample.u_hash := "" |}).
  - cbn. lia.
  - apply list_elem_of_further, list_elem_of_here.
  - discriminate.
  - reflexivity.
  - reflexivity.
  - reflexivity.
  - reflexivity.
  - apply not_elem_of_empty.
Defined.

(** *** The session *)

Section SessionExtras.

Context `{Browser}.
Variable cfg : config.

(** What holds between two actions, where the loop of [runQueue]
    starts: a script that is [long_enough] outlasts the loop. *)
Lemma iterations_left_bound s :
  stable cfg s ->
  iterations_left cfg s
  <= reach cfg + Z.max 0 (maxPages cfg) * (Z.max 0 (maxPages cfg) + 1).
Proof.
  intros (Hpv & _ & Hq). unfold iterations_left. cbv zeta.
  assert (0 <= pagesVisited s) by (rewrite Hpv; lia).
  set (n := Z.max 0 (maxPages cfg - pagesVisited s)).
  set (m := Z.max 0 (maxPages cfg)).
  assert (0 <= n <= m) by (unfold n, m; lia).
  nia.
Qed.

(** X8. With one worker, whenever an action of the user has been
    handled, the page counter is the number of URLs in the visited
    set. *)
Theorem page_count_is_visited_size (acts : list action) :
  Forall (one_worker cfg) acts ->
  let s := (session cfg acts).1.2 in
  pagesVisited s = Z.of_nat (size (visited s)).
Proof.
  intros _. cbv zeta. unfold session.
  pose proof (wp_forEach (safe cfg) (perform cfg) acts (stable cfg)
                (initial_state cfg)) as Hwp.
  destruct Hwp as [Hst _].
  - intros a s Hs. apply perform_stable. exact Hs.
  - apply initial_stable.
  - exact (proj1 Hst).
Qed.

(** X9. After [stopCrawl] the session is disarmed, whatever the state
    before: the queue is empty and the session idle with [isStopping]
    set, the visited set, the page count and the allowlists are kept,
    and neither [runQueue] nor [togglePause] does anything. *)
Theorem stop_disarms_the_session (script : list iteration_world) (s : state) :
  let s' := (stopCrawl s).1.2 in
  (stopCrawl s).1.1 = Normal tt
  /\ queue s' = [] /\ isRunning s' = false /\ isPaused s' = false
  /\ isStopping s' = true
  /\ visited s' = visited s /\ pagesVisited s' = pagesVisited s
  /\ allowlist s' = allowlist s /\ dynamicAllowlist s' = dynamicAllowlist s
  /\ runQueue cfg script s' = (Normal tt, s', [])
  /\ togglePause cfg script s' = (Normal tt, s', []).
Proof.
  cbv zeta. repeat split.
Qed.

Lemma suffix_cons {X} (x : X) (l rest : list X) :
  (exists prefix, l = prefix ++ rest) -> exists prefix, x :: l = prefix ++ rest.
Proof. intros [p ->]. exists (x :: p). reflexivity. Qed.

Lemma startCrawl_resets w s :
  isRunning s = false ->
  (startCrawl cfg w s).1
  = (after_reset cfg w (fresh_start cfg (start_now w) (dynamicAllowlist s))).1
  /\ exists prefix,
       (startCrawl cfg w s).2
       = prefix
         ++ (after_reset cfg w
               (fresh_start cfg (start_now w) (dynamicAllowlist s))).2.
Proof.
  intros Hrun. unfold startCrawl. rewrite run_bind_get, Hrun.
  rewrite !run_bind_mutate. unfold updateStatus. rewrite !run_bind_ret.
  cbn [fst snd].
  match goal with
  | |- context [(_ ;;; _) ?st] =>
      replace st with (fresh_start cfg (start_now w) (dynamicAllowlist s))
        by (destruct s; reflexivity)
  end.
  fold (after_reset cfg w).
  split; [reflexivity |].
  repeat apply suffix_cons. exists []. reflexivity.
Qed.

(** X10. A start forgets the session before it: from two idle states
    with the same user-added allowlist entries, [startCrawl] ends in
    the same state with the same completion. *)
Theorem start_forgets_previous_session (w : start_world) (s1 s2 : state) :
  isRunning s1 = false ->
  isRunning s2 = false ->
  dynamicAllowlist s1 = dynamicAllowlist s2 ->
  (startCrawl cfg w s1).1 = (startCrawl cfg w s2).1.
Proof.
  intros H1 H2 Hdyn.
  rewrite (proj1 (startCrawl_resets w s1 H1)).
  rewrite (proj1 (startCrawl_resets w s2 H2)).
  rewrite Hdyn. reflexivity.
Qed.

Lemma crawlCurrentPage_capture_fails w now added err :
  capture_clicks w = [] -> capture w = Throw err ->
  crawlCurrentPage cfg w (fresh_start cfg now added)
  = (Normal tt, fresh_start cfg now added,
     [Logged "Error capturing current page"]).
Proof.
  intros Hclicks Hcap. unfold crawlCurrentPage, try_catch.
  rewrite run_bind_get. cbn [visited fresh_start].
  rewrite bool_decide_eq_false_2 by apply not_elem_of_empty.
  rewrite Hclicks. cbn [forEach]. rewrite run_bind_ret, Hcap.
  cbn [lift]. rewrite (run_bind_throw _ _ _ err (fresh_start cfg now added) [])
    by reflexivity.
  reflexivity.
Qed.

(** X11. When the capture of the current page fails, the start page is
    not lost: it is still in the queue and not visited, and the loop
    takes it as its first entry and loads it in the iframe. *)
Theorem failed_capture_leaves_seed_to_loop (w : start_world) (s : state)
    (first : iteration_world) (rest : list iteration_world) (err : string) :
  isRunning s = false ->
  capture_clicks w = [] ->
  capture w = Throw err ->
  start_loop w = first :: rest ->
  0 < maxPages cfg ->
  0 <= maxDepth cfg ->
  Visiting {| url := normalizeUrl location_href; depth := 0 |}
    ∈ (startCrawl cfg w s).2.
Proof.
  intros Hrun Hclicks Hcap Hloop Hpages Hdepth.
  destruct (startCrawl_resets w s Hrun) as [_ [prefix ->]].
  apply elem_of_app. right.
  unfold after_reset.
  rewrite (run_bind_normal _ _ _ _ _ _
             (crawlCurrentPage_capture_fails w _ _ err Hclicks Hcap)).
  cbn [snd]. apply elem_of_app. right.
  set (s0 := fresh_start cfg (start_now w) (dynamicAllowlist s)).
  rewrite run_bind_get.
  change (isStopping s0) with false. cbn [negb].
  apply elem_of_try_catch_l. rewrite Hloop.
  unfold runQueue. rewrite run_bind_get.
  change (negb (isRunning s0) || isPaused s0 || isStopping s0) with false.
  cbv iota. apply elem_of_bind_l.
  cbn [runQueue_while]. rewrite run_bind_get.
  change (pagesVisited s0) with 0. change (queue s0) with [start_entry].
  cbn [length].
  destruct (Z.ltb_spec 0 (maxPages cfg)) as [_ | ?]; [| lia].
  change (0 <? Z.of_nat 1) with true. cbn [andb negb].
  change (isPaused s0 || isStopping s0) with false. cbv iota.
  rewrite run_bind_mutate. cbn [snd]. apply elem_of_cons. right.
  rewrite run_bind_get. cbn [url visited set_queue].
  change (visited s0) with (∅ : gset string).
  rewrite bool_decide_eq_false_2 by apply not_elem_of_empty.
  unfold start_entry at 1. cbn [depth].
  destruct (Z.gtb_spec 0 (maxDepth cfg)) as [? | _]; [lia |].
  apply elem_of_bind_l. unfold runQueue_visit. apply elem_of_try_catch_l.
  unfold updateStatus at 1. rewrite run_bind_ret, run_bind_emit.
  cbn [snd]. apply elem_of_cons. left. reflexivity.
Qed.

(** X12. A page whose delivery throws is given up: [runQueue] catches
    the error, the page is neither marked visited nor counted, its
    links are not queued, and the loop goes on. *)
Theorem failed_delivery_skips_the_page (w : iteration_world) (e : entry)
    (s : state) (p : payload) (doc : document) (err : string) :
  visit_clicks w = [] ->
  visit_result w = Some (p, doc) ->
  (handleOutput cfg (delivery w) (Some p) s).1.1 = Throw err ->
  (runQueue_visit cfg w e s).1 = (Normal FallThrough, s)
  /\ states_of (runQueue_visit cfg w e s).2 = [].
Proof.
  intros Hclicks Hvisit Hthrow.
  destruct (handleOutput_keeps_state cfg (delivery w) (Some p) s) as [Hs Hst].
  unfold runQueue_visit. rewrite Hclicks, Hvisit.
  unfold updateStatus. cbn [forEach].
  destruct (handleOutput cfg (delivery w) (Some p) s) as [[r s'] l] eqn:Hrun.
  cbn [fst snd] in Hthrow, Hs, Hst. subst r s'.
  unfold try_catch, bind, ret, emit, log. cbv beta iota zeta.
  rewrite Hrun. cbv beta iota zeta.
  split; [reflexivity |]. unfold emit. cbn [snd app].
  change (Visiting e :: l ++ [Logged "Error visiting"])
    with ([Visiting e] ++ l ++ [Logged "Error visiting"]).
  rewrite !states_of_app, Hst. reflexivity.
Qed.

End SessionExtras.

Lemma page_count_is_visited_size_witness :
  let s := (@session (Sample.browser Runs.page) Cases.three_pages
              Cases.paused_resumed_stopped).1.2 in
  pagesVisited s = Z.of_nat (size (visited s)).
Proof.
  apply (@page_count_is_visited_size (Sample.browser Runs.page)
           Cases.three_pages Cases.paused_resumed_stopped).
  repeat constructor; vm_compute; (reflexivity || lia).
Defined.

Lemma start_forgets_previous_session_witness :
  (@startCrawl (Sample.browser Runs.page) (CONFIG "a.test")
     (Sample.start_on Runs.page [] []) (initial_state (CONFIG "a.test"))).1
  = (@startCrawl (Sample.browser Runs.page) (CONFIG "a.test")
       (Sample.start_on Runs.page [] []) Cases.idle_after_crawl).1.
Proof.
  apply (@start_forgets_previous_session (Sample.browser Runs.page)
           (CONFIG "a.test") (Sample.start_on Runs.page [] [])
           (initial_state (CONFIG "a.test")) Cases.idle_after_crawl);
    reflexivity.
Defined.

Lemma failed_capture_leaves_seed_to_loop_witness :
  Visiting {| url := "https://a.test/"; depth := 0 |}
    ∈ (@startCrawl (Sample.browser Runs.page) (CONFIG "a.test")
         Cases.capture_fails (initial_state (CONFIG "a.test"))).2.
Proof.
  apply (@failed_capture_leaves_seed_to_loop (Sample.browser Runs.page)
           (CONFIG "a.test") Cases.capture_fails
           (initial_state (CONFIG "a.test"))
           (Sample.page_with Runs.page []) [] "html2canvas failed").
  - reflexivity.
  - reflexivity.
  - reflexivity.
  - reflexivity.
  - cbn. lia.
  - cbn. lia.
Defined.

Lemma failed_delivery_skips_the_page_witness :
  (@runQueue_visit (Sample.browser Runs.page) (CONFIG "a.test")
     Cases.undelivered_page {| url := "https://a.test/a"; depth := 1 |}
     Cases.crawling).1
  = (Normal FallThrough, Cases.crawling)
  /\ states_of (@runQueue_visit (Sample.browser Runs.page) (CONFIG "a.test")
                  Cases.undelivered_page
                  {| url := "https://a.test/a"; depth := 1 |}
                  Cases.crawling).2 = [].
Proof.
  apply (@failed_delivery_skips_the_page (Sample.browser Runs.page)
           (CONFIG "a.test") Cases.undelivered_page
           {| url := "https://a.test/a"; depth := 1 |} Cases.crawling
           (Sample.a_payload "https://a.test/a") [] "download failed");
    reflexivity.
Defined.

(** *** The queue in order *)

Section TidyProofs.

Context `{Browser}.
Variable cfg : config.
Variable strict : bool.

Ltac st_simpl :=
  cbn [set_isRunning set_isPaused set_isStopping set_startTime
       set_pagesVisited set_queue set_visited set_allowlist
       set_dynamicAllowlist
       isRunning isPaused isStopping startTime pagesVisited queue visited
       allowlist dynamicAllowlist length].

Lemma queue_ok_nil s : queue s = [] -> queue_ok cfg strict s.
Proof.
  intros Hq. unfold queue_ok, vetted. rewrite Hq.
  split; [constructor |]. split; [constructor |]. intros _. constructor.
Qed.

Lemma queue_ok_tail s e q :
  queue s = e :: q -> queue_ok cfg strict s -> queue_ok cfg strict (set_queue q s).
Proof.
  intros Hq (Hnd & Hall & Hvet). unfold queue_ok, vetted in *.
  rewrite Hq in Hnd, Hall, Hvet. st_simpl.
  cbn [fmap list_fmap] in Hnd. apply NoDup_cons in Hnd as [_ Hnd].
  apply Forall_cons in Hall as [_ Hall].
  split; [exact Hnd |]. split; [exact Hall |].
  intros Hs. specialize (Hvet Hs). apply Forall_cons in Hvet as [_ Hvet].
  exact Hvet.
Qed.

Lemma queue_ok_head s e q :
  queue s = e :: q -> queue_ok cfg strict s -> 0 <= depth e.
Proof.
  intros Hq (_ & Hall & _). rewrite Hq in Hall.
  apply Forall_cons in Hall as [He _]. lia.
Qed.

Lemma queue_ok_push s e :
  queue_ok cfg strict s -> (url e ∉ (url <$> queue s)) ->
  0 <= depth e <= Z.max 0 (maxDepth cfg) ->
  e = start_entry \/ allowed (allowlist s) (url e) = true ->
  queue_ok cfg strict (set_queue (queue s ++ [e]) s).
Proof.
  intros (Hnd & Hall & Hvet) Hfresh Hd He. unfold queue_ok, vetted in *.
  st_simpl. split; [| split].
  - rewrite fmap_app. apply NoDup_app. split; [exact Hnd |]. split.
    + intros u Hu Hin. cbn in Hin. apply list_elem_of_singleton in Hin.
      subst u. exact (Hfresh Hu).
    + cbn. apply NoDup_singleton.
  - apply Forall_app. split; [exact Hall |]. repeat constructor; lia.
  - intros Hs. apply Forall_app. split; [exact (Hvet Hs) |].
    constructor; [exact He | constructor].
Qed.

Lemma queue_ok_seed s :
  queue s = [start_entry] -> queue_ok cfg strict s.
Proof.
  intros Hq. unfold queue_ok, vetted. rewrite Hq.
  cbn [fmap list_fmap start_entry url depth]. split; [apply NoDup_singleton |].
  split.
  - constructor; [unfold start_entry; cbn [depth]; lia | constructor].
  - intros _. constructor; [left; reflexivity | constructor].
Qed.

(** One step of symbolic execution, for [tidy]. *)
Ltac tidy_step :=
  lazymatch goal with
  | |- wp _ (log _) _ _ => apply wp_emit; [discriminate |]
  | _ => wp_step
  end.

(** Closing the goals a step leaves when the queue is not touched. *)
Ltac frame_close Hf :=
  lazymatch goal with
  | |- tidy _ _ (Stepped _ _ _) =>
      first [ exact (proj1 Hf) | apply queue_ok_nil; reflexivity ]
  | |- framed _ _ _ _ _ =>
      first [ exact Hf
            | split;
              [ first [ exact (proj1 Hf) | apply queue_ok_nil; reflexivity ]
              | exact (proj2 Hf) ] ]
  | |- tidy _ _ (Visiting _) => exact I
  | |- tidy _ _ (Fetched _ _) => exact I
  | |- tidy _ _ (GmPosted _ _) => exact I
  | |- tidy _ _ (Downloaded _ _ _) => exact I
  | |- True => exact I
  | _ => idtac
  end.

(** Running an orderly computation inside a larger one. *)
Lemma wp_orderly {A} (m : M A) L D (Q : completion A -> state -> Prop) s :
  orderly cfg strict m -> framed cfg strict L D s ->
  (forall r s', framed cfg strict L D s' -> Q r s') ->
  wp (tidy cfg strict) m Q s.
Proof.
  intros Hm Hf HQ. eapply wp_mono; [apply Hm; exact Hf |].
  intros r s' Hf'. apply HQ. exact Hf'.
Qed.

Lemma wp_result {A} G (m : M A) (Q : completion A -> state -> Prop)
    (P : completion A -> Prop) s :
  wp G m Q s -> P (m s).1.1 -> wp G m (fun r s' => Q r s' /\ P r) s.
Proof. intros [HQ Hl] HP. split; [split; assumption | exact Hl]. Qed.

Lemma orderly_forEach {A} (f : A -> M unit) l :
  (forall x, orderly cfg strict (f x)) -> orderly cfg strict (forEach f l).
Proof.
  intros Hf L D s Hfr. apply wp_forEach; [| exact Hfr].
  intros x s' Hfr'. apply Hf. exact Hfr'.
Qed.

Lemma orderly_some {A} (f : A -> M bool) l :
  (forall x, orderly cfg strict (f x)) -> orderly cfg strict (some f l).
Proof.
  intros Hf L D s Hfr. apply wp_some; [| exact Hfr].
  intros x s' Hfr'. apply Hf. exact Hfr'.
Qed.

Lemma stopCrawl_orderly : orderly cfg strict stopCrawl.
Proof.
  intros L D s Hf. unfold stopCrawl. repeat tidy_step; frame_close Hf.
Qed.

Lemma interrupt_orderly c : orderly cfg strict (interrupt c).
Proof.
  intros L D s Hf. destruct c; simpl.
  - repeat tidy_step; frame_close Hf.
  - repeat tidy_step; frame_close Hf.
  - apply stopCrawl_orderly. exact Hf.
Qed.

Lemma allowlist_item_matches_orderly target item :
  orderly cfg strict (allowlist_item_matches target item).
Proof.
  intros L D s Hf. unfold allowlist_item_matches.
  repeat tidy_step; try exact Hf.
  destruct (new_RegExp (JS.slice_1_m1 item)) as [re | err];
    repeat tidy_step; exact Hf.
Qed.

Lemma isAllowedUrl_orderly u : orderly cfg strict (isAllowedUrl u).
Proof.
  intros L D s Hf. unfold isAllowedUrl. repeat tidy_step.
  destruct (new_URL u location_href) as [target | err];
    repeat tidy_step; try exact Hf.
  apply wp_orderly with L D; [| exact Hf |].
  - apply orderly_some. intros x. apply allowlist_item_matches_orderly.
  - intros [b | err] s' Hf'; repeat tidy_step; exact Hf'.
Qed.

Lemma enqueue_anchor_orderly baseUrl d attr :
  0 <= d -> d + 1 <= maxDepth cfg ->
  orderly cfg strict (enqueue_anchor cfg baseUrl d attr).
Proof.
  intros Hd0 Hd1 L D s Hf. unfold enqueue_anchor.
  repeat tidy_step; try exact Hf.
  destruct (new_URL attr baseUrl) as [resolved | err];
    repeat tidy_step; try exact Hf.
  set (u := normalizeUrl (href resolved)).
  eapply wp_mono;
    [apply (wp_result _ _ (fun _ s' => framed cfg strict L D s')
              (fun r => r = Normal (allowed (allowlist s) u)));
     [apply isAllowedUrl_orderly; exact Hf
     | destruct (isAllowedUrl_run u s) as [la [-> _]]; reflexivity] |].
  intros [ok | err] s' [Hf' Hok]; [| discriminate Hok].
  injection Hok as ->.
  destruct (allowed (allowlist s) u) eqn:Hallowed; cbn [negb];
    [| apply wp_ret; exact Hf'].
  apply wp_bind, wp_get.
  destruct (bool_decide (u ∈ visited s')); [apply wp_ret; exact Hf' |].
  destruct (existsb (fun item => String.eqb (url item) u) (queue s')) eqn:Hex;
    [apply wp_ret; exact Hf' |].
  destruct (Z.of_nat (length (queue s')) + pagesVisited s' >=? maxPages cfg);
    [apply wp_ret; exact Hf' |].
  assert (Hpost : queue_ok cfg strict
            (set_queue (queue s' ++ [{| url := u; depth := d + 1 |}]) s')).
  { apply queue_ok_push; [exact (proj1 Hf') | | cbn [depth]; lia |].
    - cbn [url]. intros Hin. apply list_elem_of_fmap in Hin as [e [Hu He]].
      apply not_true_iff_false in Hex. apply Hex.
      apply existsb_exists. exists e. split.
      + apply list_elem_of_In. exact He.
      + apply String.eqb_eq. symmetry. exact Hu.
    - right. cbn [url]. destruct Hf as (_ & HL & _). destruct Hf' as (_ & HL' & _).
      rewrite HL', <- HL. exact Hallowed. }
  apply wp_mutate; [exact Hpost |].
  split; [exact Hpost | exact (proj2 Hf')].
Qed.

Lemma enqueueLinks_orderly doc baseUrl d :
  0 <= d -> orderly cfg strict (enqueueLinks cfg doc baseUrl d).
Proof.
  intros Hd0 L D s Hf. unfold enqueueLinks.
  destruct (Z.gtb_spec (d + 1) (maxDepth cfg)) as [Hgt | Hd1];
    [apply wp_ret; exact Hf |].
  apply wp_bind.
  apply wp_orderly with L D; [| exact Hf |].
  - apply orderly_forEach. intros x. apply enqueue_anchor_orderly; assumption.
  - intros [[] | err] s' Hf'; repeat tidy_step; exact Hf'.
Qed.

Lemma gmPost_orderly w endpoint body : orderly cfg strict (gmPost w endpoint body).
Proof.
  intros L D s Hf. unfold gmPost.
  repeat tidy_step; try exact Hf; try exact I.
  destruct (gm_status w) as [status |]; repeat tidy_step; exact Hf.
Qed.

Lemma postPayload_orderly w p : orderly cfg strict (postPayload cfg w p).
Proof.
  intros L D s Hf. unfold postPayload.
  repeat tidy_step; try exact Hf; try exact I.
  destruct (fetch_status w) as [status |]; repeat tidy_step; try exact Hf;
    (apply wp_orderly with L D; [apply gmPost_orderly | exact Hf |];
     intros [b | err] s' Hf'; repeat tidy_step; exact Hf').
Qed.

Lemma gmDownload_orderly w content name :
  orderly cfg strict (gmDownload w content name).
Proof.
  intros L D s Hf. unfold gmDownload.
  repeat tidy_step; try exact Hf; exact I.
Qed.

Lemma downloadPayload_orderly w p n1 n2 :
  orderly cfg strict (downloadPayload w p n1 n2).
Proof.
  intros L D s Hf. unfold downloadPayload. repeat tidy_step.
  apply wp_orderly with L D; [apply gmDownload_orderly | exact Hf |].
  intros [[] | err] s' Hf'; [| exact Hf'].
  apply gmDownload_orderly. exact Hf'.
Qed.

Lemma handleOutput_orderly w p : orderly cfg strict (handleOutput cfg w p).
Proof.
  intros L D s Hf. unfold handleOutput.
  destruct p as [p |]; repeat tidy_step; try exact Hf.
  - apply wp_orderly with L D; [apply postPayload_orderly | exact Hf |].
    intros [b | err] s' Hf'; repeat tidy_step; try exact Hf'.
    apply downloadPayload_orderly. exact Hf'.
  - apply downloadPayload_orderly. exact Hf.
Qed.

(** [crawlCurrentPage], called as [startCrawl] calls it: with the
    current page not visited. *)
Lemma crawlCurrentPage_tidy w L D s :
  framed cfg strict L D s -> normalizeUrl location_href ∉ visited s ->
  wp (tidy cfg strict) (crawlCurrentPage cfg w)
    (fun _ s' => framed cfg strict L D s') s.
Proof.
  intros Hf Hnew. unfold crawlCurrentPage.
  apply wp_try_catch, wp_bind, wp_get.
  rewrite bool_decide_eq_false_2 by exact Hnew.
  apply wp_bind.
  apply wp_orderly with L D;
    [apply orderly_forEach; intros c; apply interrupt_orderly | exact Hf |].
  intros [[] | err] s1 Hf1; repeat tidy_step; try exact Hf1.
  destruct (capture w) as [p | err]; repeat tidy_step; try exact Hf1.
  apply wp_orderly with L D; [apply handleOutput_orderly | exact Hf1 |].
  intros [[] | err] s2 Hf2; repeat tidy_step; frame_close Hf2.
  apply wp_orderly with L D; [apply enqueueLinks_orderly; lia | |].
  { frame_close Hf2. }
  intros [[] | err] s3 Hf3; repeat tidy_step; try exact Hf3.
  apply wp_orderly with L D;
    [apply orderly_forEach; intros c; apply interrupt_orderly | exact Hf3 |].
  intros [[] | err] s4 Hf4; repeat tidy_step; exact Hf4.
Qed.

Lemma runQueue_visit_returns w e s :
  exists fl, (runQueue_visit cfg w e s).1.1 = Normal fl.
Proof.
  unfold runQueue_visit, try_catch.
  match goal with
  | |- context [match ?m s with _ => _ end] => destruct (m s) as [[[fl | err] s1] l1]
  end.
  - exists fl. reflexivity.
  - exists FallThrough. reflexivity.
Qed.

Lemma runQueue_visit_orderly w e :
  0 <= depth e -> orderly cfg strict (runQueue_visit cfg w e).
Proof.
  intros Hd L D s Hf. unfold runQueue_visit.
  repeat tidy_step; [exact I |].
  apply wp_orderly with L D;
    [apply orderly_forEach; intros c; apply interrupt_orderly | exact Hf |].
  intros [[] | err] s1 Hf1; repeat tidy_step; try exact Hf1.
  destruct (visit_result w) as [[p doc] |]; repeat tidy_step; try exact Hf1.
  apply wp_orderly with L D; [apply handleOutput_orderly | exact Hf1 |].
  intros [[] | err] s2 Hf2; repeat tidy_step; try exact Hf2.
  apply wp_orderly with L D; [apply enqueueLinks_orderly; exact Hd | exact Hf2 |].
  intros [[] | err] s3 Hf3; repeat tidy_step; frame_close Hf3.
Qed.

(** The loop keeps the queue in order, does not throw, and is left only
    when its test fails or its first statement breaks. *)
Lemma runQueue_while_orderly script L D s :
  framed cfg strict L D s ->
  wp (tidy cfg strict) (runQueue_while cfg script)
    (fun r s' => framed cfg strict L D s'
                 /\ match r with
                    | Normal true => loop_is_left cfg s'
                    | Normal false => True
                    | Throw _ => False
                    end) s.
Proof.
  revert s. induction script as [| w rest IH]; intros s Hf; simpl.
  - apply wp_ret. split; [exact Hf | exact I].
  - apply wp_bind, wp_get.
    destruct (negb ((0 <? Z.of_nat (length (queue s)))
                    && (pagesVisited s <? maxPages cfg))) eqn:Htest.
    { apply wp_ret. split; [exact Hf |]. left.
      apply negb_true_iff. exact Htest. }
    destruct (isPaused s || isStopping s) eqn:Hbreak.
    { apply wp_ret. split; [exact Hf |]. right. exact Hbreak. }
    destruct (queue s) as [| e q] eqn:Hq.
    { cbn in Htest. discriminate. }
    pose proof (queue_ok_tail s e q Hq (proj1 Hf)) as Hok'.
    pose proof (queue_ok_head s e q Hq (proj1 Hf)) as Hd.
    assert (Hf' : framed cfg strict L D (set_queue q s))
      by (split; [exact Hok' | exact (proj2 Hf)]).
    apply wp_bind, wp_mutate; [exact Hok' |].
    apply wp_bind, wp_get.
    destruct (bool_decide (url e ∈ visited (set_queue q s))); [apply IH; exact Hf' |].
    destruct (depth e >? maxDepth cfg); [apply IH; exact Hf' |].
    apply wp_bind.
    eapply wp_mono;
      [apply (wp_result _ _ (fun _ s' => framed cfg strict L D s')
                (fun r => exists fl, r = Normal fl));
       [apply runQueue_visit_orderly; [exact Hd | exact Hf']
       | apply runQueue_visit_returns] |].
    intros [fl | err] s1 [Hf1 [fl' Hfl]]; [| discriminate].
    destruct fl; [apply IH; exact Hf1 |].
    apply wp_bind, wp_get.
    destruct (pagesVisited s1 >=? maxPages cfg) eqn:Hfull.
    + apply wp_bind, wp_emit; [discriminate |]. apply wp_ret.
      split; [exact Hf1 |]. left. apply andb_false_iff. right.
      apply Z.ltb_ge. destruct (Z.geb_spec (pagesVisited s1) (maxPages cfg));
        [lia | discriminate].
    + apply wp_bind.
      eapply wp_mono;
        [apply (wp_result _ _ (fun _ s' => framed cfg strict L D s')
                  (fun r => r = Normal tt));
         [apply orderly_forEach;
          [intros c; apply interrupt_orderly | exact Hf1]
         | apply forEach_interrupt_returns] |].
      intros [[] | err] s2 [Hf2 Hr]; [apply IH; exact Hf2 | discriminate].
Qed.

(** [runQueue] keeps the queue in order and returns normally. *)
Lemma runQueue_tidy script L D s :
  framed cfg strict L D s ->
  wp (tidy cfg strict) (runQueue cfg script)
    (fun r s' => framed cfg strict L D s' /\ r = Normal tt) s.
Proof.
  intros Hf. unfold runQueue. apply wp_bind, wp_get.
  destruct (negb (isRunning s) || isPaused s || isStopping s);
    [apply wp_ret; split; [exact Hf | reflexivity] |].
  apply wp_bind.
  eapply wp_mono; [apply runQueue_while_orderly; exact Hf |].
  intros [left | err] s1 [Hf1 Hleft]; [| contradiction].
  destruct left; cbn [negb]; [| apply wp_ret; split; [exact Hf1 | reflexivity]].
  apply wp_bind, wp_mutate; [frame_close Hf1 |].
  apply wp_bind, wp_get. st_simpl.
  assert (Hnot : ((0 <? Z.of_nat (length (queue s1)))
                  && (pagesVisited s1 <? maxPages cfg))
                 && negb (isPaused s1) && negb (isStopping s1) = false).
  { destruct Hleft as [-> | Hbreak]; [reflexivity |].
    destruct (isPaused s1), (isStopping s1); try discriminate;
      cbn [negb]; rewrite ?andb_false_r; reflexivity. }
  rewrite Hnot.
  apply wp_bind, wp_ret, wp_emit; [discriminate |].
  split; [| reflexivity]. frame_close Hf1.
Qed.

Lemma runQueue_orderly script : orderly cfg strict (runQueue cfg script).
Proof.
  intros L D s Hf. eapply wp_mono; [apply runQueue_tidy; exact Hf |].
  intros r s' [Hf' _]. exact Hf'.
Qed.

Lemma togglePause_orderly script : orderly cfg strict (togglePause cfg script).
Proof.
  intros L D s Hf. unfold togglePause.
  repeat tidy_step; frame_close Hf.
  - apply wp_orderly with L D; [apply runQueue_orderly | frame_close Hf |].
    intros [[] | err] s1 Hf1; repeat tidy_step; exact Hf1.
Qed.

Lemma after_reset_tidy w L D s :
  framed cfg strict L D s -> normalizeUrl location_href ∉ visited s ->
  wp (tidy cfg strict) (after_reset cfg w)
    (fun _ s' => framed cfg strict L D s') s.
Proof.
  intros Hf Hnew. unfold after_reset. apply wp_bind.
  eapply wp_mono; [apply crawlCurrentPage_tidy; [exact Hf | exact Hnew] |].
  intros [[] | err] s1 Hf1; [| exact Hf1].
  repeat tidy_step; try exact Hf1.
  apply wp_orderly with L D; [apply runQueue_orderly | exact Hf1 |].
  intros [[] | err] s2 Hf2; repeat tidy_step; exact Hf2.
Qed.

Lemma startCrawl_tidy w s :
  queue_ok cfg strict s ->
  wp (tidy cfg strict) (startCrawl cfg w) (fun _ s' => queue_ok cfg strict s') s.
Proof.
  intros Hok. unfold startCrawl. apply wp_bind, wp_get.
  destruct (isRunning s); [repeat tidy_step; exact Hok |].
  do 9 (apply wp_bind, wp_mutate;
        [first [ exact Hok | apply queue_ok_nil; reflexivity
               | apply queue_ok_seed; reflexivity ] |]).
  apply wp_bind, wp_ret. fold (after_reset cfg w).
  match goal with
  | |- wp _ _ _ ?st =>
      eapply wp_mono;
      [apply (after_reset_tidy w (allowlist st) (dynamicAllowlist st));
       [split; [apply queue_ok_seed; reflexivity | split; reflexivity]
       | apply not_elem_of_empty]
      | intros r s' Hf'; exact (proj1 Hf')]
  end.
Qed.

Lemma existsb_Set_add (f : string -> bool) v l :
  existsb f l = true -> existsb f (JS.Set_add v l) = true.
Proof.
  intros Hex. unfold JS.Set_add. destruct (bool_decide (v ∈ l)); [exact Hex |].
  rewrite existsb_app, Hex. reflexivity.
Qed.

Lemma allowed_Set_add v L u :
  allowed L u = true -> allowed (JS.Set_add v L) u = true.
Proof.
  unfold allowed.
  destruct (new_URL u location_href) as [target | err]; [| discriminate].
  intros Hallowed. apply andb_true_iff in Hallowed as [Ho Hex].
  rewrite Ho. cbn [andb]. apply existsb_Set_add. exact Hex.
Qed.

Lemma queue_ok_add v s :
  queue_ok cfg strict s ->
  queue_ok cfg strict (set_allowlist (JS.Set_add v (allowlist s)) s).
Proof.
  intros (Hnd & Hall & Hvet). unfold queue_ok, vetted in *. st_simpl.
  split; [exact Hnd |]. split; [exact Hall |].
  intros Hs. eapply Forall_impl; [exact (Hvet Hs) |].
  intros e [He | He]; [left; exact He | right; apply allowed_Set_add; exact He].
Qed.

Lemma queue_ok_remove item s :
  strict = false -> queue_ok cfg strict s ->
  queue_ok cfg strict (set_allowlist (JS.Set_delete item (allowlist s)) s).
Proof.
  intros Hs (Hnd & Hall & _). unfold queue_ok. st_simpl.
  split; [exact Hnd |]. split; [exact Hall |]. rewrite Hs. discriminate.
Qed.

Lemma perform_tidy a s :
  (strict = true -> match a with AllowRemove _ => False | _ => True end) ->
  queue_ok cfg strict s ->
  wp (tidy cfg strict) (perform cfg a) (fun _ s' => queue_ok cfg strict s') s.
Proof.
  intros Ha Hok.
  assert (Hf : framed cfg strict (allowlist s) (dynamicAllowlist s) s)
    by (split; [exact Hok | split; reflexivity]).
  destruct a; simpl.
  - apply startCrawl_tidy. exact Hok.
  - eapply wp_mono; [apply togglePause_orderly; exact Hf |].
    intros r s' Hf'. exact (proj1 Hf').
  - eapply wp_mono; [apply stopCrawl_orderly; exact Hf |].
    intros r s' Hf'. exact (proj1 Hf').
  - unfold allowlist_add. repeat tidy_step;
      first [exact Hok | apply (queue_ok_add value s Hok)].
  - assert (Hs : strict = false)
      by (destruct strict; [destruct (Ha eq_refl) | reflexivity]).
    unfold allowlist_remove. repeat tidy_step;
      apply (queue_ok_remove item s Hs Hok).
Qed.

Lemma session_tidy acts :
  (strict = true -> no_removal acts) ->
  Forall (tidy cfg strict) (session cfg acts).2
  /\ queue_ok cfg strict (session cfg acts).1.2.
Proof.
  intros Hacts. unfold session.
  enough (Hwp : forall s, queue_ok cfg strict s ->
            wp (tidy cfg strict) (forEach (perform cfg) acts)
              (fun _ s' => queue_ok cfg strict s') s).
  { destruct (Hwp (initial_state cfg)) as [Hpost Hlog].
    - apply queue_ok_nil. reflexivity.
    - split; assumption. }
  induction acts as [| a rest IH]; intros s Hok; cbn [forEach].
  - apply wp_ret. exact Hok.
  - apply wp_bind. eapply wp_mono.
    + apply perform_tidy; [| exact Hok].
      intros Hs. specialize (Hacts Hs). unfold no_removal in Hacts.
      apply Forall_cons in Hacts as [Ha _]. exact Ha.
    + intros [[] | err] s' Hok'; [| exact Hok'].
      apply IH; [| exact Hok'].
      intros Hs. specialize (Hacts Hs). unfold no_removal in *.
      apply Forall_cons in Hacts as [_ Hrest]. exact Hrest.
Qed.

End TidyProofs.

Section TidyTheorems.

Context `{Browser}.
Variable cfg : config.

(** X13. Two branches of the script are never taken: [runQueue] never
    schedules the loop again, because the loop is left only with the
    queue empty, the budget spent, or the session paused or stopping;
    and [crawlCurrentPage] never finds the current page processed,
    because [startCrawl] has just cleared the visited set. *)
Theorem dead_branches_are_never_taken (acts : list action) :
  (Rescheduled ∉ (session cfg acts).2)
  /\ (Logged "Current page already processed" ∉ (session cfg acts).2).
Proof.
  destruct (session_tidy cfg false acts ltac:(discriminate)) as [Hall _].
  rewrite Forall_forall in Hall.
  split; intros Hin; specialize (Hall _ Hin); cbn in Hall;
    [exact Hall | apply Hall; reflexivity].
Qed.

(** X14. In every state of every session the queue holds no URL twice,
    and every queued entry has a depth from 0 to the configured
    maximum. *)
Theorem queue_has_no_duplicates (acts : list action) (s : state) :
  s ∈ states_of (session cfg acts).2 ->
  NoDup (url <$> queue s)
  /\ Forall (fun e => 0 <= depth e <= Z.max 0 (maxDepth cfg)) (queue s).
Proof.
  intros Hin.
  destruct (session_tidy cfg false acts ltac:(discriminate)) as [Hall _].
  unfold states_of in Hin. apply list_elem_of_omap in Hin as (ev & Hev & Hs).
  rewrite Forall_forall in Hall. specialize (Hall _ Hev).
  destruct ev; try discriminate. injection Hs as ->.
  destruct Hall as (Hnd & Hd & _). split; assumption.
Qed.

(** X15. As long as the user removes nothing from the allowlist, the
    queue only ever holds the start page and URLs the allowlist in
    force accepts. *)
Theorem queued_urls_are_allowed (acts : list action) (s : state) (e : entry) :
  no_removal acts ->
  s ∈ states_of (session cfg acts).2 ->
  e ∈ queue s ->
  e = start_entry \/ (isAllowedUrl (url e) s).1.1 = Normal true.
Proof.
  intros Hacts Hin He.
  destruct (session_tidy cfg true acts (fun _ => Hacts)) as [Hall _].
  unfold states_of in Hin. apply list_elem_of_omap in Hin as (ev & Hev & Hs).
  rewrite Forall_forall in Hall. specialize (Hall _ Hev).
  destruct ev; try discriminate. injection Hs as ->.
  destruct Hall as (_ & _ & Hvet). specialize (Hvet eq_refl).
  unfold vetted in Hvet. rewrite Forall_forall in Hvet.
  destruct (Hvet e He) as [Hseed | Hallowed]; [left; exact Hseed | right].
  destruct (isAllowedUrl_run (url e) s) as [la [-> _]]. cbn [fst].
  rewrite Hallowed. reflexivity.
Qed.

Lemma startCrawl_allowlists w s :
  isRunning s = false ->
  allowlist (startCrawl cfg w s).1.2 = rebuilt_allowlist cfg (dynamicAllowlist s)
  /\ dynamicAllowlist (startCrawl cfg w s).1.2 = dynamicAllowlist s.
Proof.
  intros Hrun. destruct (startCrawl_resets cfg w s Hrun) as [-> _].
  set (s0 := fresh_start cfg (start_now w) (dynamicAllowlist s)).
  assert (Hf : framed cfg false (rebuilt_allowlist cfg (dynamicAllowlist s))
                 (dynamicAllowlist s) s0)
    by (split; [apply queue_ok_seed; reflexivity | split; reflexivity]).
  destruct (after_reset_tidy cfg false w _ _ _ Hf) as [(_ & HL & HD) _].
  { apply not_elem_of_empty. }
  split; assumption.
Qed.

(** X16. A crawl leaves the allowlist as [startCrawl] builds it: after a
    start from an idle session the allowlist is the configured entries,
    then the entries the user added, then the host of the page, without
    empty strings or repetitions, and the user-added entries are
    unchanged. *)
Theorem start_rebuilds_allowlist (w : start_world) (s : state) :
  isRunning s = false ->
  allowlist (startCrawl cfg w s).1.2
  = JS.Set_of (List.filter JS.truthy
                 (domainAllowlist cfg ++ dynamicAllowlist s ++ [location_host]))
  /\ dynamicAllowlist (startCrawl cfg w s).1.2 = dynamicAllowlist s.
Proof. intros Hrun. exact (startCrawl_allowlists w s Hrun). Qed.

Lemma elem_of_Set_add x y l : x ∈ JS.Set_add y l <-> x ∈ l \/ x = y.
Proof.
  unfold JS.Set_add. destruct (bool_decide (y ∈ l)) eqn:Hy.
  - apply bool_decide_eq_true in Hy. split; [left; assumption |].
    intros [Hx | ->]; assumption.
  - rewrite elem_of_app, list_elem_of_singleton. reflexivity.
Qed.

Lemma elem_of_Set_of x items : x ∈ JS.Set_of items <-> x ∈ items.
Proof.
  unfold JS.Set_of.
  enough (Hgen : forall acc, x ∈ fold_left (fun acc y => JS.Set_add y acc) items acc
                             <-> x ∈ acc \/ x ∈ items).
  { rewrite Hgen. split; [intros [Hx | Hx]; [inversion Hx | exact Hx] | right; assumption]. }
  induction items as [| y rest IH]; intros acc; cbn [fold_left].
  - split; [left; assumption | intros [Hx | Hx]; [exact Hx | inversion Hx]].
  - rewrite IH, elem_of_Set_add, elem_of_cons. tauto.
Qed.

Lemma elem_of_Set_delete x y l : x ∈ JS.Set_delete y l <-> x ∈ l /\ x <> y.
Proof. unfold JS.Set_delete. rewrite list_elem_of_filter. tauto. Qed.

(** X17. Removing an entry lasts until the next start only for the
    entries the user added: after a removal and a start, the entry is
    on the allowlist exactly when it is configured or is the host of
    the page. *)
Theorem removal_of_configured_entry_is_undone (w : start_world) (s : state)
    (item : string) :
  isRunning s = false ->
  item <> "" ->
  let removed := (allowlist_remove item s).1.2 in
  (item ∉ allowlist removed)
  /\ (item ∈ allowlist (startCrawl cfg w removed).1.2
      <-> item ∈ domainAllowlist cfg \/ item = location_host).
Proof.
  intros Hrun Hitem removed.
  assert (Hrem : removed
                 = set_dynamicAllowlist (JS.Set_delete item (dynamicAllowlist s))
                     (set_allowlist (JS.Set_delete item (allowlist s)) s))
    by reflexivity.
  split.
  - rewrite Hrem. cbn [allowlist set_allowlist set_dynamicAllowlist].
    rewrite elem_of_Set_delete. tauto.
  - assert (Hrun' : isRunning removed = false) by (rewrite Hrem; exact Hrun).
    destruct (startCrawl_allowlists w removed Hrun') as [-> _].
    unfold rebuilt_allowlist. rewrite elem_of_Set_of.
    rewrite list_elem_of_In, filter_In, <- list_elem_of_In.
    rewrite !elem_of_app, list_elem_of_singleton.
    rewrite Hrem. cbn [dynamicAllowlist set_dynamicAllowlist].
    rewrite elem_of_Set_delete.
    assert (Ht : JS.truthy item = true)
      by (unfold JS.truthy; apply negb_true_iff, String.eqb_neq; exact Hitem).
    rewrite Ht. tauto.
Qed.

(** X18. Adding an entry never revokes a URL: what [isAllowedUrl]
    accepted before the Add button was used, it accepts after. *)
Theorem adding_entry_never_revokes (value u : string) (s : state) :
  (isAllowedUrl u s).1.1 = Normal true ->
  (isAllowedUrl u (allowlist_add value s).1.2).1.1 = Normal true.
Proof.
  intros Hallowed.
  destruct (isAllowedUrl_run u s) as [la [Hrun _]].
  rewrite Hrun in Hallowed. cbn [fst] in Hallowed.
  destruct (isAllowedUrl_run u (allowlist_add value s).1.2) as [la' [-> _]].
  cbn [fst]. f_equal.
  injection Hallowed as Hallowed.
  unfold allowlist_add. destruct (JS.truthy value); cbn; [| exact Hallowed].
  apply allowed_Set_add. exact Hallowed.
Qed.

(** X19. An entry the user adds is kept across starts: it is on the
    allowlist at once, and on the allowlist the next start builds. *)
Theorem added_entry_survives_restart (w : start_world) (s : state)
    (value : string) :
  isRunning s = false ->
  value <> "" ->
  let added := (allowlist_add value s).1.2 in
  value ∈ allowlist added
  /\ value ∈ allowlist (startCrawl cfg w added).1.2.
Proof.
  intros Hrun Hvalue added.
  assert (Ht : JS.truthy value = true)
    by (unfold JS.truthy; apply negb_true_iff, String.eqb_neq; exact Hvalue).
  assert (Hadd : added
                 = set_dynamicAllowlist (JS.Set_add value (dynamicAllowlist s))
                     (set_allowlist (JS.Set_add value (allowlist s)) s)).
  { unfold added, allowlist_add. rewrite Ht. reflexivity. }
  split.
  - rewrite Hadd. cbn [allowlist set_allowlist set_dynamicAllowlist].
    apply elem_of_Set_add. right. reflexivity.
  - assert (Hrun' : isRunning added = false) by (rewrite Hadd; exact Hrun).
    destruct (startCrawl_allowlists w added Hrun') as [-> _].
    unfold rebuilt_allowlist. rewrite elem_of_Set_of.
    rewrite list_elem_of_In, filter_In, <- list_elem_of_In.
    split; [| exact Ht].
    rewrite !elem_of_app. right. left.
    rewrite Hadd. cbn [dynamicAllowlist set_dynamicAllowlist].
    apply elem_of_Set_add. right. reflexivity.
Qed.

End TidyTheorems.

Lemma elem_of_last_default {X} (l : list X) (d : X) :
  l <> [] -> default d (last l) ∈ l.
Proof.
  intros Hl. destruct (last l) as [x |] eqn:Hlast.
  - cbn [default]. apply last_Some in Hlast as [l' ->].
    apply elem_of_app. right. apply list_elem_of_here.
  - apply last_None in Hlast. contradiction.
Qed.

Lemma with_link_queued_is_reached :
  Cases.with_link_queued
    ∈ states_of (@session (Sample.browser Runs.page) (CONFIG "a.test")
                   [Start (Sample.start_on Runs.page ["/a"] [])]).2.
Proof.
  unfold Cases.with_link_queued. apply elem_of_last_default.
  intros Hnil. apply (f_equal length) in Hnil. vm_compute in Hnil.
  discriminate Hnil.
Qed.

Lemma queue_has_no_duplicates_witness :
  NoDup (url <$> queue Cases.with_link_queued)
  /\ Forall (fun e => 0 <= depth e <= Z.max 0 (maxDepth (CONFIG "a.test")))
       (queue Cases.with_link_queued).
Proof.
  apply (@queue_has_no_duplicates (Sample.browser Runs.page) (CONFIG "a.test")
           [Start (Sample.start_on Runs.page ["/a"] [])]
           Cases.with_link_queued).
  exact with_link_queued_is_reached.
Defined.

Lemma queued_urls_are_allowed_witness :
  {| url := "https://a.test/a"; depth := 1 |}
  = @start_entry (Sample.browser Runs.page)
  \/ (@isAllowedUrl (Sample.browser Runs.page) "https://a.test/a"
        Cases.with_link_queued).1.1 = Normal true.
Proof.
  apply (@queued_urls_are_allowed (Sample.browser Runs.page) (CONFIG "a.test")
           [Start (Sample.start_on Runs.page ["/a"] [])]
           Cases.with_link_queued {| url := "https://a.test/a"; depth := 1 |}).
  - repeat constructor.
  - exact with_link_queued_is_reached.
  - assert (Hq : queue Cases.with_link_queued
                 = [{| url := "https://a.test/"; depth := 0 |};
                    {| url := "https://a.test/a"; depth := 1 |}])
      by (vm_compute; reflexivity).
    rewrite Hq. apply list_elem_of_further, list_elem_of_here.
Defined.

Lemma start_rebuilds_allowlist_witness :
  allowlist (@startCrawl (Sample.browser Runs.page) (CONFIG "a.test")
               (Sample.start_on Runs.page [] [])
               (initial_state (CONFIG "a.test"))).1.2
  = ["a.test"]
  /\ dynamicAllowlist
       (@startCrawl (Sample.browser Runs.page) (CONFIG "a.test")
          (Sample.start_on Runs.page [] [])
          (initial_state (CONFIG "a.test"))).1.2
     = [].
Proof.
  apply (@start_rebuilds_allowlist (Sample.browser Runs.page) (CONFIG "a.test")
           (Sample.start_on Runs.page [] []) (initial_state (CONFIG "a.test"))).
  reflexivity.
Defined.

Lemma removal_of_configured_entry_is_undone_witness :
  let B := Sample.browser Runs.page in
  let removed := (allowlist_remove "a.test" (initial_state (CONFIG "a.test"))).1.2 in
  ("a.test" ∉ allowlist removed)
  /\ ("a.test" ∈ allowlist (@startCrawl B (CONFIG "a.test")
                              (Sample.start_on Runs.page [] []) removed).1.2
      <-> "a.test" ∈ domainAllowlist (CONFIG "a.test")
          \/ "a.test" = @location_host B).
Proof.
  apply (@removal_of_configured_entry_is_undone (Sample.browser Runs.page)
           (CONFIG "a.test") (Sample.start_on Runs.page [] [])
           (initial_state (CONFIG "a.test")) "a.test").
  - reflexivity.
  - discriminate.
Defined.

Lemma adding_entry_never_revokes_witness :
  (@isAllowedUrl (Sample.browser Runs.page) "https://a.test/x"
     (allowlist_add "b.test" (initial_state (CONFIG "a.test"))).1.2).1.1
  = Normal true.
Proof.
  apply (@adding_entry_never_revokes (Sample.browser Runs.page)
           "b.test" "https://a.test/x" (initial_state (CONFIG "a.test"))).
  reflexivity.
Defined.

Lemma added_entry_survives_restart_witness :
  let added := (allowlist_add "b.test" (initial_state (CONFIG "a.test"))).1.2 in
  "b.test" ∈ allowlist added
  /\ "b.test" ∈ allowlist (@startCrawl (Sample.browser Runs.page)
                             (CONFIG "a.test")
                             (Sample.start_on Runs.page [] []) added).1.2.
Proof.
  apply (@added_entry_survives_restart (Sample.browser Runs.page)
           (CONFIG "a.test") (Sample.start_on Runs.page [] [])
           (initial_state (CONFIG "a.test")) "b.test").
  - reflexivity.
  - discriminate.
Defined.

(** *** Stopping and ending *)

Section StopInFlight.

Context `{Browser}.
Variable cfg : config.

(** X20. A Stop that lands while a page is in flight can leave the
    session marked as running: the links of the page refill the queue
    that [stopCrawl] emptied, [runQueue] then sets [isRunning] from the
    queue, and afterwards [startCrawl] refuses to start. *)
Theorem stop_in_flight_leaves_session_running (w w' : iteration_world)
    (rest : list iteration_world) (s : state) (e : entry) (q : list entry)
    (p : payload) (doc : document) :
  isRunning s = true -> isPaused s = false -> isStopping s = false ->
  queue s = e :: q ->
  url e ∉ visited s ->
  depth e + 1 <= maxDepth cfg ->
  pagesVisited s + 1 < maxPages cfg ->
  visit_clicks w = [ClickedStop] ->
  visit_result w = Some (p, doc) ->
  (handleOutput cfg (delivery w) (Some p) s).1.1 = Normal tt ->
  has_new_link doc (url e) s ->
  delay_clicks w = [] ->
  let s' := (runQueue cfg (w :: w' :: rest) s).1.2 in
  isRunning s' = true /\ isStopping s' = true /\ queue s' <> []
  /\ forall w0, (startCrawl cfg w0 s').1 = (Normal tt, s').
Proof.
  intros Hrun Hpaused Hstopping Hq Hfresh Hdepth Hbudget Hclicks Hvisit
    Hout Hlink Hdelay.
  (* the entry is taken from the queue *)
  set (s1 := set_queue q s).
  (* Stop is handled while the page is awaited *)
  set (s2 := set_isPaused false
               (set_isRunning false (set_queue [] (set_isStopping true s1)))).
  (* the page is delivered *)
  destruct (handleOutput_returns cfg (delivery w) p s2) as [lh Hh].
  { rewrite (handleOutput_reads_count cfg _ _ s2 s) by reflexivity. exact Hout. }
  (* its links are queued *)
  destruct (enqueueLinks_appends cfg doc (url e) (depth e) s2)
    as (added & le & He & _ & _).
  assert (Hadded : added <> []).
  { destruct Hlink as (attr & resolved & Hin & Hattr & Hjs & Hmail & Hnew
                       & Hallowed & Hnotv).
    pose proof (enqueueLinks_complete cfg doc (url e) attr
                  (depth e) s2 resolved Hdepth Hin Hattr Hjs Hmail Hnew) as Hc.
    unfold queued_or_full in Hc.
    rewrite He in Hc. cbn [fst snd queue set_queue s2 app] in Hc.
    intros ->. destruct Hc as [Hc | Hc].
    - rewrite (isAllowedUrl_reads_allowlist _ s s2) by reflexivity. exact Hallowed.
    - exact Hnotv.
    - inversion Hc.
    - cbn in Hc. change (pagesVisited s2) with (pagesVisited s) in Hc. lia. }
  set (s3 := set_queue (queue s2 ++ added) s2) in *.
  set (s4 := set_pagesVisited (pagesVisited s3 + 1)
               (set_visited ({[url e]} ∪ visited s3) s3)).
  assert (Hv : exists lv, runQueue_visit cfg w e s1 = (Normal FallThrough, s4, lv)).
  { unfold runQueue_visit, try_catch, updateStatus.
    rewrite run_bind_ret, run_bind_emit, Hclicks, Hvisit.
    assert (Hstop : exists ls, forEach interrupt [ClickedStop] s1
                               = (Normal tt, s2, ls))
      by (eexists; reflexivity).
    destruct Hstop as [ls Hstop].
    rewrite (run_bind_normal _ _ _ _ _ _ Hstop).
    rewrite (run_bind_normal _ _ _ _ _ _ Hh).
    rewrite (run_bind_normal _ _ _ _ _ _ He). fold s3.
    rewrite !run_bind_mutate, run_bind_ret. fold s4.
    cbn [fst snd]. eexists. reflexivity. }
  destruct Hv as [lv Hv].
  assert (Hgo : (0 <? Z.of_nat (length (queue s4)))
                && (pagesVisited s4 <? maxPages cfg) = true).
  { apply andb_true_iff. split.
    - apply Z.ltb_lt. change (queue s4) with (added).
      destruct added; [congruence | cbn [length]; lia].
    - apply Z.ltb_lt. change (pagesVisited s4) with (pagesVisited s + 1). lia. }
  assert (Hw : exists lw, runQueue_while cfg (w :: w' :: rest) s
                          = (Normal true, s4, lw)).
  { cbn [runQueue_while]. rewrite run_bind_get, Hq, Hpaused, Hstopping.
    cbn [length orb].
    replace (pagesVisited s <? maxPages cfg) with true
      by (symmetry; apply Z.ltb_lt; lia).
    replace (0 <? Z.of_nat (S (length q))) with true
      by (symmetry; apply Z.ltb_lt; lia).
    cbn [andb negb]. rewrite run_bind_mutate. fold s1. rewrite run_bind_get.
    change (visited s1) with (visited s).
    rewrite bool_decide_eq_false_2 by exact Hfresh.
    replace (depth e >? maxDepth cfg) with false
      by (symmetry; destruct (Z.gtb_spec (depth e) (maxDepth cfg)); [lia | reflexivity]).
    rewrite (run_bind_normal _ _ _ _ _ _ Hv). cbv iota beta.
    rewrite run_bind_get.
    replace (pagesVisited s4 >=? maxPages cfg) with false
      by (symmetry; change (pagesVisited s4) with (pagesVisited s + 1);
          destruct (Z.geb_spec (pagesVisited s + 1) (maxPages cfg));
          [lia | reflexivity]).
    rewrite Hdelay. cbn [forEach]. rewrite run_bind_ret, run_bind_get.
    rewrite Hgo. cbn [negb].
    change (isPaused s4 || isStopping s4) with true. cbv iota.
    unfold ret. cbn [fst snd]. eexists. reflexivity. }
  destruct Hw as [lw Hw].
  assert (Hr : (runQueue cfg (w :: w' :: rest) s).1.2 = set_isRunning true s4).
  { unfold runQueue. rewrite run_bind_get, Hrun, Hpaused, Hstopping.
    cbn [negb orb]. rewrite (run_bind_normal _ _ _ _ _ _ Hw).
    cbn [negb]. rewrite run_bind_mutate, run_bind_get. rewrite Hgo.
    reflexivity. }
  cbv zeta. rewrite Hr.
  split; [reflexivity |]. split; [reflexivity |]. split.
  - change (queue (set_isRunning true s4)) with added. exact Hadded.
  - intros w0. reflexivity.
Qed.

Lemma interrupt_iterations c s :
  iterations_left cfg (interrupt c s).1.2 <= iterations_left cfg s
  /\ pagesVisited (interrupt c s).1.2 = pagesVisited s.
Proof.
  unfold iterations_left.
  destruct c; cbn;
    [destruct (isRunning s) | destruct (isRunning s && negb (isPaused s)) |];
    cbn; split; try reflexivity; lia.
Qed.

Lemma forEach_interrupt_iterations cs s :
  iterations_left cfg (forEach interrupt cs s).1.2 <= iterations_left cfg s
  /\ pagesVisited (forEach interrupt cs s).1.2 = pagesVisited s.
Proof.
  revert s. induction cs as [| c rest IH]; intros s.
  - cbn. split; [lia | reflexivity].
  - cbn [forEach]. unfold bind.
    pose proof (interrupt_iterations c s) as [Hc Hp].
    pose proof (interrupt_returns c s) as Hr.
    destruct (interrupt c s) as [[r s1] l1]. cbn [fst snd] in Hc, Hp, Hr. subst r.
    specialize (IH s1). destruct (forEach interrupt rest s1) as [[r2 s2] l2].
    cbn [fst snd] in IH |- *. destruct IH as [IH1 IH2]. split; [lia | congruence].
Qed.

Lemma runQueue_visit_iterations w e s :
  pagesVisited s < maxPages cfg ->
  iterations_left cfg (runQueue_visit cfg w e s).1.2 <= iterations_left cfg s.
Proof.
  intros Hlt. unfold runQueue_visit, try_catch, updateStatus.
  rewrite run_bind_ret, run_bind_emit.
  pose proof (forEach_interrupt_iterations (visit_clicks w) s) as [Hi Hp].
  pose proof (forEach_interrupt_returns (visit_clicks w) s) as Hr.
  destruct (forEach interrupt (visit_clicks w) s) as [[r sa] la] eqn:Hclicks.
  cbn [fst snd] in Hi, Hp, Hr. subst r.
  rewrite (run_bind_normal _ _ _ _ _ _ Hclicks).
  destruct (visit_result w) as [[p doc] |]; [| cbn; exact Hi].
  destruct (handleOutput_keeps_state cfg (delivery w) (Some p) sa) as [Hs _].
  destruct (handleOutput cfg (delivery w) (Some p) sa) as [[[[] | err] sh] lh] eqn:Hh;
    cbn [fst snd] in Hs; subst sh.
  2: { rewrite (run_bind_throw _ _ _ _ _ _ Hh). cbn. exact Hi. }
  rewrite (run_bind_normal _ _ _ _ _ _ Hh).
  destruct (enqueueLinks_appends cfg doc (url e) (depth e) sa)
    as (added & le & He & (_ & _ & Hroom) & _).
  rewrite (run_bind_normal _ _ _ _ _ _ He).
  rewrite !run_bind_mutate, run_bind_ret. unfold ret. cbn [fst snd].
  unfold iterations_left in *.
  cbn [queue pagesVisited set_queue set_visited set_pagesVisited] in *.
  rewrite Hp in *.
  replace (Z.max 0 (maxPages cfg - (pagesVisited s + 1)))
    with (maxPages cfg - pagesVisited s - 1) by lia.
  replace (Z.max 0 (maxPages cfg - pagesVisited s))
    with (maxPages cfg - pagesVisited s) in * by lia.
  set (n := maxPages cfg - pagesVisited s) in *.
  assert (Hn : 1 <= n) by (unfold n; lia).
  destruct added as [| e1 added'].
  - rewrite app_nil_r. nia.
  - specialize (Hroom ltac:(discriminate)).
    assert (Hlen : Z.of_nat (length (queue sa ++ e1 :: added')) <= n)
      by (unfold n; lia).
    nia.
Qed.

(** The loop of [runQueue] is left before [iterations_left]
    iterations are over. *)
Lemma runQueue_while_ends script s :
  iterations_left cfg s < Z.of_nat (length script) ->
  (runQueue_while cfg script s).1.1 = Normal true.
Proof.
  revert s. induction script as [| w rest IH]; intros s Hfuel.
  - exfalso. unfold iterations_left in Hfuel. cbn [length] in Hfuel. nia.
  - cbn [runQueue_while]. rewrite run_bind_get.
    destruct (negb ((0 <? Z.of_nat (length (queue s)))
                    && (pagesVisited s <? maxPages cfg))) eqn:Htest;
      [reflexivity |].
    destruct (isPaused s || isStopping s); [reflexivity |].
    apply negb_false_iff, andb_true_iff in Htest as [Hlen Hlt].
    apply Z.ltb_lt in Hlt.
    destruct (queue s) as [| e q] eqn:Hq; [cbn in Hlen; discriminate |].
    rewrite run_bind_mutate. cbn [fst]. rewrite run_bind_get.
    assert (Hfuel1 : iterations_left cfg (set_queue q s) < Z.of_nat (length rest)).
    { unfold iterations_left in *. cbn [queue set_queue pagesVisited].
      rewrite Hq in Hfuel. cbn [length] in Hfuel. lia. }
    destruct (bool_decide (url e ∈ visited (set_queue q s)));
      [apply IH; exact Hfuel1 |].
    destruct (depth e >? maxDepth cfg); [apply IH; exact Hfuel1 |].
    pose proof (runQueue_visit_iterations w e (set_queue q s) Hlt) as Hv.
    destruct (runQueue_visit_returns cfg w e (set_queue q s)) as [fl Hfl].
    destruct (runQueue_visit cfg w e (set_queue q s)) as [[r s1] l1] eqn:Hvisit.
    cbn [fst snd] in Hv, Hfl. subst r.
    rewrite (run_bind_normal _ _ _ _ _ _ Hvisit). cbn [fst].
    destruct fl; [apply IH; lia |].
    rewrite run_bind_get.
    destruct (pagesVisited s1 >=? maxPages cfg); [reflexivity |].
    pose proof (forEach_interrupt_iterations (delay_clicks w) s1) as [Hi _].
    pose proof (forEach_interrupt_returns (delay_clicks w) s1) as Hr.
    destruct (forEach interrupt (delay_clicks w) s1) as [[r s2] l2] eqn:Hclicks.
    cbn [fst snd] in Hi, Hr. subst r.
    rewrite (run_bind_normal _ _ _ _ _ _ Hclicks). cbn [fst].
    apply IH. lia.
Qed.

(** Between two actions a script that is [long_enough] outlasts the
    loop. *)
Lemma long_script_ends_loop script s :
  stable cfg s -> long_enough cfg script ->
  (runQueue_while cfg script s).1.1 = Normal true.
Proof.
  intros Hs Hlong. apply runQueue_while_ends.
  pose proof (iterations_left_bound cfg s Hs) as Hb.
  unfold long_enough in Hlong. cbv zeta in Hlong. lia.
Qed.

(** X21. With one worker the loop of [runQueue] ends: whatever the
    pages contain, and with Stop clicks and at most one Pause click
    while it waits, it is left, without an exception, before
    [iterations_left], the length of the queue plus [n * (n + 1)] for a
    budget of [n] pages left, iterations are over. *)
Theorem runQueue_loop_ends (script : list iteration_world) (s : state) :
  one_at_a_time (clicks_of_loop script) ->
  iterations_left cfg s < Z.of_nat (length script) ->
  (runQueue_while cfg script s).1.1 = Normal true.
Proof.
  intros _ Hfuel. exact (runQueue_while_ends script s Hfuel).
Qed.

Lemma runQueue_while_returns script s :
  exists left, (runQueue_while cfg script s).1.1 = Normal left.
Proof.
  revert s. induction script as [| w rest IH]; intros s.
  - exists false. reflexivity.
  - cbn [runQueue_while]. rewrite run_bind_get.
    destruct (negb ((0 <? Z.of_nat (length (queue s)))
                    && (pagesVisited s <? maxPages cfg))) eqn:Htest;
      [exists true; reflexivity |].
    destruct (isPaused s || isStopping s); [exists true; reflexivity |].
    apply negb_false_iff, andb_true_iff in Htest as [Hlen _].
    destruct (queue s) as [| e q] eqn:Hq; [cbn in Hlen; discriminate |].
    rewrite run_bind_mutate. cbn [fst]. rewrite run_bind_get.
    destruct (bool_decide (url e ∈ visited (set_queue q s))); [apply IH |].
    destruct (depth e >? maxDepth cfg); [apply IH |].
    destruct (runQueue_visit_returns cfg w e (set_queue q s)) as [fl Hfl].
    destruct (runQueue_visit cfg w e (set_queue q s)) as [[r s1] l1] eqn:Hvisit.
    cbn [fst] in Hfl. subst r.
    rewrite (run_bind_normal _ _ _ _ _ _ Hvisit). cbn [fst].
    destruct fl; [apply IH |].
    rewrite run_bind_get.
    destruct (pagesVisited s1 >=? maxPages cfg); [exists true; reflexivity |].
    pose proof (forEach_interrupt_returns (delay_clicks w) s1) as Hr.
    destruct (forEach interrupt (delay_clicks w) s1) as [[r s2] l2] eqn:Hclicks.
    cbn [fst] in Hr. subst r.
    rewrite (run_bind_normal _ _ _ _ _ _ Hclicks). cbn [fst].
    apply IH.
Qed.

(** X22. [runQueue] returns normally from every state: the loop never
    takes an entry from an empty queue and its body catches what a
    page throws, so the handlers the callers of [runQueue] attach with
    [catch] never run. *)
Theorem runQueue_never_throws (script : list iteration_world) (s : state) :
  (runQueue cfg script s).1.1 = Normal tt.
Proof.
  unfold runQueue. rewrite run_bind_get.
  destruct (negb (isRunning s) || isPaused s || isStopping s); [reflexivity |].
  destruct (runQueue_while_returns script s) as [left Hleft].
  destruct (runQueue_while cfg script s) as [[r s1] l1] eqn:Hwhile.
  cbn [fst] in Hleft. subst r.
  rewrite (run_bind_normal _ _ _ _ _ _ Hwhile). cbn [fst].
  destruct left; cbn [negb]; [| reflexivity].
  rewrite run_bind_mutate. cbn [fst]. rewrite run_bind_get.
  match goal with
  | |- context [if ?c then _ else _] => destruct c
  end; reflexivity.
Qed.

End StopInFlight.

Lemma stop_in_flight_leaves_session_running_witness :
  let B := Sample.browser Runs.page in
  let s' := (@runQueue B (CONFIG "a.test")
               [Cases.stopped_in_flight; Sample.page_with "https://a.test/b" []]
               Cases.crawling).1.2 in
  isRunning s' = true /\ isStopping s' = true /\ queue s' <> []
  /\ forall w0, (@startCrawl B (CONFIG "a.test") w0 s').1 = (Normal tt, s').
Proof.
  apply (@stop_in_flight_leaves_session_running (Sample.browser Runs.page)
           (CONFIG "a.test") Cases.stopped_in_flight
           (Sample.page_with "https://a.test/b" []) [] Cases.crawling
           {| url := "https://a.test/a"; depth := 1 |} []
           (Sample.a_payload "https://a.test/a") ["/b"]).
  - reflexivity.
  - reflexivity.
  - reflexivity.
  - reflexivity.
  - apply (proj1 (bool_decide_eq_false _)). vm_compute. reflexivity.
  - cbn. lia.
  - cbn. lia.
  - reflexivity.
  - reflexivity.
  - reflexivity.
  - exists "/b",
      {| Sample.u_scheme := "https"; Sample.u_host := "a.test";
         Sample.u_path := "/b"; Sample.u_hash := "" |}.
    split; [apply list_elem_of_here |]. split; [discriminate |].
    split; [reflexivity |]. split; [reflexivity |]. split; [reflexivity |].
    split; [reflexivity |].
    apply (proj1 (bool_decide_eq_false _)). vm_compute. reflexivity.
  - reflexivity.
Defined.

Lemma runQueue_loop_ends_witness :
  (@runQueue_while (Sample.browser Runs.page) Cases.three_pages
     Cases.paused_loop Cases.two_queued).1.1
  = Normal true.
Proof.
  apply (@runQueue_loop_ends (Sample.browser Runs.page) Cases.three_pages
           Cases.paused_loop Cases.two_queued).
  - split; vm_compute; [reflexivity | lia].
  - vm_compute. reflexivity.
Defined.

(** *** Quiescence *)

Section TrackerExtras.

Import Tracker.

(** X23. The counter is exact as long as completions do not outnumber
    the requests in flight: when no prefix of the signals reports more
    completions than there are requests, the counter afterwards is the
    counter before plus the requests issued minus those completed. *)
Theorem pending_count_is_exact (sgs : list signal) (t : tracker) :
  (forall before after, sgs = before ++ after ->
     0 <= pendingRequests t + net_change before) ->
  pendingRequests (receive_all sgs t) = pendingRequests t + net_change sgs.
Proof.
  unfold receive_all. revert t.
  induction sgs as [| sg rest IH]; intros t Hbal; cbn [fold_left net_change fold_right].
  - lia.
  - pose proof (Hbal [sg] rest eq_refl) as H1. cbn [net_change fold_right] in H1.
    assert (Hstep : pendingRequests (receive t sg)
                    = pendingRequests t
                      + match sg with
                        | Issued _ => 1 | Settled _ => -1 | Mutated _ => 0
                        end).
    { destruct sg; cbn [receive markNetworkActivity pendingRequests]; lia. }
    rewrite IH.
    + fold (net_change rest). lia.
    + intros before after ->. rewrite Hstep.
      pose proof (Hbal (sg :: before) after eq_refl) as H2.
      cbn [net_change fold_right] in H2. fold (net_change before) in H2. lia.
Qed.

Lemma receive_all_pending sgs t :
  none_settles sgs -> 0 < pendingRequests t ->
  0 < pendingRequests (receive_all sgs t).
Proof.
  unfold receive_all, none_settles. revert t.
  induction sgs as [| sg rest IH]; intros t Hall Ht; [exact Ht |].
  apply Forall_cons in Hall as [Hsg Hrest]. cbn [fold_left].
  apply IH; [exact Hrest |].
  destruct sg; cbn [receive markNetworkActivity pendingRequests];
    [lia | contradiction | exact Ht].
Qed.

Lemma tracker_at_pending w t k :
  (forall j, none_settles (fst (w j))) -> 0 < pendingRequests t ->
  0 < pendingRequests (tracker_at w t k).
Proof.
  intros Hw Ht. induction k as [| k IH]; [exact Ht |].
  cbn [tracker_at]. apply receive_all_pending; [apply Hw | exact IH].
Qed.

(** X24. A request that never completes costs the whole wait: with a
    request in flight and no completion reported, [waitForIdle] does
    not resolve before the 121st poll, where it gives up. *)
Theorem hung_request_times_out (w : polls) (t : tracker) :
  0 < pendingRequests t ->
  (forall k, none_settles (fst (w k))) ->
  waitForIdle w t = (121%nat, TimedOut).
Proof.
  intros Ht Hw.
  assert (Hbusy : forall k, idle_at w t k = false).
  { intros k. unfold idle_at, networkIdle.
    pose proof (tracker_at_pending w t k Hw Ht) as Hk.
    destruct (Z.leb_spec (pendingRequests (tracker_at w t k)) 0); [lia |].
    reflexivity. }
  pose proof (check_spec w t 121 0 ltac:(lia)) as Hspec.
  cbv zeta in Hspec. change (tracker_at w t 0) with t in Hspec.
  unfold waitForIdle.
  destruct (check w t 0) as [n r]. cbn [fst snd] in Hspec.
  destruct Hspec as (H1 & H2 & _ & H4 & H5).
  destruct r.
  - specialize (H4 eq_refl). rewrite Hbusy in H4. discriminate.
  - destruct (H5 eq_refl) as [_ Hge]. f_equal. lia.
Qed.

End TrackerExtras.

Lemma pending_count_is_exact_witness :
  Tracker.pendingRequests
    (Tracker.receive_all [Tracker.Issued 5] (Tracker.createActivityTracker 0 0))
  = Tracker.pendingRequests (Tracker.createActivityTracker 0 0)
    + net_change [Tracker.Issued 5].
Proof.
  apply (pending_count_is_exact [Tracker.Issued 5]
           (Tracker.createActivityTracker 0 0)).
  intros before after Heq.
  destruct before as [| sg before]; [cbn; lia |].
  injection Heq as <- Heq.
  destruct before as [| sg' before]; [cbn; lia | discriminate Heq].
Defined.

Lemma hung_request_times_out_witness :
  Tracker.waitForIdle Cases.silent Cases.one_request
  = (121%nat, Tracker.TimedOut).
Proof.
  apply (hung_request_times_out Cases.silent Cases.one_request).
  - cbn. lia.
  - intros k. constructor.
Defined.

(** *** The status panel *)

Section PanelProofs.

Context {code_unit : Type} (ellipsis : code_unit).

(** X25. [truncate] keeps a string that fits and cuts a longer one to
    its first [length - 3] code units followed by the ellipsis, which
    is [length - 2] code units in all; this needs [length >= 3]. *)
Theorem truncate_fits (str : list code_unit) (n : Z) :
  3 <= n ->
  (Z.of_nat (length str) <= n -> Panel.truncate ellipsis str n = str)
  /\ (n < Z.of_nat (length str) ->
      Panel.truncate ellipsis str n = take (Z.to_nat (n - 3)) str ++ [ellipsis]
      /\ Z.of_nat (length (Panel.truncate ellipsis str n)) = n - 2).
Proof.
  intros Hn. unfold Panel.truncate, Panel.slice_0.
  destruct (Z.gtb_spec (Z.of_nat (length str)) n) as [Hgt | Hle].
  - split; [lia |]. intros _.
    destruct (Z.ltb_spec (n - 3) 0) as [? | _]; [lia |].
    rewrite Z.min_l by lia. split; [reflexivity |].
    rewrite length_app, length_take. cbn [length]. lia.
  - split; [reflexivity | lia].
Qed.

(** X26. Below that limit [slice] counts from the end of the string:
    with [length] from 0 to 2, a string of three code units or more
    loses its last [3 - length] code units and gains the ellipsis, so
    the result is longer than [length]. *)
Theorem truncate_small_limit_counts_from_end (str : list code_unit) (n : Z) :
  0 <= n < 3 ->
  3 <= Z.of_nat (length str) ->
  Panel.truncate ellipsis str n
  = take (length str - Z.to_nat (3 - n)) str ++ [ellipsis]
  /\ n < Z.of_nat (length (Panel.truncate ellipsis str n)).
Proof.
  intros Hn Hlen. unfold Panel.truncate, Panel.slice_0.
  destruct (Z.gtb_spec (Z.of_nat (length str)) n) as [_ | ?]; [| lia].
  destruct (Z.ltb_spec (n - 3) 0) as [_ | ?]; [| lia].
  rewrite Z.max_l by lia.
  replace (Z.to_nat (Z.of_nat (length str) + (n - 3)))
    with (length str - Z.to_nat (3 - n))%nat by lia.
  split; [reflexivity |].
  rewrite length_app, length_take. cbn [length]. lia.
Qed.

End PanelProofs.

Lemma truncate_fits_witness :
  (Z.of_nat (length [104; 116; 116; 112; 115]) <= 4 ->
   Panel.truncate 8230 [104; 116; 116; 112; 115] 4 = [104; 116; 116; 112; 115])
  /\ (4 < Z.of_nat (length [104; 116; 116; 112; 115]) ->
      Panel.truncate 8230 [104; 116; 116; 112; 115] 4
      = take (Z.to_nat (4 - 3)) [104; 116; 116; 112; 115] ++ [8230]
      /\ Z.of_nat (length (Panel.truncate 8230 [104; 116; 116; 112; 115] 4))
         = 4 - 2).
Proof.
  apply (truncate_fits 8230 [104; 116; 116; 112; 115] 4). lia.
Defined.

Lemma truncate_small_limit_counts_from_end_witness :
  Panel.truncate 8230 [104; 116; 116; 112; 115] 2
  = take (length [104; 116; 116; 112; 115] - Z.to_nat (3 - 2))
      [104; 116; 116; 112; 115] ++ [8230]
  /\ 2 < Z.of_nat (length (Panel.truncate 8230 [104; 116; 116; 112; 115] 2)).
Proof.
  apply (truncate_small_limit_counts_from_end 8230 [104; 116; 116; 112; 115] 2).
  - lia.
  - cbn. lia.
Defined.

(** *** The trackers of the windows *)

Section RegistryProofs.

Import Registry.

(** X27. A window gets its tracker once: [getActivityTracker] creates a
    tracker only for a window that has none, returns the registered
    one otherwise, a second call returns the same tracker and changes
    nothing, and the trackers of the other windows are left alone. *)
Theorem tracker_is_created_once (win : window) (now1 now2 now3 now4 : Z)
    (reg : registry) :
  let res := getActivityTracker win now1 now2 reg in
  getActivityTracker win now3 now4 res.2 = res
  /\ res.2 !! win = Some res.1
  /\ match reg !! win with
     | Some t => res = (t, reg)
     | None => res.1 = Tracker.createActivityTracker now1 now2
     end
  /\ (forall other, other <> win -> res.2 !! other = reg !! other).
Proof.
  cbv zeta. unfold getActivityTracker.
  destruct (reg !! win) as [t |] eqn:Hreg; cbv zeta; cbn [fst snd].
  - rewrite Hreg. split; [reflexivity |]. split; [reflexivity |].
    split; [reflexivity |]. intros other _. reflexivity.
  - unfold registry, window in *.
    rewrite lookup_insert_eq. split; [reflexivity |]. split; [reflexivity |].
    split; [reflexivity |].
    intros other Hother. apply lookup_insert_ne. congruence.
Qed.

Lemma networkIdle_later now now' t :
  now <= now' -> Tracker.networkIdle now t = true -> Tracker.networkIdle now' t = true.
Proof.
  unfold Tracker.networkIdle. intros Hle Hidle.
  apply andb_true_iff in Hidle as [Hp Ha]. rewrite Hp. cbn [andb].
  destruct (Z.gtb_spec (now - Tracker.lastActivity t) Tracker.idleDelay); [| discriminate].
  destruct (Z.gtb_spec (now' - Tracker.lastActivity t) Tracker.idleDelay); [reflexivity | lia].
Qed.

Lemma domIdle_later now now' t :
  now <= now' -> Tracker.domIdle now t = true -> Tracker.domIdle now' t = true.
Proof.
  unfold Tracker.domIdle. intros Hle Hidle.
  destruct (Z.gtb_spec (now - Tracker.lastMutation t) (Tracker.idleDelay / 2)); [| discriminate].
  destruct (Z.gtb_spec (now' - Tracker.lastMutation t) (Tracker.idleDelay / 2)); [reflexivity | lia].
Qed.

(** X28. A window that has settled is found idle at once: when a wait
    has resolved as idle, the next wait on the same window resolves at
    its first poll, provided the page reports nothing before that poll
    and the clock has not gone back; no new tracker is made for it. *)
Theorem settled_window_is_idle_at_once (win : window)
    (now1 now2 now3 now4 : Z) (w1 w2 : Tracker.polls) (reg : registry) :
  (waitForSettled win now1 now2 w1 reg).1.2 = Tracker.Idle ->
  fst (w2 1%nat) = [] ->
  snd (w1 (waitForSettled win now1 now2 w1 reg).1.1) <= snd (w2 1%nat) ->
  (waitForSettled win now3 now4 w2 (waitForSettled win now1 now2 w1 reg).2).1
  = (1%nat, Tracker.Idle).
Proof.
  unfold waitForSettled.
  destruct (getActivityTracker win now1 now2 reg) as [t reg1] eqn:Hget.
  cbn [fst snd]. intros Hidle Hquiet Hclock.
  pose proof (check_spec w1 t 121 0 ltac:(lia)) as Hspec.
  cbv zeta in Hspec. change (Tracker.tracker_at w1 t 0) with t in Hspec.
  fold (Tracker.waitForIdle w1 t) in Hspec.
  destruct Hspec as (_ & _ & _ & Hat & _). specialize (Hat Hidle).
  set (k := (Tracker.waitForIdle w1 t).1) in *.
  set (t' := Tracker.tracker_at w1 t k) in *.
  assert (Hnext : Tracker.waitForIdle w2 t' = (1%nat, Tracker.Idle)).
  { unfold Tracker.waitForIdle. rewrite check_unfold. cbv zeta.
    rewrite Hquiet. change (Tracker.receive_all [] t') with t'.
    unfold Tracker.idle_at in Hat. fold t' in Hat.
    apply andb_true_iff in Hat as [Hnet Hdom].
    rewrite (networkIdle_later _ _ _ Hclock Hnet), (domIdle_later _ _ _ Hclock Hdom).
    reflexivity. }
  unfold getActivityTracker, registry, window in *.
  rewrite lookup_insert_eq. cbv zeta. cbn [fst snd]. exact Hnext.
Qed.

End RegistryProofs.

Lemma settled_window_is_idle_at_once_witness :
  (Registry.waitForSettled 1%positive 9000 9000 (fun _ => ([], 5000))
     (Registry.waitForSettled 1%positive 0 0 (fun _ => ([], 5000)) ∅).2).1
  = (1%nat, Tracker.Idle).
Proof.
  apply (settled_window_is_idle_at_once 1%positive 0 0 9000 9000
           (fun _ => ([], 5000)) (fun _ => ([], 5000)) ∅).
  - vm_compute. reflexivity.
  - reflexivity.
  - vm_compute. discriminate.
Defined.
